(** * SchoolRadio: the synchronized playback engine and the listener presence tracker

    A shallow embedding of the radio service of [src/services/connectionService.js]
    (playback position resolver, shuffle, reshuffle on exhaustion, playlist
    reconciliation) and of [src/services/firebaseService.js] (listener
    sessions and their garbage collection).

    Conventions of the embedding.
    - JavaScript numbers that hold times, counts and durations are integers
      here ([Z], [N] or [nat]); rounding of doubles is outside the model.
    - A property that may be [undefined] is an [option]; a truthiness test of
      the source is written out on the value it tests.
    - The realtime database and [localStorage] are fields of an explicit
      world that every operation threads; a database call throws when the
      database is unreachable, and the [try]/[catch] blocks of the source are
      kept. *)

From Stdlib Require Import ZArith NArith List String Ascii Bool Lia.
From stdpp Require Import base option list gmap strings.

Local Open Scope Z_scope.

(** ** Effects

    An operation of the services runs against a world [W] and either
    returns a value or throws; in both cases the world may have changed. *)

Inductive outcome (A : Type) : Type :=
  | Returned (a : A)
  | Thrown.

Arguments Returned {A} a.
Arguments Thrown {A}.

Definition Eff (W A : Type) : Type := W -> outcome A * W.

Definition ret {W A : Type} (a : A) : Eff W A := fun w => (Returned a, w).

Definition throw {W A : Type} : Eff W A := fun w => (Thrown, w).

Definition bind {W A B : Type} (m : Eff W A) (k : A -> Eff W B) : Eff W B :=
  fun w =>
    match m w with
    | (Returned a, w') => k a w'
    | (Thrown, w') => (Thrown, w')
    end.

(** [try { body } catch (error) { handler }] *)
Definition try_catch {W A : Type} (body handler : Eff W A) : Eff W A :=
  fun w =>
    match body w with
    | (Returned a, w') => (Returned a, w')
    | (Thrown, w') => handler w'
    end.

Declare Scope eff_scope.
Delimit Scope eff_scope with eff.

Notation "x <- m ;; k" := (bind m (fun x => k))
  (at level 100, m at next level, right associativity) : eff_scope.
Notation "m ;;; k" := (bind m (fun _ => k))
  (at level 100, right associativity) : eff_scope.

(** ** Playlist items *)

Module Radio.

(** The playlist items come from the YouTube Data API.  Only the properties
    that the radio service reads are kept. *)

Inductive DurationValue : Type :=
  | DurNumber (n : N)          (* typeof duration === 'number': a count of seconds *)
  | DurString (s : string).    (* an ISO 8601 duration such as PT1H2M3S *)

Record ResourceId : Type := { videoId : option string }.

Record Snippet : Type := { title : string; resourceId : option ResourceId }.

Record ContentDetails : Type := { duration : option DurationValue }.

Record Track : Type :=
  { snippet : option Snippet; contentDetails : option ContentDetails }.

(** [item?.snippet?.resourceId?.videoId] *)
Definition track_videoId (item : Track) : option string :=
  match snippet item with
  | Some sn => match resourceId sn with
               | Some r => videoId r
               | None => None
               end
  | None => None
  end.

(** JavaScript truthiness of a string and of a duration value. *)
Definition truthy_string (s : string) : bool :=
  match s with EmptyString => false | String _ _ => true end.

Definition truthy_duration (d : DurationValue) : bool :=
  match d with
  | DurNumber n => negb (n =? 0)%N
  | DurString s => truthy_string s
  end.

(** *** The regular expression [/PT(?:(\d+)H)?(?:(\d+)M)?(?:(\d+)S)?/]

    The expression is not anchored: [match] starts at the leftmost
    occurrence of ["PT"], and every group after it is optional, so that
    occurrence always matches. *)

Fixpoint find_PT (s : string) : option string :=
  match s with
  | EmptyString => None
  | String c rest =>
      match rest with
      | String c' rest' =>
          if (Ascii.eqb c "P" && Ascii.eqb c' "T")%bool then Some rest'
          else find_PT rest
      | EmptyString => None
      end
  end.

Definition is_digit (c : ascii) : bool :=
  ((48 <=? nat_of_ascii c) && (nat_of_ascii c <=? 57))%nat.

Definition digit_value (c : ascii) : N := N.of_nat (nat_of_ascii c - 48).

(** [\d+], greedy: the digits read so far (as [parseInt(_, 10)] reads them),
    how many there are, and the rest of the input. *)
Fixpoint read_digits (s : string) (count : nat) (value : N) : nat * N * string :=
  match s with
  | String c rest =>
      if is_digit c then read_digits rest (S count) (10 * value + digit_value c)%N
      else (count, value, s)
  | EmptyString => (count, value, s)
  end.

(** One optional group [(?:(\d+)X)?] tried at the head of [s]: the captured
    number, if the group matches, and the input left after it.  When the
    digits are not followed by [X] no shorter run of digits is either, so
    the group is skipped and nothing is consumed. *)
Definition match_group (X : ascii) (s : string) : option N * string :=
  match read_digits s 0 0%N with
  | (S _, value, String c rest) =>
      if Ascii.eqb c X then (Some value, rest) else (None, s)
  | _ => (None, s)
  end.

(** [parseInt(match[k] || 0, 10)] *)
Definition captured (g : option N) : N :=
  match g with Some v => v | None => 0%N end.

(** [parseISODuration], local to [getCurrentTrack]: seconds. *)
Definition parseISODuration (dur : option DurationValue) : N :=
  match dur with
  | None => 0%N
  | Some d =>
      if negb (truthy_duration d) then 0%N
      else match d with
           | DurNumber n => n
           | DurString s =>
               match find_PT s with
               | None => 0%N
               | Some rest =>
                   let (h, rest1) := match_group "H" rest in
                   let (m, rest2) := match_group "M" rest1 in
                   let (sec, _) := match_group "S" rest2 in
                   (captured h * 3600 + captured m * 60 + captured sec)%N
               end
           end
  end.

(** ** The shared radio state *)

Record RadioState : Type :=
  { playlist : option (list Track);
    currentTrackIndex : nat;
    startTime : Z;
    isPlaying : bool;
    playedTracks : option (list nat);
    lastFullPlaythrough : Z;
    _lastLoggedTrack : option nat;
    _reportedTrackChange : bool }.

Definition set_playlist (pl : option (list Track)) (st : RadioState) : RadioState :=
  {| playlist := pl;
     currentTrackIndex := currentTrackIndex st;
     startTime := startTime st;
     isPlaying := isPlaying st;
     playedTracks := playedTracks st;
     lastFullPlaythrough := lastFullPlaythrough st;
     _lastLoggedTrack := _lastLoggedTrack st;
     _reportedTrackChange := _reportedTrackChange st |}.

Definition set_playedTracks (played : option (list nat)) (st : RadioState) : RadioState :=
  {| playlist := playlist st;
     currentTrackIndex := currentTrackIndex st;
     startTime := startTime st;
     isPlaying := isPlaying st;
     playedTracks := played;
     lastFullPlaythrough := lastFullPlaythrough st;
     _lastLoggedTrack := _lastLoggedTrack st;
     _reportedTrackChange := _reportedTrackChange st |}.

Definition set_lastFullPlaythrough (t : Z) (st : RadioState) : RadioState :=
  {| playlist := playlist st;
     currentTrackIndex := currentTrackIndex st;
     startTime := startTime st;
     isPlaying := isPlaying st;
     playedTracks := playedTracks st;
     lastFullPlaythrough := t;
     _lastLoggedTrack := _lastLoggedTrack st;
     _reportedTrackChange := _reportedTrackChange st |}.

Definition set_logTracking (logged : option nat) (reported : bool) (st : RadioState)
  : RadioState :=
  {| playlist := playlist st;
     currentTrackIndex := currentTrackIndex st;
     startTime := startTime st;
     isPlaying := isPlaying st;
     playedTracks := playedTracks st;
     lastFullPlaythrough := lastFullPlaythrough st;
     _lastLoggedTrack := logged;
     _reportedTrackChange := reported |}.

(** ** The world of the radio service

    [fb_radioState] is the database node [radioState], [ls_radioState] and
    [ls_forceRefreshCounter] are [localStorage] items (the state is stored as
    JSON, which the service alone writes, so it always parses),
    [lastLogTimestamp] is the module variable of that name.  [clock] is what
    [Date.now()] returns and [randoms] are the successive draws of
    [Math.random()], a draw [r] standing for the double [(r mod 2^53) / 2^53].
    While an operation runs the database is reachable or not
    ([fb_online]). *)

Record World : Type :=
  { clock : Z;
    randoms : list N;
    fb_online : bool;
    fb_radioState : option RadioState;
    ls_radioState : option RadioState;
    ls_forceRefreshCounter : option nat;
    lastLogTimestamp : Z }.

Definition with_randoms (rs : list N) (w : World) : World :=
  {| clock := clock w; randoms := rs; fb_online := fb_online w;
     fb_radioState := fb_radioState w; ls_radioState := ls_radioState w;
     ls_forceRefreshCounter := ls_forceRefreshCounter w;
     lastLogTimestamp := lastLogTimestamp w |}.

Definition with_fb_radioState (s : option RadioState) (w : World) : World :=
  {| clock := clock w; randoms := randoms w; fb_online := fb_online w;
     fb_radioState := s; ls_radioState := ls_radioState w;
     ls_forceRefreshCounter := ls_forceRefreshCounter w;
     lastLogTimestamp := lastLogTimestamp w |}.

Definition with_ls_radioState (s : option RadioState) (w : World) : World :=
  {| clock := clock w; randoms := randoms w; fb_online := fb_online w;
     fb_radioState := fb_radioState w; ls_radioState := s;
     ls_forceRefreshCounter := ls_forceRefreshCounter w;
     lastLogTimestamp := lastLogTimestamp w |}.

Definition with_forceRefreshCounter (c : option nat) (w : World) : World :=
  {| clock := clock w; randoms := randoms w; fb_online := fb_online w;
     fb_radioState := fb_radioState w; ls_radioState := ls_radioState w;
     ls_forceRefreshCounter := c;
     lastLogTimestamp := lastLogTimestamp w |}.

Definition with_lastLogTimestamp (t : Z) (w : World) : World :=
  {| clock := clock w; randoms := randoms w; fb_online := fb_online w;
     fb_radioState := fb_radioState w; ls_radioState := ls_radioState w;
     ls_forceRefreshCounter := ls_forceRefreshCounter w;
     lastLogTimestamp := t |}.

Local Open Scope eff_scope.

Definition Date_now : Eff World Z := fun w => (Returned (clock w), w).

(** [await get(ref(database, 'radioState'))], with [snapshot.exists()]
    folded into the option. *)
Definition fb_get_radioState : Eff World (option RadioState) :=
  fun w => if fb_online w then (Returned (fb_radioState w), w) else (Thrown, w).

(** [await set(ref(database, 'radioState'), state)] *)
Definition fb_set_radioState (state : RadioState) : Eff World unit :=
  fun w => if fb_online w then (Returned tt, with_fb_radioState (Some state) w)
           else (Thrown, w).

(** [localStorage.getItem('radioState')] followed by [JSON.parse] *)
Definition ls_get_radioState : Eff World (option RadioState) :=
  fun w => (Returned (ls_radioState w), w).

(** [localStorage.setItem('radioState', JSON.stringify(state))] *)
Definition ls_set_radioState (state : RadioState) : Eff World unit :=
  fun w => (Returned tt, with_ls_radioState (Some state) w).

Definition LOG_INTERVAL : Z := 30000.

(** [intervalLog]: the console output is not modelled, the rate limiter is. *)
Definition intervalLog : Eff World bool :=
  now <- Date_now ;;
  fun w =>
    if LOG_INTERVAL <=? now - lastLogTimestamp w
    then (Returned true, with_lastLogTimestamp now w)
    else (Returned false, w).

(** [getRadioState] *)
Definition getRadioState : Eff World (option RadioState) :=
  try_catch fb_get_radioState ls_get_radioState.

(** ** The playback position resolver *)

Record TrackInfo : Type :=
  { track : option Track;   (* playlist[currentIndex] *)
    position : Z;           (* seconds into the current track *)
    index : nat;
    epoch : Z }.

Definition DEFAULT_DURATION : Z := 3 * 60 * 1000.

(** The duration, in milliseconds, that the first loop of [getCurrentTrack]
    gives to a track. *)
Definition track_duration_ms (t : Track) : Z :=
  match contentDetails t with
  | Some cd =>
      match duration cd with
      | Some d =>
          if truthy_duration d
          then Z.of_N (parseISODuration (Some d)) * 1000
          else DEFAULT_DURATION
      | None => DEFAULT_DURATION
      end
  | None => DEFAULT_DURATION
  end.

(** First loop: [trackDurations] and [totalPlaylistDuration]. *)
Fixpoint durations_loop (pl : list Track) (total : Z) : Z * list Z :=
  match pl with
  | [] => (total, [])
  | t :: rest =>
      let trackDuration := track_duration_ms t in
      let (total', ds) := durations_loop rest (total + trackDuration) in
      (total', trackDuration :: ds)
  end.

(** The guard against a division by zero. *)
Definition effective_durations (pl : list Track) : Z * list Z :=
  let (total, ds) := durations_loop pl 0 in
  if total =? 0
  then (Z.of_nat (length pl) * 3 * 60 * 1000, map (fun _ => DEFAULT_DURATION) pl)
  else (total, ds).

(** Second loop, from index [i] with [accumulatedDuration = acc]: the loop
    breaks at the first track whose end lies after [epochElapsed]; when it
    never breaks [currentIndex] keeps its initial value 0. *)
Fixpoint select_loop (ds : list Z) (i : nat) (acc epochElapsed : Z) : nat * Z :=
  match ds with
  | [] => (0%nat, acc)
  | d :: rest =>
      if acc + d >? epochElapsed then (i, acc)
      else select_loop rest (S i) (acc + d) epochElapsed
  end.

(** The bookkeeping of the rate-limited log on the state object. *)
Definition log_tracking (logged : bool) (currentIndex : nat) (st : RadioState)
  : RadioState :=
  let trackChanged := negb (bool_decide (_lastLoggedTrack st = Some currentIndex)) in
  if logged then set_logTracking (Some currentIndex) (_reportedTrackChange st) st
  else if (trackChanged && negb (_reportedTrackChange st))%bool
       then set_logTracking (Some currentIndex) true st
  else if negb trackChanged then set_logTracking (_lastLoggedTrack st) false st
  else st.

(** The arithmetic of [getCurrentTrack] between the reading of the clock and
    the bookkeeping: [currentIndex], [currentSongElapsedSeconds], [epoch].
    [Math.floor] of a quotient is [Z.div]; [%] truncates, as [Z.rem]. *)
Definition resolve_position (pl : list Track) (elapsed : Z) : nat * Z * Z :=
  let (totalPlaylistDuration, trackDurations) := effective_durations pl in
  let epoch := elapsed / totalPlaylistDuration in
  let epochElapsed := Z.rem elapsed totalPlaylistDuration in
  let (found, accumulatedDuration) :=
    select_loop trackDurations 0 0 epochElapsed in
  let currentIndex := if (length pl <=? found)%nat then 0%nat else found in
  let currentSongElapsed := epochElapsed - accumulatedDuration in
  (currentIndex, currentSongElapsed / 1000, epoch).

(** The update of the played tracks history at the end of
    [getCurrentTrack]. *)
Definition mark_played (currentIndex : nat) (st : RadioState) : Eff World RadioState :=
  match playedTracks st with
  | None =>
      let st' := set_playedTracks (Some [currentIndex]) st in
      ls_set_radioState st' ;;; ret st'
  | Some played =>
      if bool_decide (currentIndex ∈ played) then ret st
      else
        let st' := set_playedTracks (Some (played ++ [currentIndex])) st in
        ls_set_radioState st' ;;; ret st'
  end.

(** [getCurrentTrack(state, serverStartTime)].  The function mutates the
    object it is given, so the object as it is left is returned with the
    result; [None] as a result is JavaScript's [null]. *)
Definition getCurrentTrack (state : option RadioState) (serverStartTime : Z)
  : Eff World (option TrackInfo * option RadioState) :=
  match state with
  | None => ret (None, None)
  | Some st =>
      match playlist st with
      | None => ret (None, state)
      | Some [] => ret (None, state)
      | Some pl =>
          now <- Date_now ;;
          let elapsed := now - serverStartTime in
          let '(currentIndex, currentSongElapsedSeconds, epoch) :=
            resolve_position pl elapsed in
          logged <- intervalLog ;;
          st2 <- mark_played currentIndex (log_tracking logged currentIndex st) ;;
          ret (Some {| track := pl !! currentIndex;
                       position := currentSongElapsedSeconds;
                       index := currentIndex;
                       epoch := epoch |},
               Some st2)
      end
  end.

(** ** The shuffle *)

Definition TWO53 : N := 2 ^ 53.

(** [Math.floor(Math.random() * n)]; an exhausted list of draws keeps
    drawing 0. *)
Definition random_below (n : nat) : Eff World nat :=
  fun w =>
    match randoms w with
    | [] => (Returned 0%nat, w)
    | r :: rs =>
        (Returned (N.to_nat ((r mod TWO53) * N.of_nat n / TWO53)), with_randoms rs w)
    end.

(** [[array[i], array[j]] = [array[j], array[i]]]: the right-hand side is
    read first, then [array[i]] and [array[j]] are written in that order.
    The loop below only swaps inside the array; outside it (where
    JavaScript would grow the array) the list is left as it is. *)
Definition swap {A : Type} (array : list A) (i j : nat) : list A :=
  match array !! i, array !! j with
  | Some ai, Some aj => <[j := ai]> (<[i := aj]> array)
  | _, _ => array
  end.

(** The body of [shuffleArray] from index [i] down to 1. *)
Fixpoint shuffle_loop {A : Type} (i : nat) (array : list A) : Eff World (list A) :=
  match i with
  | O => ret array
  | S i' =>
      j <- random_below (i + 1) ;;
      shuffle_loop i' (swap array i j)
  end.

(** [shuffleArray(array)] (Fisher-Yates). *)
Definition shuffleArray {A : Type} (array : list A) : Eff World (list A) :=
  shuffle_loop (length array - 1) array.

(** ** The scheduler *)

Definition has_tracks (st : RadioState) : bool :=
  match playlist st with
  | Some (_ :: _) => true
  | _ => false
  end.

(** The object literal [initialState] of [initializeRadio]. *)
Definition initialState (shuffledPlaylist : list Track) (now : Z) : RadioState :=
  {| playlist := Some shuffledPlaylist;
     currentTrackIndex := 0;
     startTime := now;
     isPlaying := true;
     playedTracks := Some [];
     lastFullPlaythrough := now;
     _lastLoggedTrack := None;
     _reportedTrackChange := false |}.

(** What both branches of [initializeRadio] do with a state that already
    has tracks: make sure [playedTracks] exists, saving the state when it
    had to be added. *)
Definition ensure_playedTracks (save : RadioState -> Eff World unit)
    (existingState : RadioState) : Eff World RadioState :=
  match playedTracks existingState with
  | None =>
      let existingState' := set_playedTracks (Some []) existingState in
      save existingState' ;;; ret existingState'
  | Some _ => ret existingState
  end.

(** Shuffle once and create the initial state. *)
Definition create_state (save : RadioState -> Eff World unit) (pl : list Track)
  : Eff World RadioState :=
  shuffledPlaylist <- shuffleArray pl ;;
  now <- Date_now ;;
  let st := initialState shuffledPlaylist now in
  save st ;;; ret st.

Definition save_both (st : RadioState) : Eff World unit :=
  fb_set_radioState st ;;; ls_set_radioState st.

(** [initializeRadio(playlist)] *)
Definition initializeRadio (pl : list Track) : Eff World RadioState :=
  try_catch
    (existingState <- getRadioState ;;
     match existingState with
     | Some es =>
         if has_tracks es then ensure_playedTracks save_both es
         else create_state save_both pl
     | None => create_state save_both pl
     end)
    (localState <- ls_get_radioState ;;
     match localState with
     | Some es =>
         if has_tracks es then ensure_playedTracks ls_set_radioState es
         else create_state ls_set_radioState pl
     | None => create_state ls_set_radioState pl
     end).

(** The reshuffle of [checkAndResetPlayedTracks], done when every track has
    been played. *)
Definition reset_if_played (save : RadioState -> Eff World unit)
    (state : option RadioState) : Eff World unit :=
  match state with
  | None => ret tt
  | Some st =>
      match playlist st, playedTracks st with
      | Some pl, Some played =>
          if (length pl <=? length played)%nat then
            reshuffledPlaylist <- shuffleArray pl ;;
            now <- Date_now ;;
            let st' :=
              set_lastFullPlaythrough now
                (set_playedTracks (Some []) (set_playlist (Some reshuffledPlaylist) st)) in
            save st'
          else ret tt
      | _, _ => ret tt
      end
  end.

(** [checkAndResetPlayedTracks()] *)
Definition checkAndResetPlayedTracks : Eff World unit :=
  try_catch
    (state <- getRadioState ;; reset_if_played save_both state)
    (try_catch
       (localState <- ls_get_radioState ;;
        reset_if_played ls_set_radioState localState)
       (ret tt)).

(** ** Reconciliation with the catalog *)

(** [new Set()] filled with the truthy video ids of the items. *)
Definition add_id (ids : gset string) (item : Track) : gset string :=
  match track_videoId item with
  | Some id => if truthy_string id then ids ∪ {[ id ]} else ids
  | None => ids
  end.

Definition collect_ids (items : list Track) : gset string :=
  fold_left add_id items ∅.

(** [ids.has(item?.snippet?.resourceId?.videoId)]: [undefined] is never a
    member. *)
Definition has_id (ids : gset string) (id : option string) : bool :=
  match id with
  | Some i => bool_decide (i ∈ ids)
  | None => false
  end.

(** The items of the snapshot that [updatePlaylist] takes as new. *)
Definition new_items (st : RadioState) (newPlaylistItems : list Track) : list Track :=
  let currentIds :=
    match playlist st with
    | Some pl => collect_ids pl
    | None => ∅
    end in
  List.filter (fun item => negb (has_id currentIds (track_videoId item)))
    newPlaylistItems.

(** What both branches of [updatePlaylist] do with the state they loaded;
    spreading a missing playlist is a [TypeError]. *)
Definition append_new_items (save : RadioState -> Eff World unit)
    (st : RadioState) (newPlaylistItems : list Track) : Eff World RadioState :=
  let newItems := new_items st newPlaylistItems in
  if (length newItems =? 0)%nat then ret st
  else
    match playlist st with
    | None => throw
    | Some pl =>
        let st' := set_playlist (Some (pl ++ newItems)) st in
        save st' ;;; ret st'
    end.

(** [updatePlaylist(newPlaylistItems)] *)
Definition updatePlaylist (newPlaylistItems : list Track) : Eff World RadioState :=
  try_catch
    (state <- getRadioState ;;
     match state with
     | None => initializeRadio newPlaylistItems
     | Some st => append_new_items save_both st newPlaylistItems
     end)
    (try_catch
       (localState <- ls_get_radioState ;;
        match localState with
        | None => initializeRadio newPlaylistItems
        | Some st => append_new_items ls_set_radioState st newPlaylistItems
        end)
       (initializeRadio newPlaylistItems)).

(** [parseInt(localStorage.getItem('forceRefreshCounter') || '0')] *)
Definition ls_get_forceRefreshCounter : Eff World nat :=
  fun w => (Returned (default 0%nat (ls_forceRefreshCounter w)), w).

Definition ls_set_forceRefreshCounter (c : nat) : Eff World unit :=
  fun w => (Returned tt, with_forceRefreshCounter (Some c) w).

(** [checkPlaylistVersion(newItems)]; [None] is a missing argument. *)
Definition checkPlaylistVersion (newItems : option (list Track)) : Eff World bool :=
  match newItems with
  | None => ret false
  | Some items =>
      state <- getRadioState ;;
      match state ≫= playlist with
      | None => ret true
      | Some pl =>
          let currentLength := length pl in
          let newLength := length items in
          forceRefreshCounter <- ls_get_forceRefreshCounter ;;
          let newCounter := ((forceRefreshCounter + 1) mod 10)%nat in
          ls_set_forceRefreshCounter newCounter ;;;
          if negb (currentLength =? newLength)%nat then ret true
          else
            let currentIds := collect_ids pl in
            let newIds := collect_ids items in
            if negb (size currentIds =? size newIds)%nat then ret true
            else
              let videosRemoved :=
                existsb (fun id => negb (bool_decide (id ∈ newIds)))
                  (elements currentIds) in
              ret videosRemoved
      end
  end.

(** ** Notions used to state the properties of the radio service *)

Definition Zsum (l : list Z) : Z := fold_right Z.add 0 l.

(** The transposition of the indices [i] and [j]. *)
Definition transpose (i j k : nat) : nat :=
  if decide (k = i) then j else if decide (k = j) then i else k.

(** A whole, non-negative number of seconds, in milliseconds. *)
Definition duration_like (d : Z) : Prop := exists k : Z, 0 <= k /\ d = k * 1000.

(** [x] carries a video id that [updatePlaylist] finds among the truthy ids
    of the playlist [pl]. *)
Definition known_id (pl : list Track) (x : Track) : Prop :=
  exists id : string,
    track_videoId x = Some id /\ truthy_string id = true /\
    exists y : Track, y ∈ pl /\ track_videoId y = Some id.

(** The duration, in milliseconds, that [getCurrentTrack] works with for
    the track at index [i]. *)
Definition effective_duration (pl : list Track) (i : nat) : option Z :=
  (effective_durations pl).2 !! i.

(** Every element of [playedTracks] is an index into [playlist]. *)
Definition played_valid (st : RadioState) : Prop :=
  Forall (fun i : nat => (i < length (default [] (playlist st)))%nat)
    (default [] (playedTracks st)).

Definition stored_valid (s : option RadioState) : Prop :=
  match s with
  | Some st => played_valid st
  | None => True
  end.

(** Both copies of the shared state, in the database and in
    [localStorage], satisfy the invariant. *)
Definition world_valid (w : World) : Prop :=
  stored_valid (fb_radioState w) /\ stored_valid (ls_radioState w).

(** A stored copy of the state is as it was, or its [playedTracks] is
    empty. *)
Definition cleared_or_kept (before after : option RadioState) : Prop :=
  after = before \/ exists st', after = Some st' /\ playedTracks st' = Some [].

(** A Hoare triple for the operations: from a world that satisfies [P], the
    operation returns [a] in a world that satisfies [Q a], or throws in a
    world that satisfies [E]. *)
Definition triple {A : Type} (P : World -> Prop) (m : Eff World A)
    (Q : A -> World -> Prop) (E : World -> Prop) : Prop :=
  forall w, P w ->
    match m w with
    | (Returned a, w') => Q a w'
    | (Thrown, w') => E w'
    end.

Definition never : World -> Prop := fun _ => False.

(** A way of saving that keeps both copies valid, and may throw only into
    a world that satisfies [E]. *)
Definition saves (save : RadioState -> Eff World unit) (E : World -> Prop) : Prop :=
  forall st, played_valid st -> triple world_valid (save st) (fun _ => world_valid) E.

(** Each copy of the state in [after] is the copy in [before] or has an
    empty [playedTracks]. *)
Definition cleared_since (before after : World) : Prop :=
  cleared_or_kept (fb_radioState before) (fb_radioState after) /\
  cleared_or_kept (ls_radioState before) (ls_radioState after).

(** The state that [getRadioState] loads. *)
Definition loaded_state (w : World) : option RadioState :=
  if fb_online w then fb_radioState w else ls_radioState w.

(** ** Sample data *)

Definition item (id : string) (d : option DurationValue) : Track :=
  {| snippet := Some {| title := id; resourceId := Some {| videoId := Some id |} |};
     contentDetails := Some {| duration := d |} |}.

Definition state_of (pl : list Track) (played : option (list nat)) : RadioState :=
  {| playlist := Some pl;
     currentTrackIndex := 0;
     startTime := 1700000000000;
     isPlaying := true;
     playedTracks := played;
     lastFullPlaythrough := 1700000000000;
     _lastLoggedTrack := None;
     _reportedTrackChange := false |}.

(** A world in which the database is reachable and holds [s], at time
    [now]. *)
Definition world_at (now : Z) (s : option RadioState) : World :=
  {| clock := now;
     randoms := [4503599627370496; 9007199254740991; 1; 6004799503160661]%N;
     fb_online := true;
     fb_radioState := s;
     ls_radioState := s;
     ls_forceRefreshCounter := None;
     lastLogTimestamp := 0 |}.

(** Every track of a playlist of three has been played. *)
Definition played_out : RadioState :=
  state_of [item "a1" (Some (DurString "PT1M"));
            item "b2" (Some (DurString "PT30S"));
            item "c3" None] (Some [0; 2; 1]%nat).

Definition minute_track : Track := item "a1" (Some (DurString "PT1M")).
Definition half_minute_track : Track := item "b2" (Some (DurString "PT30S")).
Definition garbled_track : Track := item "c3" (Some (DurString "four minutes")).

(** ** More of the scheduler *)

(** The loop of [getNextUnplayedTrack] from index [i]: the first track
    whose index is not among the played ones. *)
Fixpoint first_unplayed (played : list nat) (pl : list Track) (i : nat)
  : option (nat * Track) :=
  match pl with
  | [] => None
  | t :: rest =>
      if bool_decide (i ∈ played) then first_unplayed played rest (S i)
      else Some (i, t)
  end.

(** [getNextUnplayedTrack(state)].  The state object is returned as the
    function leaves it.  The call of [checkAndResetPlayedTracks] is not
    awaited: the track returned is taken from the playlist as it is, and
    the reset runs on the world afterwards. *)
Definition getNextUnplayedTrack (state : option RadioState)
  : Eff World (option Track * option RadioState) :=
  match state with
  | None => ret (None, None)
  | Some st =>
      match playlist st with
      | None => ret (None, state)
      | Some [] => ret (None, state)
      | Some pl =>
          let st1 :=
            match playedTracks st with
            | None => set_playedTracks (Some []) st
            | Some _ => st
            end in
          let played := default [] (playedTracks st1) in
          if (length pl <=? length played)%nat then
            checkAndResetPlayedTracks ;;; ret (pl !! 0%nat, Some st1)
          else
            match first_unplayed played pl 0 with
            | Some (_, t) => ret (Some t, Some st1)
            | None => ret (pl !! 0%nat, Some st1)
            end
      end
  end.

(** The test under which [checkAndResetPlayedTracks] reshuffles. *)
Definition reset_due (state : option RadioState) : bool :=
  match state with
  | Some st =>
      match playlist st, playedTracks st with
      | Some pl, Some played => (length pl <=? length played)%nat
      | _, _ => false
      end
  | None => false
  end.

(** The state that a reshuffle at time [now] with outcome [out] leaves. *)
Definition reshuffled (out : list Track) (now : Z) (st : RadioState) : RadioState :=
  set_lastFullPlaythrough now (set_playedTracks (Some []) (set_playlist (Some out) st)).

(** An item that carries a truthy video id. *)
Definition identified (x : Track) : Prop :=
  exists id : string, track_videoId x = Some id /\ truthy_string id = true.

End Radio.

(** ** Listener presence *)

Module Presence.

Record Listener : Type := { timestamp : option Z; active : bool }.

(** The node [stats].  The whole-node write of [registerListener] fills the
    three children; a write to [stats/currentListeners] alone creates a node
    with that child only. *)
Record Stats : Type :=
  { currentListeners : Z;
    totalListeners : option Z;
    lastUpdated : option Z }.

(** [listeners] is the session map (the node exists exactly when the map is
    not empty), [sessionId] the identifier the module drew when it was
    loaded, [server_clock] what the placeholder [serverTimestamp()] becomes
    on the server, [clock] the local [Date.now()], [beforeunload] whether
    [unregisterListener] has been attached to the window. *)
Record World : Type :=
  { clock : Z;
    server_clock : Z;
    fb_online : bool;
    sessionId : string;
    listeners : gmap string Listener;
    stats : option Stats;
    beforeunload : bool }.

Definition with_listeners (m : gmap string Listener) (w : World) : World :=
  {| clock := clock w; server_clock := server_clock w; fb_online := fb_online w;
     sessionId := sessionId w; listeners := m; stats := stats w;
     beforeunload := beforeunload w |}.

Definition with_stats (s : option Stats) (w : World) : World :=
  {| clock := clock w; server_clock := server_clock w; fb_online := fb_online w;
     sessionId := sessionId w; listeners := listeners w; stats := s;
     beforeunload := beforeunload w |}.

Definition with_beforeunload (b : bool) (w : World) : World :=
  {| clock := clock w; server_clock := server_clock w; fb_online := fb_online w;
     sessionId := sessionId w; listeners := listeners w; stats := stats w;
     beforeunload := b |}.

Local Open Scope eff_scope.

(** A database call: it throws when the database is unreachable. *)
Definition fb_call {A : Type} (f : World -> A * World) : Eff World A :=
  fun w => if fb_online w then let (a, w') := f w in (Returned a, w') else (Thrown, w).

Definition Date_now : Eff World Z := fun w => (Returned (clock w), w).

Definition fb_get_stats : Eff World (option Stats) :=
  fb_call (fun w => (stats w, w)).

Definition fb_get_listeners : Eff World (gmap string Listener) :=
  fb_call (fun w => (listeners w, w)).

(** [set(ref(database, `listeners/${id}`), {timestamp: serverTimestamp(), active: true})] *)
Definition fb_set_listener (id : string) : Eff World unit :=
  fb_call (fun w =>
    (tt, with_listeners
           (<[id := {| timestamp := Some (server_clock w); active := true |}]> (listeners w))
           w)).

(** [set(ref(database, `listeners/${id}/active`), false)] *)
Definition deactivate (l : option Listener) : option Listener :=
  match l with
  | Some l => Some {| timestamp := timestamp l; active := false |}
  | None => Some {| timestamp := None; active := false |}
  end.

Definition fb_set_inactive (id : string) : Eff World unit :=
  fb_call (fun w => (tt, with_listeners (partial_alter deactivate id (listeners w)) w)).

(** [set(statsRef, { currentListeners, totalListeners, lastUpdated: serverTimestamp() })];
    the database refuses a value that contains [NaN]
    ([None] as [totalListeners]). *)
Definition fb_set_stats (current : Z) (total : option Z) : Eff World unit :=
  match total with
  | Some t =>
      fb_call (fun w =>
        (tt, with_stats (Some {| currentListeners := current;
                                 totalListeners := Some t;
                                 lastUpdated := Some (server_clock w) |}) w))
  | None => throw
  end.

(** [set(ref(database, 'stats/currentListeners'), count)] *)
Definition fb_set_currentListeners (count : Z) : Eff World unit :=
  fb_call (fun w =>
    (tt, with_stats
           (Some match stats w with
                 | Some s => {| currentListeners := count;
                                totalListeners := totalListeners s;
                                lastUpdated := lastUpdated s |}
                 | None => {| currentListeners := count;
                              totalListeners := None;
                              lastUpdated := None |}
                 end) w)).

(** The loop [Object.values(listeners).forEach(...)] that counts the
    sessions whose [active] is [true]. *)
Definition count_active (m : gmap string Listener) : nat :=
  length (List.filter (fun entry => active entry.2) (map_to_list m)).

(** [registerListener()] *)
Definition registerListener : Eff World bool :=
  try_catch
    (snapshot <- fb_get_stats ;;
     let total :=
       match snapshot with
       | Some s => totalListeners s
       | None => Some 0
       end in
     sid <- (fun w => (Returned (sessionId w), w)) ;;
     fb_set_listener sid ;;;
     listenersSnapshot <- fb_get_listeners ;;
     let activeListenersCount := count_active listenersSnapshot in
     fb_set_stats (Z.of_nat activeListenersCount) (Z.succ <$> total) ;;;
     (fun w => (Returned tt, with_beforeunload true w)) ;;;
     ret true)
    (ret false).

(** [unregisterListener()] *)
Definition unregisterListener : Eff World bool :=
  try_catch
    (sid <- (fun w => (Returned (sessionId w), w)) ;;
     fb_set_inactive sid ;;;
     listenersSnapshot <- fb_get_listeners ;;
     fb_set_currentListeners (Z.of_nat (count_active listenersSnapshot)) ;;;
     ret true)
    (ret false).

Definition INACTIVE_THRESHOLD : Z := 5 * 60 * 1000.

(** [if (listener.timestamp)]: a timestamp that is missing or 0 is falsy. *)
Definition truthy_timestamp (l : Listener) : option Z :=
  match timestamp l with
  | Some t => if t =? 0 then None else Some t
  | None => None
  end.

(** The test of the loop of [cleanupInactiveListeners] under which a
    session is marked inactive; [new Date(t).getTime()] of a number of
    milliseconds is that number. *)
Definition expired (now : Z) (l : Listener) : bool :=
  active l &&
  match truthy_timestamp l with
  | Some listenerTime => now - listenerTime >? INACTIVE_THRESHOLD
  | None => false
  end.

(** The loop over [Object.entries(listeners)]. *)
Fixpoint cleanup_loop (entries : list (string * Listener)) (now : Z)
    (activeListenersCount : nat) : Eff World nat :=
  match entries with
  | [] => ret activeListenersCount
  | (id, listener) :: rest =>
      if active listener then
        match truthy_timestamp listener with
        | Some listenerTime =>
            if now - listenerTime >? INACTIVE_THRESHOLD then
              fb_set_inactive id ;;;
              cleanup_loop rest now activeListenersCount
            else cleanup_loop rest now (S activeListenersCount)
        | None => cleanup_loop rest now (S activeListenersCount)
        end
      else cleanup_loop rest now activeListenersCount
  end.

(** [cleanupInactiveListeners()] *)
Definition cleanupInactiveListeners : Eff World bool :=
  try_catch
    (listenersSnapshot <- fb_get_listeners ;;
     if decide (listenersSnapshot = ∅) then ret true
     else
       now <- Date_now ;;
       activeListenersCount <-
         cleanup_loop (map_to_list listenersSnapshot) now 0 ;;
       fb_set_currentListeners (Z.of_nat activeListenersCount) ;;;
       ret true)
    (ret false).

(** ** Notions used to state the properties of the presence tracker *)

(** What the garbage collection leaves of a session. *)
Definition sweep (now : Z) (l : Listener) : Listener :=
  if expired now l then {| timestamp := timestamp l; active := false |} else l.

(** One step of the loop of [cleanupInactiveListeners] on the session map. *)
Definition sweep_step (now : Z) (m : gmap string Listener) (entry : string * Listener)
  : gmap string Listener :=
  if expired now entry.2 then partial_alter deactivate entry.1 m else m.

(** The sessions that the loop counts. *)
Definition survives (now : Z) (entry : string * Listener) : bool :=
  active entry.2 && negb (expired now entry.2).

(** The total that [registerListener] reads: that of the node [stats], 0
    when the node does not exist. *)
Definition total_before (w : World) : option Z :=
  match stats w with
  | Some s => totalListeners s
  | None => Some 0
  end.

(** ** Sample data *)

Definition presence_world (now : Z) (m : gmap string Listener) (s : option Stats)
  : World :=
  {| clock := now; server_clock := now + 40; fb_online := true;
     sessionId := "lq3x9k0.f7w2";
     listeners := m; stats := s; beforeunload := false |}.

Definition two_sessions : gmap string Listener :=
  {[ "A" := {| timestamp := Some 1700000290000; active := true |};
     "B" := {| timestamp := Some 1699999000000; active := true |} ]}.

Definition stale_stats : Stats :=
  {| currentListeners := 2; totalListeners := Some 7; lastUpdated := Some 1699999000000 |}.

(** The database after [unregisterListener] has run on an empty one: the
    session is recorded as inactive, and the node [stats] holds the count
    alone. *)
Definition count_only : World :=
  presence_world 1700000300000
    {[ "lq3x9k0.f7w2"%string := {| timestamp := None; active := false |} ]}
    (Some {| currentListeners := 0; totalListeners := None; lastUpdated := None |}).

End Presence.

(** ** Numbers as decimal strings *)

Module JsNumber.

Definition digit_char (d : N) : ascii := ascii_of_nat (48 + N.to_nat d).

(** The decimal digits of [n] in front of [acc], least significant digit
    first into the accumulator; [fuel] bounds the number of digits. *)
Fixpoint digits_go (fuel : nat) (n : N) (acc : string) : string :=
  match fuel with
  | O => acc
  | S fuel' =>
      let acc' := String (digit_char (n mod 10)) acc in
      if (n / 10 =? 0)%N then acc' else digits_go fuel' (n / 10) acc'
  end.

Definition digits_of (n : N) : string :=
  digits_go (S (N.to_nat (N.size n))) n EmptyString.

(** [n.toString()] of an integer. *)
Definition toString (z : Z) : string :=
  if z <? 0 then String "-" (digits_of (Z.to_N (- z))) else digits_of (Z.to_N z).

Definition is_space (c : ascii) : bool :=
  let n := nat_of_ascii c in
  ((9 <=? n) && (n <=? 13) || (n =? 32))%nat.

Fixpoint skip_spaces (s : string) : string :=
  match s with
  | String c rest => if is_space c then skip_spaces rest else s
  | EmptyString => s
  end.

(** [parseInt(s, 10)]: leading white space, an optional sign, then as many
    decimal digits as there are; [None] is [NaN]. *)
Definition parseInt (s : string) : option Z :=
  let s1 := skip_spaces s in
  let (negative, s2) :=
    match s1 with
    | String "-" rest => (true, rest)
    | String "+" rest => (false, rest)
    | _ => (false, s1)
    end in
  match Radio.read_digits s2 0 0%N with
  | (S _, value, _) => Some (if negative then - Z.of_N value else Z.of_N value)
  | (O, _, _) => None
  end.

End JsNumber.

(** ** The shared origin and the hard reset *)

Module Site.

(** The radio world together with the origin: the database node
    [radioServerStartTime] and the [localStorage] item of that name, both
    strings. *)
Record World : Type :=
  { radio : Radio.World;
    fb_radioServerStartTime : option string;
    ls_radioServerStartTime : option string }.

Definition with_radio (r : Radio.World) (w : World) : World :=
  {| radio := r;
     fb_radioServerStartTime := fb_radioServerStartTime w;
     ls_radioServerStartTime := ls_radioServerStartTime w |}.

Definition with_fb_start (t : option string) (w : World) : World :=
  {| radio := radio w;
     fb_radioServerStartTime := t;
     ls_radioServerStartTime := ls_radioServerStartTime w |}.

Definition with_ls_start (t : option string) (w : World) : World :=
  {| radio := radio w;
     fb_radioServerStartTime := fb_radioServerStartTime w;
     ls_radioServerStartTime := t |}.

Local Open Scope eff_scope.

(** An operation of the radio service run on the radio part of the world. *)
Definition lift {A : Type} (m : Eff Radio.World A) : Eff World A :=
  fun w => let (r, radio') := m (radio w) in (r, with_radio radio' w).

Definition Date_now : Eff World Z := lift Radio.Date_now.

(** [await get(ref(database, 'radioServerStartTime'))] *)
Definition fb_get_start : Eff World (option string) :=
  fun w => if Radio.fb_online (radio w)
           then (Returned (fb_radioServerStartTime w), w) else (Thrown, w).

(** [await set(ref(database, 'radioServerStartTime'), value)] *)
Definition fb_set_start (value : string) : Eff World unit :=
  fun w => if Radio.fb_online (radio w)
           then (Returned tt, with_fb_start (Some value) w) else (Thrown, w).

(** [await set(ref(database, 'radioState'), null)]: the node is removed. *)
Definition fb_remove_radioState : Eff World unit :=
  fun w => if Radio.fb_online (radio w)
           then (Returned tt, with_radio (Radio.with_fb_radioState None (radio w)) w)
           else (Thrown, w).

Definition ls_get_start : Eff World (option string) :=
  fun w => (Returned (ls_radioServerStartTime w), w).

Definition ls_set_start (value : string) : Eff World unit :=
  fun w => (Returned tt, with_ls_start (Some value) w).

(** [localStorage.removeItem('radioState')] *)
Definition ls_remove_radioState : Eff World unit :=
  fun w => (Returned tt, with_radio (Radio.with_ls_radioState None (radio w)) w).

(** [getServerStartTime()]; the result [None] is [NaN]. *)
Definition getServerStartTime : Eff World (option Z) :=
  try_catch
    (snapshot <- fb_get_start ;;
     match snapshot with
     | Some val => ret (JsNumber.parseInt val)
     | None =>
         startTime <- Date_now ;;
         fb_set_start (JsNumber.toString startTime) ;;;
         ret (Some startTime)
     end)
    (storedStartTime <- ls_get_start ;;
     match storedStartTime with
     | Some (String c rest) => ret (JsNumber.parseInt (String c rest))
     | _ =>
         startTime <- Date_now ;;
         ls_set_start (JsNumber.toString startTime) ;;;
         ret (Some startTime)
     end).

(** [resetRadioState()]; it returns [null]. *)
Definition resetRadioState : Eff World unit :=
  try_catch
    (fb_remove_radioState ;;;
     startTime <- Date_now ;;
     fb_set_start (JsNumber.toString startTime) ;;;
     ls_remove_radioState ;;;
     ls_set_start (JsNumber.toString startTime))
    (ls_remove_radioState ;;;
     startTime <- Date_now ;;
     ls_set_start (JsNumber.toString startTime)).

(** A site at time [now] with a reachable database. *)
Definition site_at (now : Z) (s : option Radio.RadioState) (start : option string)
  : World :=
  {| radio := Radio.world_at now s;
     fb_radioServerStartTime := start;
     ls_radioServerStartTime := None |}.

End Site.

(** ** The upcoming tracks *)

Module Upcoming.
Import Radio.

Local Open Scope eff_scope.

(** [item.snippet.resourceId.videoId]: a missing [snippet] or [resourceId]
    is a [TypeError]. *)
Definition strict_videoId (item : Track) : Eff World (option string) :=
  match snippet item with
  | Some sn =>
      match resourceId sn with
      | Some r => ret (videoId r)
      | None => throw
      end
  | None => throw
  end.

(** [playlist.findIndex(item => item.snippet.resourceId.videoId === currentVideoId)],
    from index [i]; -1 when no item matches. *)
Fixpoint findIndex (currentVideoId : option string) (pl : list Track) (i : Z)
  : Eff World Z :=
  match pl with
  | [] => ret (-1)
  | item :: rest =>
      id <- strict_videoId item ;;
      if bool_decide (id = currentVideoId) then ret i
      else findIndex currentVideoId rest (i + 1)
  end.

(** [playlist[nextIndex]] for [nextIndex = (currentIndex + i) % playlistLength];
    with an empty playlist the index is [NaN] and the entry [undefined]. *)
Definition next_track (pl : list Track) (currentIndex i : Z) : option Track :=
  if Z.of_nat (length pl) =? 0 then None
  else
    let nextIndex := Z.rem (currentIndex + i) (Z.of_nat (length pl)) in
    if nextIndex <? 0 then None else pl !! Z.to_nat nextIndex.

(** [getUpcomingTracks] of the application; [firebaseInitialized],
    [serverStartTime.current] and [currentTrack] are the component's state. *)
Definition getUpcomingTracks (firebaseInitialized : bool) (serverStartTime : option Z)
    (currentTrack : option Track) : Eff World (list (option Track)) :=
  try_catch
    (if (negb firebaseInitialized ||
         match serverStartTime with Some t => t =? 0 | None => true end)%bool
     then ret []
     else
       radioState <- getRadioState ;;
       match radioState ≫= playlist, currentTrack with
       | Some pl, Some current =>
           currentVideoId <- strict_videoId current ;;
           currentIndex <- findIndex currentVideoId pl 0 ;;
           ret (map (next_track pl currentIndex) [1; 2; 3; 4; 5])
       | _, _ => ret []
       end)
    (ret []).

(** Every item has a [snippet] with a [resourceId]. *)
Definition well_formed (item : Track) : Prop :=
  exists sn r, snippet item = Some sn /\ resourceId sn = Some r.

End Upcoming.

(** ** The catalog and the diagnostics *)

Module Net.

(** What [axios] rejects with, and what the handlers read of it:
    [error.code], [error.response.status], [error.message]. *)
Record HttpError : Type :=
  { code : option string;
    response_status : option Z;
    message : option string }.

(** An item of the response of [videos]. *)
Record Video : Type :=
  { id : string; video_contentDetails : option Radio.ContentDetails }.

(** [response.data]: the [items] of a [playlistItems] response and of a
    [videos] response. *)
Record Data : Type :=
  { playlist_items : option (list Radio.Track);
    video_items : option (list Video) }.

Inductive Reply : Type :=
  | Resolved (status : Z) (data : Data)
  | Rejected (error : HttpError).

Record Navigator : Type :=
  { userAgent : string; platform : string; cookieEnabled : bool; language : string }.

(** [replies] are the outcomes of the successive requests (a request
    beyond the list is a network error), [requests] counts the requests
    sent; [navigator] is absent outside a browser, [jsHeapSizeLimit] is
    [window.performance.memory.jsHeapSizeLimit] where it exists. *)
Record World : Type :=
  { replies : list Reply;
    requests : nat;
    fb_online : bool;
    navigator : option Navigator;
    jsHeapSizeLimit : option N }.

Inductive result (A : Type) : Type :=
  | Value (a : A)
  | Raised (error : HttpError).

Arguments Value {A} a.
Arguments Raised {A} error.

Definition NetM (A : Type) : Type := World -> result A * World.

Definition nret {A : Type} (a : A) : NetM A := fun w => (Value a, w).

Definition nraise {A : Type} (e : HttpError) : NetM A := fun w => (Raised e, w).

Definition nbind {A B : Type} (m : NetM A) (k : A -> NetM B) : NetM B :=
  fun w =>
    match m w with
    | (Value a, w') => k a w'
    | (Raised e, w') => (Raised e, w')
    end.

(** [try { body } catch (error) { handler(error) }] *)
Definition ncatch {A : Type} (body : NetM A) (handler : HttpError -> NetM A) : NetM A :=
  fun w =>
    match body w with
    | (Value a, w') => (Value a, w')
    | (Raised e, w') => handler e w'
    end.

Declare Scope net_scope.
Delimit Scope net_scope with net.
Notation "x <~ m ;; k" := (nbind m (fun x => k))
  (at level 100, m at next level, right associativity) : net_scope.
Local Open Scope net_scope.

Definition NETWORK_ERROR : HttpError :=
  {| code := Some "ERR_NETWORK"%string; response_status := None;
     message := Some "Network Error"%string |}.

(** A [TypeError]; the text of its message is the engine's. *)
Definition TYPE_ERROR : HttpError :=
  {| code := None; response_status := None; message := Some "TypeError"%string |}.

(** [await axios.get(url, config)] *)
Definition axios_get : NetM (Z * Data) :=
  fun w =>
    match replies w with
    | [] =>
        (Raised NETWORK_ERROR,
         {| replies := []; requests := S (requests w); fb_online := fb_online w;
            navigator := navigator w; jsHeapSizeLimit := jsHeapSizeLimit w |})
    | reply :: rest =>
        (match reply with
         | Resolved status data => Value (status, data)
         | Rejected e => Raised e
         end,
         {| replies := rest; requests := S (requests w); fb_online := fb_online w;
            navigator := navigator w; jsHeapSizeLimit := jsHeapSizeLimit w |})
    end.

(** [item.snippet.resourceId.videoId] *)
Definition strict_videoId (item : Radio.Track) : result (option string) :=
  match Radio.snippet item with
  | Some sn =>
      match Radio.resourceId sn with
      | Some r => Value (Radio.videoId r)
      | None => Raised TYPE_ERROR
      end
  | None => Raised TYPE_ERROR
  end.

Fixpoint strict_videoIds (items : list Radio.Track) : result (list (option string)) :=
  match items with
  | [] => Value []
  | item :: rest =>
      match strict_videoId item with
      | Value i =>
          match strict_videoIds rest with
          | Value l => Value (i :: l)
          | Raised e => Raised e
          end
      | Raised e => Raised e
      end
  end.

(** The key under which a video id is looked up in the object
    [videoDetailsMap]; ids that name a property of [Object.prototype] are
    outside the model. *)
Definition key_of (videoId : option string) : string :=
  default "undefined"%string videoId.

(** [videoDetails.forEach(video => { videoDetailsMap[video.id] = video.contentDetails })] *)
Definition details_map (videoDetails : list Video) : gmap string (option Radio.ContentDetails) :=
  fold_left (fun m video => <[id video := video_contentDetails video]> m) videoDetails ∅.

(** [{ ...item, contentDetails: videoDetailsMap[videoId] || {} }] *)
Definition enhance (m : gmap string (option Radio.ContentDetails)) (item : Radio.Track)
  : Radio.Track :=
  {| Radio.snippet := Radio.snippet item;
     Radio.contentDetails :=
       Some (default {| Radio.duration := None |}
               (m !! key_of (Radio.track_videoId item) ≫= fun cd => cd)) |}.

(** [fetchPlaylistItems(apiKey, playlistId, maxResults)]; the arguments only
    travel in the requests. *)
Definition fetchPlaylistItems : NetM (list Radio.Track) :=
  ncatch
    (response <~ axios_get ;;
     match playlist_items response.2 with
     | None => nret []
     | Some [] => nret []
     | Some playlistItems =>
         match strict_videoIds playlistItems with
         | Raised e => nraise e
         | Value _ =>
             videoDetailsResponse <~ axios_get ;;
             match video_items videoDetailsResponse.2 with
             | None => nraise TYPE_ERROR
             | Some videoDetails =>
                 nret (map (enhance (details_map videoDetails)) playlistItems)
             end
         end
     end)
    (fun error => nraise error).

(** The result of a check. *)
Record Check : Type := { success : bool; check_message : string }.

Definition truthy (s : option string) : bool :=
  match s with
  | Some (String _ _) => true
  | _ => false
  end.

Definition in_2xx (status : Z) : bool := (200 <=? status) && (status <? 300).

Definition is_status (e : HttpError) (status : Z) : bool :=
  bool_decide (response_status e = Some status).

(** [checkInternetConnection(apiKey)] *)
Definition checkInternetConnection (apiKey : option string) : NetM Check :=
  ncatch
    (if negb (truthy apiKey)
     then nret {| success := false;
                  check_message := "Cannot check internet connection without API key" |}
     else
       _ <~ axios_get ;;
       nret {| success := true; check_message := "Connected to the internet" |})
    (fun error =>
       if bool_decide (code error = Some "ERR_NETWORK"%string)
       then nret {| success := false; check_message := "No internet connection detected" |}
       else nret {| success := true;
                    check_message :=
                      "Internet connection available (detected via API response)" |}).

(** [checkYouTubeAccess(apiKey)] *)
Definition checkYouTubeAccess (apiKey : option string) : NetM Check :=
  ncatch
    (if negb (truthy apiKey)
     then nret {| success := false;
                  check_message := "Cannot check YouTube access without API key" |}
     else
       result <~ axios_get ;;
       if in_2xx result.1
       then nret {| success := true; check_message := "YouTube API is accessible" |}
       else nret {| success := false;
                    check_message :=
                      "YouTube API returned status " ++ JsNumber.toString result.1 |})
    (fun error =>
       if is_status error 403
       then nret {| success := true;
                    check_message :=
                      "YouTube API is reachable (but API key may be invalid)" |}
       else nret {| success := false;
                    check_message :=
                      "Unable to access YouTube API. It may be blocked or down." |}).

(** [checkAPIKey(apiKey)] *)
Definition checkAPIKey (apiKey : option string) : NetM Check :=
  ncatch
    (if negb (truthy apiKey)
     then nret {| success := false; check_message := "No API key provided" |}
     else
       result <~ axios_get ;;
       if in_2xx result.1
       then nret {| success := true; check_message := "API key is valid" |}
       else nret {| success := false;
                    check_message :=
                      "API returned unexpected status: " ++ JsNumber.toString result.1 |})
    (fun error =>
       if is_status error 403
       then nret {| success := false;
                    check_message := "API key is invalid or quota exceeded" |}
       else nret {| success := false; check_message := "Unable to validate API key" |}).

(** [checkPlaylistExists(apiKey, playlistId)] *)
Definition checkPlaylistExists (apiKey playlistId : option string) : NetM Check :=
  ncatch
    (if (negb (truthy apiKey) || negb (truthy playlistId))%bool
     then nret {| success := false; check_message := "API key or Playlist ID missing" |}
     else
       items <~ fetchPlaylistItems ;;
       match items with
       | _ :: _ =>
           nret {| success := true;
                   check_message := "Playlist exists and contains videos" |}
       | [] =>
           nret {| success := false;
                   check_message :=
                     "Playlist exists but contains no videos or is not accessible" |}
       end)
    (fun error =>
       if is_status error 404
       then nret {| success := false; check_message := "Playlist does not exist" |}
       else nret {| success := false;
                    check_message :=
                      "Unable to check playlist: " ++
                      (if truthy (message error) then default ""%string (message error)
                       else "Unknown error"%string) |}).

(** [checkFirebaseAccess()] of the presence service: a write to [ping]. *)
Definition checkFirebaseAccess : NetM Check :=
  fun w =>
    if fb_online w
    then (Value {| success := true; check_message := "Firebase is accessible" |}, w)
    else (Value {| success := false;
                   check_message :=
                     "Unable to access Firebase. It may be blocked or down." |}, w).

(** [Math.round(limit / 1024 / 1024)] *)
Definition megabytes (limit : N) : N := ((limit + 524288) / 1048576)%N.

(** [checkSystemCompatibility()]; the [details] of the result repeat the
    navigator and are left out. *)
Definition checkSystemCompatibility : NetM Check :=
  fun w =>
    match navigator w with
    | Some nav =>
        let memoryInfo :=
          match jsHeapSizeLimit w with
          | Some limit =>
              ("Available memory: " ++ JsNumber.toString (Z.of_N (megabytes limit)) ++ "MB")%string
          | None => "Memory info unavailable"%string
          end in
        (Value {| success := true;
                  check_message :=
                    "System appears compatible. Browser: " ++ userAgent nav ++ ". " ++
                    memoryInfo |}, w)
    | None =>
        (Value {| success := false;
                  check_message := "Error checking system compatibility" |}, w)
    end.

Record Diagnostics : Type :=
  { internet : Check;
    youtube : Check;
    apiKey_check : Check;
    playlist_check : Check;
    firebase : Check;
    system : Check;
    allPassed : bool;
    criticalPassed : bool;
    summary : string }.

(** [runAllDiagnostics(apiKey, playlistId)] *)
Definition runAllDiagnostics (apiKey playlistId : option string) : NetM Diagnostics :=
  r_internet <~ checkInternetConnection apiKey ;;
  r_youtube <~ checkYouTubeAccess apiKey ;;
  r_apiKey <~ checkAPIKey apiKey ;;
  r_playlist <~ checkPlaylistExists apiKey playlistId ;;
  r_firebase <~ checkFirebaseAccess ;;
  r_system <~ checkSystemCompatibility ;;
  let critical :=
    (success r_apiKey && success r_playlist && success r_firebase && success r_system)%bool in
  nret {| internet := r_internet;
          youtube := r_youtube;
          apiKey_check := r_apiKey;
          playlist_check := r_playlist;
          firebase := r_firebase;
          system := r_system;
          allPassed :=
            (success r_internet && success r_youtube && success r_apiKey &&
             success r_playlist && success r_firebase && success r_system)%bool;
          criticalPassed := critical;
          summary :=
            if critical then "All critical diagnostics passed"
            else "Some critical diagnostics failed" |}.

(** A browser with a network that answers as [rs]. *)
Definition browser (rs : list Reply) : World :=
  {| replies := rs; requests := 0; fb_online := true;
     navigator := Some {| userAgent := "Mozilla/5.0"; platform := "Linux x86_64";
                          cookieEnabled := true; language := "en-US" |};
     jsHeapSizeLimit := Some 4294705152%N |}.

Definition forbidden : Reply :=
  Rejected {| code := Some "ERR_BAD_REQUEST"%string; response_status := Some 403;
              message := Some "Request failed with status code 403"%string |}.

(** The world after [n] further requests. *)
Definition after (n : nat) (w : World) : World :=
  {| replies := drop n (replies w); requests := n + requests w;
     fb_online := fb_online w; navigator := navigator w;
     jsHeapSizeLimit := jsHeapSizeLimit w |}.

(** What a request gives when [r] is the next reply. *)
Definition answer (r : option Reply) : result (Z * Data) :=
  match r with
  | Some (Resolved status data) => Value (status, data)
  | Some (Rejected e) => Raised e
  | None => Raised NETWORK_ERROR
  end.

(** The server answers, and refuses with status 403. *)
Definition denied (r : Reply) : Prop :=
  exists e, r = Rejected e /\ response_status e = Some 403 /\
            code e <> Some "ERR_NETWORK"%string.

(** The content details that the response of [videos] holds for the key
    [k]: those of the last video with that id. *)
Definition details_of (videos : list Video) (k : string) : option Radio.ContentDetails :=
  last (filter (fun v => id v = k) videos) ≫= video_contentDetails.

Definition two_tracks : list Radio.Track :=
  [Radio.item "a1" None; Radio.item "b2" None].

Definition catalog : list Reply :=
  [Resolved 200 {| playlist_items := Some two_tracks; video_items := None |};
   Resolved 200
     {| playlist_items := None;
        video_items :=
          Some [{| id := "a1";
                   video_contentDetails :=
                     Some {| Radio.duration := Some (Radio.DurString "PT2M") |} |};
                {| id := "zz"; video_contentDetails := None |};
                {| id := "a1";
                   video_contentDetails :=
                     Some {| Radio.duration := Some (Radio.DurString "PT1M") |} |}] |}].

End Net.

(** * Properties of the radio service *)

Module RadioProofs.
Import Radio.

Local Open Scope Z_scope.

(** ** Durations *)

Lemma track_duration_ms_shape (t : Track) :
  exists k : Z, 0 <= k /\ track_duration_ms t = k * 1000.
Proof.
  unfold track_duration_ms, DEFAULT_DURATION.
  destruct (contentDetails t) as [cd|]; [|exists 180; lia].
  destruct (duration cd) as [d|]; [|exists 180; lia].
  destruct (truthy_duration d); [|exists 180; lia].
  exists (Z.of_N (parseISODuration (Some d))). lia.
Qed.

Lemma durations_loop_spec (pl : list Track) (total : Z) :
  durations_loop pl total =
    (total + Zsum (map track_duration_ms pl), map track_duration_ms pl).
Proof.
  revert total. induction pl as [|t pl IH]; intros total; simpl.
  - f_equal. lia.
  - rewrite IH. f_equal. lia.
Qed.

Lemma Forall_duration_like_map (pl : list Track) :
  Forall duration_like (map track_duration_ms pl).
Proof.
  induction pl as [|t pl IH]; simpl; constructor; auto.
  apply track_duration_ms_shape.
Qed.

Lemma Zsum_nonneg (ds : list Z) : Forall duration_like ds -> 0 <= Zsum ds.
Proof.
  induction 1 as [|d ds [k [Hk ->]] _ IH]; simpl; lia.
Qed.

Lemma Zsum_default (pl : list Track) :
  Zsum (map (fun _ => DEFAULT_DURATION) pl) = Z.of_nat (length pl) * 3 * 60 * 1000.
Proof.
  unfold DEFAULT_DURATION. induction pl as [|t pl IH]; simpl length; simpl Zsum; lia.
Qed.

(** What the first loop and the guard against a zero total leave behind. *)
Lemma effective_durations_spec (pl : list Track) :
  let (total, ds) := effective_durations pl in
  length ds = length pl /\ total = Zsum ds /\ Forall duration_like ds /\
  (pl <> [] -> 0 < total).
Proof.
  unfold effective_durations. rewrite durations_loop_spec.
  destruct (Z.eqb_spec (0 + Zsum (map track_duration_ms pl)) 0) as [Hz|Hz].
  - rewrite length_map, Zsum_default. split; [done|]. split; [done|]. split.
    + clear Hz. induction pl as [|t pl IH]; simpl; constructor; [|done].
      exists 180. unfold DEFAULT_DURATION. lia.
    + intros Hne. destruct pl; [done|]. simpl length. lia.
  - rewrite length_map. split; [done|]. split; [lia|].
    split; [apply Forall_duration_like_map|].
    intros _. pose proof (Zsum_nonneg _ (Forall_duration_like_map pl)). lia.
Qed.

(** ** The selection loop *)

Lemma select_loop_spec (ds : list Z) (i : nat) (acc e : Z) :
  Forall duration_like ds ->
  acc <= e < acc + Zsum ds ->
  exists (k : nat) (d acc' : Z),
    select_loop ds i acc e = ((i + k)%nat, acc') /\
    ds !! k = Some d /\ acc' <= e < acc' + d.
Proof.
  intros Hds. revert i acc.
  induction Hds as [|d ds Hd Hds IH]; intros i acc He; simpl in *; [lia|].
  rewrite Z.gtb_ltb. destruct (Z.ltb_spec e (acc + d)) as [Hlt|Hge].
  - exists 0%nat, d, acc. rewrite Nat.add_0_r. split; [done|]. split; [done|lia].
  - destruct (IH (S i) (acc + d)) as (k & d' & acc' & Heq & Hk & Hb); [lia|].
    exists (S k), d', acc'. rewrite Heq.
    split; [f_equal; lia|]. split; [done|lia].
Qed.

(** Whatever the durations and the elapsed time, the loop leaves an index
    of the list or 0. *)
Lemma select_loop_index (ds : list Z) (i : nat) (acc e : Z) :
  (select_loop ds i acc e).1 = 0%nat \/
  (i <= (select_loop ds i acc e).1 < i + length ds)%nat.
Proof.
  revert i acc. induction ds as [|d ds IH]; intros i acc; simpl; [by left|].
  destruct (acc + d >? e); simpl; [right; lia|].
  destruct (IH (S i) (acc + d)) as [H|H]; [by left | right; lia].
Qed.

Lemma resolve_position_index (pl : list Track) (elapsed : Z) :
  pl <> [] -> ((resolve_position pl elapsed).1.1 < length pl)%nat.
Proof.
  intros Hne. unfold resolve_position.
  destruct (effective_durations pl) as [total ds].
  destruct (select_loop ds 0 0 (Z.rem elapsed total)) as [found acc]. simpl.
  destruct (Nat.leb_spec (length pl) found); [|done].
  destruct pl; [done|]. simpl. lia.
Qed.

(** The resolver on a non-empty playlist at a non-negative elapsed time. *)
Lemma resolve_position_spec (pl : list Track) (elapsed : Z) :
  pl <> [] -> 0 <= elapsed ->
  exists d : Z,
    effective_duration pl (resolve_position pl elapsed).1.1 = Some d /\
    0 <= (resolve_position pl elapsed).1.2 < d / 1000.
Proof.
  intros Hne Hel. unfold resolve_position, effective_duration.
  pose proof (effective_durations_spec pl) as Hspec.
  destruct (effective_durations pl) as [total ds].
  destruct Hspec as (Hlen & Htot & Hds & Hpos). specialize (Hpos Hne).
  pose proof (Z.rem_bound_pos elapsed total Hel Hpos) as Hrem.
  destruct (select_loop_spec ds 0 0 (Z.rem elapsed total) Hds) as
    (k & d & acc & Heq & Hk & Hb); [lia|].
  rewrite Heq. simpl.
  assert (k < length pl)%nat as Hklt.
  { rewrite <- Hlen. by eapply lookup_lt_Some. }
  destruct (Nat.leb_spec (length pl) k); [lia|].
  exists d. split; [done|].
  destruct (Forall_lookup_1 _ _ _ _ Hds Hk) as (q & Hq & ->).
  rewrite Z.div_mul by lia. split.
  - apply Z.div_pos; lia.
  - apply Z.div_lt_upper_bound; lia.
Qed.

(** ** Running [getCurrentTrack] *)

Lemma mark_played_returns (i : nat) (st : RadioState) (w : World) :
  exists st' w', mark_played i st w = (Returned st', w').
Proof.
  unfold mark_played. destruct (playedTracks st) as [played|].
  - case_bool_decide; eauto.
  - eauto.
Qed.

(** On a non-empty playlist the function returns the triple computed by
    [resolve_position] at [Date.now() - serverStartTime]. *)
Lemma getCurrentTrack_returns (st : RadioState) (pl : list Track)
    (serverStartTime : Z) (w : World) :
  playlist st = Some pl -> pl <> [] ->
  exists st' w',
    getCurrentTrack (Some st) serverStartTime w =
      (Returned
         (Some {| track := pl !! (resolve_position pl (clock w - serverStartTime)).1.1;
                  position := (resolve_position pl (clock w - serverStartTime)).1.2;
                  index := (resolve_position pl (clock w - serverStartTime)).1.1;
                  epoch := (resolve_position pl (clock w - serverStartTime)).2 |},
          Some st'), w').
Proof.
  intros Hpl Hne. unfold getCurrentTrack. rewrite Hpl.
  destruct pl as [|t pl]; [done|].
  unfold bind at 1. unfold Date_now at 1.
  destruct (resolve_position (t :: pl) (clock w - serverStartTime)) as [[i pos] ep].
  simpl. unfold bind at 1.
  destruct (intervalLog w) as [[logged|] w1] eqn:Hlog.
  - unfold bind at 1.
    destruct (mark_played_returns i (log_tracking logged i st) w1) as (st' & w' & ->).
    eauto.
  - unfold intervalLog, bind, Date_now in Hlog.
    destruct (LOG_INTERVAL <=? clock w - lastLogTimestamp w); discriminate.
Qed.

(** ** The resolver: claims about [getCurrentTrack] *)

(** C1.  With a playlist of exactly two tracks that last 60 and 30 seconds
    and the origin [T0], [getCurrentTrack] returns index 0, position 10,
    epoch 0 at [T0 + 10 s]; index 1, position 5, epoch 0 at [T0 + 65 s];
    and index 0, position 5, epoch 1 at [T0 + 95 s]. *)
Theorem getCurrentTrack_two_tracks (st : RadioState) (t0 t1 : Track) (T0 : Z) :
  playlist st = Some [t0; t1] ->
  track_duration_ms t0 = 60000 ->
  track_duration_ms t1 = 30000 ->
  (forall w, clock w = T0 + 10000 ->
     exists st' w',
       getCurrentTrack (Some st) T0 w =
         (Returned (Some {| track := Some t0; position := 10;
                            index := 0; epoch := 0 |}, Some st'), w')) /\
  (forall w, clock w = T0 + 65000 ->
     exists st' w',
       getCurrentTrack (Some st) T0 w =
         (Returned (Some {| track := Some t1; position := 5;
                            index := 1; epoch := 0 |}, Some st'), w')) /\
  (forall w, clock w = T0 + 95000 ->
     exists st' w',
       getCurrentTrack (Some st) T0 w =
         (Returned (Some {| track := Some t0; position := 5;
                            index := 0; epoch := 1 |}, Some st'), w')).
Proof.
  intros Hpl H0 H1.
  assert (forall e, resolve_position [t0; t1] e =
            (let epochElapsed := Z.rem e 90000 in
             let (found, acc) := select_loop [60000; 30000] 0 0 epochElapsed in
             (if (2 <=? found)%nat then 0%nat else found,
              (epochElapsed - acc) / 1000, e / 90000))) as Hres.
  { intros e. unfold resolve_position, effective_durations.
    rewrite durations_loop_spec. simpl map. rewrite H0, H1. reflexivity. }
  repeat apply conj; intros w Hclock;
    destruct (getCurrentTrack_returns st [t0; t1] T0 w Hpl) as (st' & w' & Hrun);
    try done;
    exists st', w'; rewrite Hrun, Hclock;
    match goal with
    | |- context [T0 + ?dt - T0] => replace (T0 + dt - T0) with dt by lia
    end;
    rewrite Hres; reflexivity.
Qed.

Lemma getCurrentTrack_two_tracks_witness :
  exists st' w',
    getCurrentTrack (Some (state_of [minute_track; half_minute_track] None)) 1000
      (world_at 96000 None) =
      (Returned (Some {| track := Some minute_track; position := 5;
                         index := 0; epoch := 1 |}, Some st'), w').
Proof.
  apply (getCurrentTrack_two_tracks
           (state_of [minute_track; half_minute_track] None)
           minute_track half_minute_track 1000);
    reflexivity.
Defined.

(** C2.  For every origin, every non-empty playlist and every [now] at or
    after the origin, [getCurrentTrack] returns an index below the length
    of the playlist and a position, in seconds, that is at least 0 and
    less than the effective duration of the track at that index. *)
Theorem getCurrentTrack_in_range (st : RadioState) (pl : list Track)
    (serverStartTime : Z) (w : World) :
  playlist st = Some pl -> pl <> [] -> serverStartTime <= clock w ->
  exists info st' w' d,
    getCurrentTrack (Some st) serverStartTime w = (Returned (Some info, Some st'), w') /\
    (index info < length pl)%nat /\
    track info = pl !! index info /\
    effective_duration pl (index info) = Some d /\
    0 <= position info < d / 1000.
Proof.
  intros Hpl Hne Hnow.
  destruct (getCurrentTrack_returns st pl serverStartTime w Hpl Hne) as (st' & w' & Hrun).
  destruct (resolve_position_spec pl (clock w - serverStartTime) Hne) as (d & Hd & Hpos);
    [lia|].
  eexists _, st', w', d. split; [exact Hrun|]. simpl.
  split; [by apply resolve_position_index|]. done.
Qed.

Lemma getCurrentTrack_in_range_witness :
  exists info st' w' d,
    getCurrentTrack (Some (state_of [minute_track; garbled_track; half_minute_track] (Some [0%nat])))
      1700000000000 (world_at 1700000071500 None) = (Returned (Some info, Some st'), w') /\
    (index info < 3)%nat /\
    track info = [minute_track; garbled_track; half_minute_track] !! index info /\
    effective_duration [minute_track; garbled_track; half_minute_track] (index info) = Some d /\
    0 <= position info < d / 1000.
Proof.
  apply (getCurrentTrack_in_range
           (state_of [minute_track; garbled_track; half_minute_track] (Some [0%nat]))
           [minute_track; garbled_track; half_minute_track]
           1700000000000 (world_at 1700000071500 None));
    [reflexivity | discriminate | vm_compute; discriminate].
Defined.

(** C10.  Without a state, and with a state whose playlist is missing or
    empty, [getCurrentTrack] returns [null]; it does not throw and leaves
    the state and the world as they are. *)
Theorem getCurrentTrack_uninitialized (serverStartTime : Z) (w : World) :
  getCurrentTrack None serverStartTime w = (Returned (None, None), w) /\
  forall st : RadioState,
    playlist st = None \/ playlist st = Some [] ->
    getCurrentTrack (Some st) serverStartTime w = (Returned (None, Some st), w).
Proof.
  split; [reflexivity|].
  intros st [H|H]; unfold getCurrentTrack; rewrite H; reflexivity.
Qed.

Lemma getCurrentTrack_uninitialized_witness :
  getCurrentTrack (Some (state_of [] None)) 0 (world_at 5000 None) =
    (Returned (None, Some (state_of [] None)), world_at 5000 None).
Proof.
  apply (proj2 (getCurrentTrack_uninitialized 0 (world_at 5000 None))).
  right. reflexivity.
Defined.

(** C4, as the code has it.  A track whose [contentDetails] or [duration]
    is missing or falsy (the number 0, the empty string) counts for the
    default 180000 ms.  A duration string in which the pattern finds no
    ["PT"] counts for 0 ms, not for the default.  Only when the durations
    of all the tracks add up to 0 is every track given 180000 ms.  No
    duration string makes the resolver throw: on a non-empty playlist it
    returns a track. *)
Theorem getCurrentTrack_duration_accounting (t : Track) (s : string)
    (st : RadioState) (pl : list Track) (serverStartTime : Z) (w : World) :
  ((forall d, contentDetails t ≫= duration = Some d -> truthy_duration d = false) ->
   track_duration_ms t = 180000) /\
  (contentDetails t ≫= duration = Some (DurString s) ->
   s <> EmptyString -> find_PT s = None ->
   track_duration_ms t = 0) /\
  effective_durations pl =
    (if Zsum (map track_duration_ms pl) =? 0
     then (Z.of_nat (length pl) * 180000, map (fun _ => 180000) pl)
     else (Zsum (map track_duration_ms pl), map track_duration_ms pl)) /\
  (playlist st = Some pl -> pl <> [] ->
   exists info st' w',
     getCurrentTrack (Some st) serverStartTime w = (Returned (Some info, Some st'), w')).
Proof.
  split; [|split; [|split]].
  - intros Hfalsy. unfold track_duration_ms.
    destruct (contentDetails t) as [cd|]; [|reflexivity]. simpl in Hfalsy.
    destruct (duration cd) as [d|]; [|reflexivity].
    rewrite (Hfalsy d eq_refl). reflexivity.
  - intros Hd Hs Hpt. unfold track_duration_ms.
    destruct (contentDetails t) as [cd|]; [|discriminate]. simpl in Hd. rewrite Hd.
    destruct s as [|c s']; [done|]. simpl truthy_duration. cbv iota.
    unfold parseISODuration. simpl truthy_duration. simpl negb. cbv iota.
    rewrite Hpt. reflexivity.
  - unfold effective_durations. rewrite durations_loop_spec, Z.add_0_l.
    destruct (Zsum (map track_duration_ms pl) =? 0); [|reflexivity].
    f_equal. lia.
  - intros Hpl Hne.
    destruct (getCurrentTrack_returns st pl serverStartTime w Hpl Hne) as (st' & w' & Hrun).
    eauto.
Qed.

Lemma getCurrentTrack_duration_accounting_witness :
  track_duration_ms (item "d4" (Some (DurNumber 0))) = 180000 /\
  track_duration_ms garbled_track = 0 /\
  exists info st' w',
    getCurrentTrack (Some (state_of [minute_track; garbled_track] None)) 0
      (world_at 61000 None) = (Returned (Some info, Some st'), w').
Proof.
  destruct (getCurrentTrack_duration_accounting
              (item "d4" (Some (DurNumber 0))) EmptyString
              (state_of [minute_track; garbled_track] None)
              [minute_track; garbled_track] 0 (world_at 61000 None))
    as (Hdefault & _ & _ & Hruns).
  destruct (getCurrentTrack_duration_accounting
              garbled_track "four minutes"
              (state_of [minute_track; garbled_track] None)
              [minute_track; garbled_track] 0 (world_at 61000 None))
    as (_ & Hzero & _ & _).
  split; [|split].
  - apply Hdefault. intros d Hd. injection Hd as <-. reflexivity.
  - apply Hzero; [reflexivity | discriminate | reflexivity].
  - apply Hruns; [reflexivity | discriminate].
Defined.

(** C4, as the claim states it, fails: next to a track of one minute, a
    track whose duration string cannot be parsed is given 0 ms, not the
    default 180000 ms. *)
Lemma unparseable_duration_not_defaulted :
  ~ (forall (pl : list Track) (i : nat) (t : Track) (s : string),
       pl !! i = Some t ->
       contentDetails t ≫= duration = Some (DurString s) ->
       find_PT s = None ->
       effective_duration pl i = Some DEFAULT_DURATION).
Proof.
  intros Hclaim.
  specialize (Hclaim [minute_track; garbled_track] 1%nat garbled_track
                "four minutes" eq_refl eq_refl eq_refl).
  vm_compute in Hclaim. discriminate.
Qed.

(** ** The shuffle *)

Lemma random_below_lt (n : nat) (w : World) :
  (0 < n)%nat ->
  exists j w', random_below n w = (Returned j, w') /\ (j < n)%nat.
Proof.
  intros Hn. unfold random_below. destruct (randoms w) as [|r rs].
  - exists 0%nat, w. split; [reflexivity | lia].
  - eexists _, _. split; [reflexivity|].
    assert (r mod TWO53 < TWO53)%N as Hr by (apply N.mod_lt; discriminate).
    assert ((r mod TWO53) * N.of_nat n / TWO53 < N.of_nat n)%N as Hlt.
    { apply N.Div0.div_lt_upper_bound. apply N.mul_lt_mono_pos_r; lia. }
    lia.
Qed.

Lemma transpose_inj (i j : nat) : Inj (=) (=) (transpose i j).
Proof.
  intros a b. unfold transpose. repeat case_decide; congruence.
Qed.

Lemma swap_lookup {A : Type} (array : list A) (i j k : nat) :
  (i < length array)%nat -> (j < length array)%nat ->
  swap array i j !! k = array !! transpose i j k.
Proof.
  intros Hi Hj. unfold swap, transpose.
  destruct (lookup_lt_is_Some_2 array i Hi) as [ai Hai].
  destruct (lookup_lt_is_Some_2 array j Hj) as [aj Haj].
  rewrite Hai, Haj.
  destruct (decide (k = j)) as [->|Hkj].
  - rewrite list_lookup_insert_eq by (rewrite length_insert; lia).
    case_decide; congruence.
  - rewrite list_lookup_insert_ne by congruence.
    destruct (decide (k = i)) as [->|Hki].
    + rewrite list_lookup_insert_eq by lia. congruence.
    + rewrite list_lookup_insert_ne by congruence. reflexivity.
Qed.

Lemma swap_length {A : Type} (array : list A) (i j : nat) :
  length (swap array i j) = length array.
Proof.
  unfold swap. destruct (array !! i), (array !! j); rewrite ?length_insert; reflexivity.
Qed.

Lemma swap_Permutation {A : Type} (array : list A) (i j : nat) :
  (i < length array)%nat -> (j < length array)%nat ->
  swap array i j ≡ₚ array.
Proof.
  intros Hi Hj. apply Permutation_inj. split; [apply swap_length|].
  exists (transpose i j). split; [apply transpose_inj|].
  intros k. by apply swap_lookup.
Qed.

Lemma shuffle_loop_Permutation {A : Type} (i : nat) (array : list A) (w : World) :
  (i < length array)%nat \/ i = 0%nat ->
  exists out w', shuffle_loop i array w = (Returned out, w') /\ out ≡ₚ array.
Proof.
  revert array w. induction i as [|i IH]; intros array w Hi; cbn [shuffle_loop].
  - exists array, w. split; reflexivity.
  - destruct Hi as [Hi|Hi]; [|discriminate].
    destruct (random_below_lt (S i + 1) w) as (j & w1 & Hj & Hlt); [lia|].
    unfold bind at 1. rewrite Hj.
    destruct (IH (swap array (S i) j) w1) as (out & w' & Hrun & Hperm).
    { left. rewrite swap_length. lia. }
    exists out, w'. split; [exact Hrun|].
    rewrite Hperm. apply swap_Permutation; lia.
Qed.

(** C7.  For every array and every sequence of random draws, [shuffleArray]
    returns a permutation of its input: the same elements with the same
    multiplicities, hence the same length. *)
Theorem shuffleArray_Permutation {A : Type} (array : list A) (w : World) :
  exists out w',
    shuffleArray array w = (Returned out, w') /\
    out ≡ₚ array /\ length out = length array.
Proof.
  destruct (shuffle_loop_Permutation (length array - 1) array w) as (out & w' & Hrun & Hperm).
  { destruct array; simpl; [by right | left; lia]. }
  exists out, w'. split; [exact Hrun|]. split; [exact Hperm|].
  by apply Permutation_length.
Qed.

(** ** Reconciliation *)

Lemma fold_add_id_spec (items : list Track) (ids : gset string) (id : string) :
  id ∈ fold_left add_id items ids <->
  id ∈ ids \/
  (truthy_string id = true /\ exists y, y ∈ items /\ track_videoId y = Some id).
Proof.
  revert ids. induction items as [|t items IH]; intros ids; simpl.
  - split; [auto|]. intros [H|(_ & y & Hy & _)]; [done|]. by apply elem_of_nil in Hy.
  - rewrite IH. unfold add_id. split.
    + intros [Hin|(Ht & y & Hy & Hid)].
      * destruct (track_videoId t) as [i|] eqn:Hi; [|by left].
        destruct (truthy_string i) eqn:Htr; [|by left].
        apply elem_of_union in Hin as [Hin|Hin]; [by left|].
        apply elem_of_singleton in Hin as ->.
        right. split; [done|]. exists t. split; [left|done].
      * right. split; [done|]. exists y. split; [by right|done].
    + intros [Hin|(Ht & y & Hy & Hid)].
      * left. destruct (track_videoId t) as [i|]; [|done].
        destruct (truthy_string i); [|done]. apply elem_of_union. by left.
      * apply elem_of_cons in Hy as [->|Hy].
        -- left. rewrite Hid, Ht. apply elem_of_union. right.
           by apply elem_of_singleton.
        -- right. split; [done|]. by exists y.
Qed.

Lemma collect_ids_spec (items : list Track) (id : string) :
  id ∈ collect_ids items <->
  truthy_string id = true /\ exists y, y ∈ items /\ track_videoId y = Some id.
Proof.
  unfold collect_ids. rewrite fold_add_id_spec. split; [|by right].
  intros [Hin|H]; [|done]. by apply not_elem_of_empty in Hin.
Qed.

(** The items that [updatePlaylist] appends are the items of the snapshot,
    in their order, whose id is not known. *)
Lemma new_items_spec (st : RadioState) (pl items : list Track) (x : Track) :
  playlist st = Some pl ->
  x ∈ new_items st items <-> x ∈ items /\ ~ known_id pl x.
Proof.
  intros Hpl. unfold new_items. rewrite Hpl.
  rewrite list_elem_of_In, filter_In, <- list_elem_of_In.
  apply and_iff_compat_l. rewrite negb_true_iff. unfold has_id, known_id.
  destruct (track_videoId x) as [i|].
  - rewrite bool_decide_eq_false, collect_ids_spec. split.
    + intros Hn (id & [= <-] & Ht & Hy). by apply Hn.
    + intros Hn (Ht & Hy). apply Hn. by exists i.
  - split; [|done]. intros _ (id & Hid & _). discriminate.
Qed.

Lemma getRadioState_run (w : World) :
  getRadioState w = (Returned (loaded_state w), w).
Proof.
  unfold getRadioState, try_catch, fb_get_radioState, ls_get_radioState, loaded_state.
  by destruct (fb_online w).
Qed.

Lemma set_playlist_same (st : RadioState) (pl : list Track) :
  playlist st = Some pl -> set_playlist (Some pl) st = st.
Proof. destruct st; simpl; intros ->; reflexivity. Qed.

(** C5.  Whatever the snapshot, [updatePlaylist] run on an active state
    (the state that [getRadioState] loads, with its playlist) returns that
    state with the tracks of the snapshot whose id is new appended to the
    playlist, in the order of the snapshot: the old playlist is a prefix of
    the new one, and [startTime] and [playedTracks] are as they were.  With
    no new id the state is returned as it is and nothing is written;
    otherwise the new state is saved. *)
Theorem updatePlaylist_appends (newPlaylistItems : list Track) (w : World)
    (st : RadioState) (pl : list Track) :
  loaded_state w = Some st -> playlist st = Some pl ->
  exists st' w',
    updatePlaylist newPlaylistItems w = (Returned st', w') /\
    playlist st' = Some (pl ++ new_items st newPlaylistItems) /\
    pl `prefix_of` default [] (playlist st') /\
    (forall x, x ∈ new_items st newPlaylistItems <->
               x ∈ newPlaylistItems /\ ~ known_id pl x) /\
    startTime st' = startTime st /\
    playedTracks st' = playedTracks st /\
    st' = set_playlist (playlist st') st /\
    (new_items st newPlaylistItems = [] -> st' = st /\ w' = w) /\
    (new_items st newPlaylistItems <> [] ->
     ls_radioState w' = Some st' /\
     (fb_online w = true -> fb_radioState w' = Some st')).
Proof.
  intros Hload Hpl.
  destruct (new_items st newPlaylistItems) as [|x new] eqn:Hnew.
  - exists st, w. split.
    + unfold updatePlaylist, try_catch at 1, bind at 1.
      rewrite getRadioState_run, Hload. unfold append_new_items. rewrite Hnew.
      reflexivity.
    + rewrite app_nil_r. split; [done|]. split; [by rewrite Hpl|].
      split; [intros y; rewrite <- Hnew; by apply new_items_spec|].
      split; [done|]. split; [done|].
      split; [by rewrite Hpl, set_playlist_same|]. split; done.
  - exists (set_playlist (Some (pl ++ x :: new)) st).
    assert (exists w',
      updatePlaylist newPlaylistItems w =
        (Returned (set_playlist (Some (pl ++ x :: new)) st), w') /\
      ls_radioState w' = Some (set_playlist (Some (pl ++ x :: new)) st) /\
      (fb_online w = true ->
       fb_radioState w' = Some (set_playlist (Some (pl ++ x :: new)) st)))
      as (w' & Hrun & Hls & Hfb).
    { unfold updatePlaylist, try_catch at 1, bind at 1.
      rewrite getRadioState_run, Hload. unfold append_new_items at 1.
      rewrite Hnew, Hpl. simpl.
      unfold save_both, bind, fb_set_radioState, ls_set_radioState, ret.
      unfold loaded_state in Hload.
      destruct (fb_online w) eqn:Hon.
      - eexists. split; [reflexivity|]. split; [reflexivity|]. reflexivity.
      - unfold try_catch, ls_get_radioState. rewrite Hload.
        unfold append_new_items. rewrite Hnew, Hpl. simpl.
        eexists. split; [reflexivity|]. split; [reflexivity|]. discriminate. }
    exists w'. split; [exact Hrun|]. simpl.
    split; [done|]. split; [by apply prefix_app_r|].
    split; [intros y; rewrite <- Hnew; by apply new_items_spec|].
    split; [done|]. split; [done|]. split; [done|]. split; [done|].
    intros _. split; done.
Qed.

Lemma updatePlaylist_appends_witness :
  exists st' w',
    updatePlaylist [half_minute_track; minute_track; garbled_track]
      (world_at 5000 (Some (state_of [minute_track; half_minute_track] (Some [1%nat])))) =
      (Returned st', w') /\
    playlist st' = Some [minute_track; half_minute_track; garbled_track] /\
    startTime st' = 1700000000000 /\
    playedTracks st' = Some [1%nat] /\
    fb_radioState w' = Some st'.
Proof.
  destruct (updatePlaylist_appends
              [half_minute_track; minute_track; garbled_track]
              (world_at 5000 (Some (state_of [minute_track; half_minute_track] (Some [1%nat]))))
              (state_of [minute_track; half_minute_track] (Some [1%nat]))
              [minute_track; half_minute_track] eq_refl eq_refl)
    as (st' & w' & Hrun & Hpl & _ & _ & Hstart & Hplayed & _ & _ & Hsaved).
  exists st', w'. split; [exact Hrun|].
  split; [exact Hpl|]. split; [exact Hstart|]. split; [exact Hplayed|].
  apply Hsaved; [vm_compute; discriminate | reflexivity].
Defined.

(** Whenever the snapshot and the active playlist differ in length,
    [checkPlaylistVersion] returns [true], whatever their ids. *)
Lemma checkPlaylistVersion_size_differs (items : list Track) (w : World)
    (st : RadioState) (pl : list Track) :
  loaded_state w = Some st -> playlist st = Some pl ->
  length pl <> length items ->
  (checkPlaylistVersion (Some items) w).1 = Returned true.
Proof.
  intros Hload Hpl Hlen. unfold checkPlaylistVersion, bind at 1.
  rewrite getRadioState_run, Hload. simpl. rewrite Hpl.
  unfold bind, ls_get_forceRefreshCounter, ls_set_forceRefreshCounter.
  destruct (Nat.eqb_spec (length pl) (length items)); [done|]. reflexivity.
Qed.

(** With equal lengths and equally many distinct ids, the function returns
    [true] exactly when an id of the active playlist is missing from the
    snapshot. *)
Lemma checkPlaylistVersion_same_size (items : list Track) (w : World)
    (st : RadioState) (pl : list Track) :
  loaded_state w = Some st -> playlist st = Some pl ->
  length pl = length items ->
  size (collect_ids pl) = size (collect_ids items) ->
  (checkPlaylistVersion (Some items) w).1 = Returned true <->
  exists id, id ∈ collect_ids pl /\ id ∉ collect_ids items.
Proof.
  intros Hload Hpl Hlen Hsize. unfold checkPlaylistVersion, bind at 1.
  rewrite getRadioState_run, Hload. simpl. rewrite Hpl.
  unfold bind, ls_get_forceRefreshCounter, ls_set_forceRefreshCounter.
  rewrite Hlen, Nat.eqb_refl, Hsize, Nat.eqb_refl. simpl. split.
  - intros [= Hex]. apply existsb_exists in Hex as (id & Hin & Hnot).
    exists id. split.
    + by apply elem_of_elements, list_elem_of_In.
    + apply negb_true_iff in Hnot. by apply bool_decide_eq_false in Hnot.
  - intros (id & Hin & Hnot). f_equal. apply existsb_exists. exists id. split.
    + by apply list_elem_of_In, elem_of_elements.
    + apply negb_true_iff. by apply bool_decide_eq_false.
Qed.

(** C3.  [checkPlaylistVersion] on a snapshot that only adds a track: the
    active playlist holds the id [a1], the snapshot the ids [a1] and [b2],
    nothing is removed, and the function returns [true]: the sizes differ. *)
Theorem checkPlaylistVersion_added_track :
  let active := state_of [minute_track] (Some [0%nat]) in
  let snapshot := [minute_track; half_minute_track] in
  collect_ids [minute_track] ⊆ collect_ids snapshot /\
  collect_ids snapshot ⊈ collect_ids [minute_track] /\
  (checkPlaylistVersion (Some snapshot) (world_at 5000 (Some active))).1 = Returned true.
Proof.
  cbv zeta. split; [|split].
  - refine (bool_decide_unpack _ _). vm_compute. exact I.
  - intros Hsub. apply (bool_decide_pack _) in Hsub. vm_compute in Hsub. exact Hsub.
  - vm_compute. reflexivity.
Qed.

(** ** Hoare-style rules for the operations *)

Section Rules.
Context {A B : Type}.

Lemma triple_ret (a : A) (Q : A -> World -> Prop) (E : World -> Prop) :
  triple (Q a) (ret a) Q E.
Proof. intros w Hw. exact Hw. Qed.

Lemma triple_throw (P E : World -> Prop) (Q : A -> World -> Prop) :
  (forall w, P w -> E w) -> triple P throw Q E.
Proof. intros HE w Hw. by apply HE. Qed.

Lemma triple_bind (P : World -> Prop) (m : Eff World A) (R : A -> World -> Prop)
    (k : A -> Eff World B) (Q : B -> World -> Prop) (E : World -> Prop) :
  triple P m R E -> (forall a, triple (R a) (k a) Q E) -> triple P (bind m k) Q E.
Proof.
  intros Hm Hk w Hw. unfold bind. specialize (Hm w Hw).
  destruct (m w) as [[a|] w1]; [by apply Hk | done].
Qed.

Lemma triple_try_catch (P : World -> Prop) (body handler : Eff World A)
    (Q : A -> World -> Prop) (E' E : World -> Prop) :
  triple P body Q E' -> triple E' handler Q E -> triple P (try_catch body handler) Q E.
Proof.
  intros Hb Hh w Hw. unfold try_catch. specialize (Hb w Hw).
  destruct (body w) as [[a|] w1]; [done | by apply Hh].
Qed.

Lemma triple_weaken (P P' : World -> Prop) (m : Eff World A)
    (Q Q' : A -> World -> Prop) (E E' : World -> Prop) :
  triple P m Q E ->
  (forall w, P' w -> P w) -> (forall a w, Q a w -> Q' a w) -> (forall w, E w -> E' w) ->
  triple P' m Q' E'.
Proof.
  intros Hm HP HQ HE w Hw. specialize (Hm w (HP w Hw)).
  destruct (m w) as [[a|] w1]; [by apply HQ | by apply HE].
Qed.

(** A triple whose exceptional postcondition is [never] gives a result. *)
Lemma triple_returns (P : World -> Prop) (m : Eff World A)
    (Q : A -> World -> Prop) (w : World) :
  triple P m Q never -> P w -> exists a w', m w = (Returned a, w') /\ Q a w'.
Proof.
  intros Hm Hw. specialize (Hm w Hw).
  destruct (m w) as [[a|] w1]; [eauto | done].
Qed.
End Rules.

Lemma with_randoms_same (w : World) : with_randoms (randoms w) w = w.
Proof. by destruct w. Qed.

Lemma with_randoms_twice (rs rs' : list N) (w : World) :
  with_randoms rs (with_randoms rs' w) = with_randoms rs w.
Proof. reflexivity. Qed.

(** The shuffle only consumes draws. *)
Lemma shuffle_loop_run {A : Type} (i : nat) (array : list A) (w : World) :
  (i < length array)%nat \/ i = 0%nat ->
  exists out rs,
    shuffle_loop i array w = (Returned out, with_randoms rs w) /\ out ≡ₚ array.
Proof.
  revert array w. induction i as [|i IH]; intros array w Hi; cbn [shuffle_loop].
  - exists array, (randoms w). rewrite with_randoms_same. split; reflexivity.
  - destruct Hi as [Hi|Hi]; [|discriminate].
    assert (exists j rs, random_below (S i + 1) w = (Returned j, with_randoms rs w) /\
                         (j < S i + 1)%nat) as (j & rs & Hj & Hlt).
    { destruct (random_below_lt (S i + 1) w) as (j & w1 & Hj & Hlt); [lia|].
      exists j. unfold random_below in *. destruct (randoms w) as [|r rs'] eqn:Hr.
      - exists []. injection Hj as <- <-. split; [|lia].
        rewrite <- Hr, with_randoms_same. reflexivity.
      - exists rs'. injection Hj as <- <-. split; [reflexivity|done]. }
    unfold bind at 1. rewrite Hj.
    destruct (IH (swap array (S i) j) (with_randoms rs w)) as (out & rs2 & Hrun & Hperm).
    { left. rewrite swap_length. lia. }
    exists out, rs2. rewrite Hrun, with_randoms_twice. split; [reflexivity|].
    rewrite Hperm. apply swap_Permutation; lia.
Qed.

Lemma shuffleArray_run {A : Type} (array : list A) (w : World) :
  exists out rs,
    shuffleArray array w = (Returned out, with_randoms rs w) /\ out ≡ₚ array.
Proof.
  apply shuffle_loop_run. destruct array; simpl; [by right | left; lia].
Qed.

(** Rules for the primitives, for any invariant [I] of the world that the
    draws do not touch and that saving a state that is [good] keeps. *)
Section Invariant.
Variable I : World -> Prop.
Variable good : RadioState -> Prop.
Hypothesis I_randoms : forall rs w, I w -> I (with_randoms rs w).
Hypothesis I_fb : forall st w, good st -> I w -> I (with_fb_radioState (Some st) w).
Hypothesis I_ls : forall st w, good st -> I w -> I (with_ls_radioState (Some st) w).
Hypothesis good_cleared : forall st, playedTracks st = Some [] -> good st.

Lemma triple_Date_now (E : World -> Prop) :
  triple I Date_now (fun _ => I) E.
Proof. intros w Hw. exact Hw. Qed.

Lemma triple_fb_set (st : RadioState) :
  good st -> triple I (fb_set_radioState st) (fun _ => I) I.
Proof.
  intros Hst w Hw. unfold fb_set_radioState.
  destruct (fb_online w); [by apply I_fb | done].
Qed.

Lemma triple_ls_set (st : RadioState) (E : World -> Prop) :
  good st -> triple I (ls_set_radioState st) (fun _ => I) E.
Proof. intros Hst w Hw. by apply I_ls. Qed.

Lemma triple_save_both (st : RadioState) :
  good st -> triple I (save_both st) (fun _ => I) I.
Proof.
  intros Hst. eapply triple_bind; [by apply triple_fb_set|].
  intros []. by apply triple_ls_set.
Qed.

Lemma triple_shuffleArray {A : Type} (array : list A) (E : World -> Prop) :
  triple I (shuffleArray array) (fun out w => I w /\ out ≡ₚ array) E.
Proof.
  intros w Hw. destruct (shuffleArray_run array w) as (out & rs & -> & Hperm).
  split; [by apply I_randoms | done].
Qed.

Lemma triple_getRadioState (E : World -> Prop) :
  triple I getRadioState (fun s w => I w /\ s = loaded_state w) E.
Proof. intros w Hw. rewrite getRadioState_run. done. Qed.

Lemma triple_ls_get (E : World -> Prop) :
  triple I ls_get_radioState (fun s w => I w /\ s = ls_radioState w) E.
Proof. intros w Hw. done. Qed.

(** The reshuffle keeps the invariant with any way of saving that does. *)
Lemma triple_reset_if_played (save : RadioState -> Eff World unit)
    (state : option RadioState) (E : World -> Prop) :
  (forall st, good st -> triple I (save st) (fun _ => I) E) ->
  triple I (reset_if_played save state) (fun _ => I) E.
Proof.
  intros Hsave. unfold reset_if_played.
  destruct state as [st|]; [|apply (triple_ret tt (fun _ => I))].
  destruct (playlist st) as [pl|]; [|apply (triple_ret tt (fun _ => I))].
  destruct (playedTracks st) as [played|]; [|apply (triple_ret tt (fun _ => I))].
  destruct (length pl <=? length played)%nat; [|apply (triple_ret tt (fun _ => I))].
  eapply triple_bind; [apply triple_shuffleArray|]. intros out.
  eapply triple_bind.
  { eapply triple_weaken; [apply (triple_Date_now E) | | |];
      [intros w [Hw _]; exact Hw | intros a w Hw; exact Hw | done]. }
  intros now. apply Hsave. by apply good_cleared.
Qed.

Lemma triple_checkAndResetPlayedTracks :
  triple I checkAndResetPlayedTracks (fun _ => I) never.
Proof.
  unfold checkAndResetPlayedTracks.
  eapply triple_try_catch with (E' := I).
  - eapply triple_bind; [apply triple_getRadioState|]. intros state.
    eapply triple_weaken;
      [apply (triple_reset_if_played save_both state I), triple_save_both
      | intros w [Hw _]; exact Hw | done | done].
  - eapply triple_try_catch with (E' := never); [|intros w []].
    eapply triple_bind; [apply triple_ls_get|]. intros state.
    eapply triple_weaken;
      [apply (triple_reset_if_played ls_set_radioState state never);
       intros st Hst; by apply triple_ls_set
      | intros w [Hw _]; exact Hw | done | done].
Qed.
End Invariant.

(** ** The invariant on [playedTracks] *)

Lemma world_valid_randoms (rs : list N) (w : World) :
  world_valid w -> world_valid (with_randoms rs w).
Proof. intros Hw. exact Hw. Qed.

Lemma world_valid_fb (st : RadioState) (w : World) :
  played_valid st -> world_valid w -> world_valid (with_fb_radioState (Some st) w).
Proof. intros Hst [_ Hls]. split; done. Qed.

Lemma world_valid_ls (st : RadioState) (w : World) :
  played_valid st -> world_valid w -> world_valid (with_ls_radioState (Some st) w).
Proof. intros Hst [Hfb _]. split; done. Qed.

Lemma played_valid_cleared (st : RadioState) :
  playedTracks st = Some [] -> played_valid st.
Proof. intros Hp. unfold played_valid. rewrite Hp. constructor. Qed.

Lemma world_valid_loaded (w : World) :
  world_valid w -> stored_valid (loaded_state w).
Proof. intros [Hfb Hls]. unfold loaded_state. by destruct (fb_online w). Qed.

Lemma triple_ret_from {A : Type} (P : World -> Prop) (a : A)
    (Q : A -> World -> Prop) (E : World -> Prop) :
  (forall w, P w -> Q a w) -> triple P (ret a) Q E.
Proof. intros HQ w Hw. by apply HQ. Qed.

Lemma triple_pure {A : Type} (P : World -> Prop) (fact : Prop) (m : Eff World A)
    (Q : A -> World -> Prop) (E : World -> Prop) :
  (forall w, P w -> fact) -> (fact -> triple P m Q E) -> triple P m Q E.
Proof. intros Hfact Hm w Hw. by apply (Hm (Hfact w Hw)). Qed.

Lemma saves_both : saves save_both world_valid.
Proof.
  intros st Hst.
  by apply (triple_save_both world_valid played_valid world_valid_fb world_valid_ls).
Qed.

Lemma saves_ls (E : World -> Prop) : saves ls_set_radioState E.
Proof.
  intros st Hst. by apply (triple_ls_set world_valid played_valid world_valid_ls).
Qed.

Lemma triple_ensure_playedTracks (save : RadioState -> Eff World unit)
    (E : World -> Prop) (es : RadioState) :
  saves save E -> played_valid es ->
  triple world_valid (ensure_playedTracks save es)
    (fun es' w => played_valid es' /\ world_valid w) E.
Proof.
  intros Hsave Hes. unfold ensure_playedTracks.
  destruct (playedTracks es) as [played|] eqn:Hp.
  - by apply triple_ret_from.
  - eapply triple_bind; [by apply Hsave, played_valid_cleared|].
    intros []. apply triple_ret_from. intros w Hw.
    split; [by apply played_valid_cleared | done].
Qed.

Lemma triple_create_state (save : RadioState -> Eff World unit)
    (E : World -> Prop) (pl : list Track) :
  saves save E ->
  triple world_valid (create_state save pl)
    (fun st w => played_valid st /\ world_valid w) E.
Proof.
  intros Hsave. unfold create_state.
  eapply triple_bind.
  { apply (triple_shuffleArray world_valid world_valid_randoms pl E). }
  intros out. eapply triple_bind with (R := fun _ => world_valid).
  { intros w [Hw _]. exact Hw. }
  intros now. eapply triple_bind; [by apply Hsave, played_valid_cleared|].
  intros []. apply triple_ret_from. intros w Hw.
  split; [by apply played_valid_cleared | done].
Qed.

Lemma triple_initializeRadio (pl : list Track) :
  triple world_valid (initializeRadio pl)
    (fun st w => played_valid st /\ world_valid w) never.
Proof.
  unfold initializeRadio. eapply triple_try_catch with (E' := world_valid).
  - eapply triple_bind with (R := fun s w => world_valid w /\ stored_valid s).
    { intros w Hw. rewrite getRadioState_run. split; [done|].
      by apply world_valid_loaded. }
    intros [es|].
    + destruct (has_tracks es).
      * apply (triple_pure _ (played_valid es)); [by intros w [_ Hes]|]. intros Hes.
        eapply triple_weaken;
          [apply (triple_ensure_playedTracks save_both world_valid es saves_both Hes)
          | by intros w [Hw _] | done | done].
      * eapply triple_weaken;
          [apply (triple_create_state save_both world_valid pl saves_both)
          | by intros w [Hw _] | done | done].
    + eapply triple_weaken;
        [apply (triple_create_state save_both world_valid pl saves_both)
        | by intros w [Hw _] | done | done].
  - eapply triple_bind with (R := fun s w => world_valid w /\ stored_valid s).
    { intros w Hw. split; [done | by destruct Hw]. }
    intros [es|].
    + destruct (has_tracks es).
      * apply (triple_pure _ (played_valid es)); [by intros w [_ Hes]|]. intros Hes.
        eapply triple_weaken;
          [apply (triple_ensure_playedTracks ls_set_radioState never es (saves_ls never) Hes)
          | by intros w [Hw _] | done | done].
      * eapply triple_weaken;
          [apply (triple_create_state ls_set_radioState never pl (saves_ls never))
          | by intros w [Hw _] | done | done].
    + eapply triple_weaken;
        [apply (triple_create_state ls_set_radioState never pl (saves_ls never))
        | by intros w [Hw _] | done | done].
Qed.

Lemma played_valid_append (st : RadioState) (pl new : list Track) :
  playlist st = Some pl -> played_valid st ->
  played_valid (set_playlist (Some (pl ++ new)) st).
Proof.
  intros Hpl Hst. unfold played_valid in *. simpl. rewrite Hpl in Hst.
  eapply Forall_impl; [exact Hst|]. simpl. intros i Hi. rewrite length_app. lia.
Qed.

Lemma triple_append_new_items (save : RadioState -> Eff World unit)
    (st : RadioState) (items : list Track) :
  saves save world_valid -> played_valid st ->
  triple world_valid (append_new_items save st items)
    (fun st' w => played_valid st' /\ world_valid w) world_valid.
Proof.
  intros Hsave Hst. unfold append_new_items.
  destruct (length (new_items st items) =? 0)%nat; [by apply triple_ret_from|].
  destruct (playlist st) as [pl|] eqn:Hpl; [|by apply triple_throw].
  eapply triple_bind; [by apply Hsave, played_valid_append|].
  intros []. apply triple_ret_from. intros w Hw.
  split; [by apply played_valid_append | done].
Qed.

Lemma triple_updatePlaylist (items : list Track) :
  triple world_valid (updatePlaylist items)
    (fun st w => played_valid st /\ world_valid w) never.
Proof.
  unfold updatePlaylist. eapply triple_try_catch with (E' := world_valid).
  - eapply triple_bind with (R := fun s w => world_valid w /\ stored_valid s).
    { intros w Hw. rewrite getRadioState_run. split; [done|].
      by apply world_valid_loaded. }
    intros [st|].
    + apply (triple_pure _ (played_valid st)); [by intros w [_ Hst]|]. intros Hst.
      eapply triple_weaken;
        [apply (triple_append_new_items save_both st items saves_both Hst)
        | by intros w [Hw _] | done | done].
    + eapply triple_weaken;
        [apply triple_initializeRadio | by intros w [Hw _] | done | intros w []].
  - eapply triple_try_catch with (E' := world_valid); [|apply triple_initializeRadio].
    eapply triple_bind with (R := fun s w => world_valid w /\ stored_valid s).
    { intros w Hw. split; [done | by destruct Hw]. }
    intros [st|].
    + apply (triple_pure _ (played_valid st)); [by intros w [_ Hst]|]. intros Hst.
      eapply triple_weaken;
        [apply (triple_append_new_items ls_set_radioState st items
                  (saves_ls world_valid) Hst)
        | by intros w [Hw _] | done | done].
    + eapply triple_weaken;
        [apply triple_initializeRadio | by intros w [Hw _] | done | intros w []].
Qed.

Lemma intervalLog_run (w : World) :
  exists logged w1,
    intervalLog w = (Returned logged, w1) /\
    fb_radioState w1 = fb_radioState w /\ ls_radioState w1 = ls_radioState w.
Proof.
  unfold intervalLog, bind, Date_now.
  destruct (LOG_INTERVAL <=? clock w - lastLogTimestamp w); eauto.
Qed.

Lemma log_tracking_frame (logged : bool) (i : nat) (st : RadioState) :
  playlist (log_tracking logged i st) = playlist st /\
  playedTracks (log_tracking logged i st) = playedTracks st.
Proof.
  unfold log_tracking. destruct logged; [done|].
  destruct (_ && _)%bool; [done|]. by destruct (negb _).
Qed.

(** Marking an index of the playlist as played keeps the invariant, and the
    index is among the played tracks afterwards. *)
Lemma mark_played_valid (i : nat) (st : RadioState) (pl : list Track) (w : World) :
  playlist st = Some pl -> (i < length pl)%nat ->
  played_valid st -> world_valid w ->
  exists st' w',
    mark_played i st w = (Returned st', w') /\
    played_valid st' /\ world_valid w' /\
    playlist st' = playlist st /\ i ∈ default [] (playedTracks st').
Proof.
  intros Hpl Hi Hst Hw. unfold mark_played, played_valid in *.
  rewrite Hpl in Hst. simpl in Hst.
  destruct (playedTracks st) as [played|] eqn:Hp; simpl in Hst.
  - case_bool_decide as Hin.
    + exists st, w. unfold played_valid. rewrite Hpl, Hp. done.
    + eexists _, _. split; [reflexivity|].
      assert (played_valid (set_playedTracks (Some (played ++ [i])) st)) as Hst'.
      { unfold played_valid. simpl. rewrite Hpl. simpl.
        apply Forall_app. split; [done|]. by constructor. }
      split; [done|]. split; [by apply world_valid_ls|]. split; [done|].
      simpl. apply elem_of_app. right. by apply list_elem_of_singleton.
  - eexists _, _. split; [reflexivity|].
    assert (played_valid (set_playedTracks (Some [i]) st)) as Hst'.
    { unfold played_valid. simpl. rewrite Hpl. simpl. by constructor. }
    split; [done|]. split; [by apply world_valid_ls|]. split; [done|].
    simpl. by apply list_elem_of_singleton.
Qed.

Lemma getCurrentTrack_valid (st : RadioState) (serverStartTime : Z) (w : World) :
  played_valid st -> world_valid w ->
  exists r st' w',
    getCurrentTrack (Some st) serverStartTime w = (Returned (r, Some st'), w') /\
    played_valid st' /\ world_valid w' /\ playlist st' = playlist st /\
    (forall info, r = Some info -> index info ∈ default [] (playedTracks st')).
Proof.
  intros Hst Hw. unfold getCurrentTrack.
  destruct (playlist st) as [[|t pl]|] eqn:Hpl;
    [exists None, st, w; by rewrite Hpl | | exists None, st, w; by rewrite Hpl].
  unfold bind at 1. unfold Date_now at 1.
  pose proof (resolve_position_index (t :: pl) (clock w - serverStartTime)) as Hidx.
  destruct (resolve_position (t :: pl) (clock w - serverStartTime)) as [[i pos] ep].
  simpl in Hidx. unfold bind at 1.
  destruct (intervalLog_run w) as (logged & w1 & -> & Hfb & Hls).
  destruct (log_tracking_frame logged i st) as [Hlpl Hlp].
  destruct (mark_played_valid i (log_tracking logged i st) (t :: pl) w1)
    as (st' & w' & Hrun & Hst' & Hw' & Hpl' & Hin).
  - by rewrite Hlpl.
  - apply Hidx. discriminate.
  - unfold played_valid. by rewrite Hlpl, Hlp.
  - destruct Hw. split; by rewrite ?Hfb, ?Hls.
  - unfold bind at 1. rewrite Hrun. eexists _, st', w'. split; [reflexivity|].
    split; [done|]. split; [done|]. split; [by rewrite Hpl', Hlpl|].
    intros info [= <-]. exact Hin.
Qed.

Lemma cleared_since_refl (w : World) : cleared_since w w.
Proof. split; by left. Qed.

(** C6.  The operations that change the shared state keep every element of
    [playedTracks] a valid index into the playlist, in the state object and
    in both stored copies: [getCurrentTrack], which marks the current index
    as played; [checkAndResetPlayedTracks], after which a copy of the state
    is either untouched or has an empty [playedTracks] (so a reshuffled
    copy has it cleared); and [updatePlaylist].  All three return. *)
Theorem playedTracks_invariant :
  (forall st serverStartTime w,
     played_valid st -> world_valid w ->
     exists r st' w',
       getCurrentTrack (Some st) serverStartTime w = (Returned (r, Some st'), w') /\
       played_valid st' /\ world_valid w' /\
       (forall info, r = Some info -> index info ∈ default [] (playedTracks st'))) /\
  (forall w,
     world_valid w ->
     exists w',
       checkAndResetPlayedTracks w = (Returned tt, w') /\
       world_valid w' /\ cleared_since w w') /\
  (forall newPlaylistItems w,
     world_valid w ->
     exists st' w',
       updatePlaylist newPlaylistItems w = (Returned st', w') /\
       played_valid st' /\ world_valid w').
Proof.
  split; [|split].
  - intros st sst w Hst Hw.
    destruct (getCurrentTrack_valid st sst w Hst Hw)
      as (r & st' & w' & Hrun & Hst' & Hw' & _ & Hin).
    by exists r, st', w'.
  - intros w Hw.
    destruct (triple_returns
                (fun w1 => world_valid w1 /\ cleared_since w w1)
                checkAndResetPlayedTracks
                (fun _ w1 => world_valid w1 /\ cleared_since w w1) w)
      as ([] & w' & Hrun & Hw' & Hc).
    + apply (triple_checkAndResetPlayedTracks _
               (fun st => played_valid st /\ playedTracks st = Some [])).
      * intros rs w1 Hw1. exact Hw1.
      * intros st w1 [Hst Hp] [Hw1 [_ Hls]].
        split; [by apply world_valid_fb|]. split; [right; by exists st | exact Hls].
      * intros st w1 [Hst Hp] [Hw1 [Hfb _]].
        split; [by apply world_valid_ls|]. split; [exact Hfb | right; by exists st].
      * intros st Hp. split; [by apply played_valid_cleared | done].
    + split; [done | apply cleared_since_refl].
    + by exists w'.
  - intros items w Hw.
    destruct (triple_returns world_valid (updatePlaylist items)
                (fun st w1 => played_valid st /\ world_valid w1) w
                (triple_updatePlaylist items) Hw)
      as (st' & w' & Hrun & Hst' & Hw').
    by exists st', w'.
Qed.

Lemma playedTracks_invariant_witness :
  (exists r st' w',
     getCurrentTrack (Some played_out) 1000 (world_at 62000 (Some played_out)) =
       (Returned (r, Some st'), w') /\
     played_valid st' /\ world_valid w' /\
     (forall info, r = Some info -> index info ∈ default [] (playedTracks st'))) /\
  (exists w',
     checkAndResetPlayedTracks (world_at 62000 (Some played_out)) = (Returned tt, w') /\
     world_valid w' /\ cleared_since (world_at 62000 (Some played_out)) w') /\
  (exists st' w',
     updatePlaylist [garbled_track] (world_at 62000 (Some played_out)) =
       (Returned st', w') /\
     played_valid st' /\ world_valid w').
Proof.
  assert (played_valid played_out) as Hst.
  { unfold played_valid. simpl. repeat (constructor; [lia|]). constructor. }
  assert (world_valid (world_at 62000 (Some played_out))) as Hw.
  { split; exact Hst. }
  destruct playedTracks_invariant as (Hget & Hreset & Hupdate).
  split; [|split].
  - exact (Hget played_out 1000 _ Hst Hw).
  - exact (Hreset _ Hw).
  - exact (Hupdate [garbled_track] _ Hw).
Defined.

End RadioProofs.

(** * Properties of the presence tracker *)

Module PresenceProofs.
Import Presence.

Local Open Scope Z_scope.

Lemma filter_length_Permutation {A : Type} (f : A -> bool) (l1 l2 : list A) :
  l1 ≡ₚ l2 -> length (List.filter f l1) = length (List.filter f l2).
Proof.
  induction 1 as [|x l1 l2 _ IH|x y l|l1 l2 l3 _ IH1 _ IH2]; simpl.
  - reflexivity.
  - destruct (f x); simpl; congruence.
  - destruct (f x), (f y); reflexivity.
  - congruence.
Qed.

Lemma count_active_empty : count_active ∅ = 0%nat.
Proof. unfold count_active. by rewrite map_to_list_empty. Qed.

(** A session that is written counts for one if it is active, next to the
    other sessions. *)
Lemma count_active_insert (id : string) (l : Listener) (m : gmap string Listener) :
  count_active (<[id := l]> m) =
    ((if active l then 1 else 0) + count_active (delete id m))%nat.
Proof.
  unfold count_active. rewrite <- insert_delete_eq.
  rewrite (filter_length_Permutation _ _ ((id, l) :: map_to_list (delete id m))).
  - simpl. by destruct (active l).
  - apply map_to_list_insert, lookup_delete_eq.
Qed.

Lemma active_sweep (now : Z) (l : Listener) :
  active (sweep now l) = (active l && negb (expired now l))%bool.
Proof.
  unfold sweep. destruct (expired now l) eqn:He; simpl.
  - by rewrite andb_false_r.
  - by rewrite andb_true_r.
Qed.

Lemma count_active_sweep (now : Z) (m : gmap string Listener) :
  count_active (sweep now <$> m) =
    length (List.filter (survives now) (map_to_list m)).
Proof.
  unfold count_active. rewrite map_to_list_fmap.
  induction (map_to_list m) as [|[id l] es IH]; [reflexivity|].
  rewrite fmap_cons. cbn [List.filter prod_map fst snd].
  unfold survives at 1. cbn [snd]. rewrite active_sweep.
  destruct (active l && negb (expired now l))%bool; cbn [length]; by rewrite IH.
Qed.

(** ** The loop of the garbage collection *)

Lemma cleanup_loop_run (entries : list (string * Listener)) (now : Z) (count : nat)
    (w : World) :
  fb_online w = true ->
  cleanup_loop entries now count w =
    (Returned (count + length (List.filter (survives now) entries))%nat,
     with_listeners (foldl (sweep_step now) (listeners w) entries) w).
Proof.
  revert count w. induction entries as [|[id l] es IH]; intros count w Hon.
  - simpl. unfold ret. rewrite Nat.add_0_r. by destruct w.
  - cbn [cleanup_loop foldl List.filter]. unfold survives at 1, sweep_step at 2, expired.
    simpl. destruct (active l) eqn:Hact; simpl.
    + destruct (truthy_timestamp l) as [t|] eqn:Ht.
      * destruct (now - t >? INACTIVE_THRESHOLD) eqn:Hold; simpl.
        -- unfold bind at 1, fb_set_inactive, fb_call. rewrite Hon.
           rewrite IH by done. reflexivity.
        -- rewrite IH by done. simpl. f_equal. f_equal. lia.
      * rewrite IH by done. simpl. f_equal. f_equal. lia.
    + by rewrite IH.
Qed.

Lemma foldl_sweep_step_lookup (now : Z) (entries : list (string * Listener))
    (m0 : gmap string Listener) (id : string) :
  NoDup entries.*1 ->
  foldl (sweep_step now) m0 entries !! id =
    match (list_to_map entries : gmap string Listener) !! id with
    | Some l => if expired now l then deactivate (m0 !! id) else m0 !! id
    | None => m0 !! id
    end.
Proof.
  revert m0. induction entries as [|[k l] es IH]; intros m0 Hnd.
  - simpl. by rewrite lookup_empty.
  - apply NoDup_cons in Hnd as [Hk Hnd]. cbn [foldl]. rewrite IH by done.
    rewrite list_to_map_cons. unfold sweep_step. simpl.
    destruct (decide (k = id)) as [->|Hne].
    + rewrite lookup_insert_eq.
      rewrite (not_elem_of_list_to_map_1 es id Hk).
      destruct (expired now l); [|done]. by rewrite lookup_partial_alter_eq.
    + rewrite lookup_insert_ne by done.
      destruct (expired now l); [|done].
      by rewrite lookup_partial_alter_ne.
Qed.

(** The loop, run over all the entries of a session map, sweeps the map. *)
Lemma foldl_sweep_step_map (now : Z) (m : gmap string Listener) :
  foldl (sweep_step now) m (map_to_list m) = sweep now <$> m.
Proof.
  apply map_eq. intros id.
  rewrite foldl_sweep_step_lookup by apply NoDup_fst_map_to_list.
  rewrite list_to_map_to_list, lookup_fmap. unfold sweep.
  destruct (m !! id) as [l|]; [|done]. simpl. by destruct (expired now l).
Qed.

(** Garbage collection on a reachable database that holds sessions. *)
Lemma cleanupInactiveListeners_run (w : World) :
  fb_online w = true -> listeners w <> ∅ ->
  cleanupInactiveListeners w =
    (Returned true,
     with_stats
       (Some match stats w with
             | Some s =>
                 {| currentListeners :=
                      Z.of_nat (count_active (sweep (clock w) <$> listeners w));
                    totalListeners := totalListeners s;
                    lastUpdated := lastUpdated s |}
             | None =>
                 {| currentListeners :=
                      Z.of_nat (count_active (sweep (clock w) <$> listeners w));
                    totalListeners := None;
                    lastUpdated := None |}
             end)
       (with_listeners (sweep (clock w) <$> listeners w) w)).
Proof.
  intros Hon Hne. unfold cleanupInactiveListeners, try_catch, bind at 1.
  unfold fb_get_listeners, fb_call at 1. rewrite Hon.
  destruct (decide (listeners w = ∅)) as [|_]; [done|].
  unfold bind at 1, Date_now at 1. unfold bind at 1.
  rewrite cleanup_loop_run by done. rewrite foldl_sweep_step_map.
  unfold bind, fb_set_currentListeners, fb_call, ret. simpl. rewrite Hon.
  rewrite count_active_sweep. reflexivity.
Qed.

(** Without a session the function returns at once and writes nothing. *)
Lemma cleanupInactiveListeners_no_session (w : World) :
  fb_online w = true -> listeners w = ∅ ->
  cleanupInactiveListeners w = (Returned true, w).
Proof.
  intros Hon He. unfold cleanupInactiveListeners, try_catch, bind at 1.
  unfold fb_get_listeners, fb_call at 1. rewrite Hon.
  by destruct (decide (listeners w = ∅)).
Qed.

Lemma expired_old (now t : Z) (l : Listener) :
  active l = true -> timestamp l = Some t -> t <> 0 ->
  now - t > INACTIVE_THRESHOLD -> expired now l = true.
Proof.
  intros Ha Ht Hz Hold. unfold expired, truthy_timestamp. rewrite Ha, Ht. simpl.
  destruct (Z.eqb_spec t 0); [done|]. rewrite Z.gtb_ltb. apply Z.ltb_lt. lia.
Qed.

Lemma expired_fresh (now t : Z) (l : Listener) :
  timestamp l = Some t -> now - t <= INACTIVE_THRESHOLD -> expired now l = false.
Proof.
  intros Ht Hfresh. unfold expired, truthy_timestamp. rewrite Ht.
  destruct (t =? 0); [by rewrite andb_false_r|].
  rewrite Z.gtb_ltb. destruct (Z.ltb_spec INACTIVE_THRESHOLD (now - t)); [lia|].
  by rewrite andb_false_r.
Qed.

(** C8, as the code has it.  On a reachable database and a session map
    that is not empty, [cleanupInactiveListeners] marks inactive every
    active session whose timestamp is set and more than five minutes old,
    leaves the other sessions as they are, and writes to
    [stats/currentListeners] the number of sessions that are still active;
    with a session A, active with a fresh heartbeat, and a session B,
    active with a stale one, that number is 1. *)
Theorem cleanupInactiveListeners_sweeps (w : World) :
  fb_online w = true -> listeners w <> ∅ ->
  exists w' s',
    cleanupInactiveListeners w = (Returned true, w') /\
    listeners w' = sweep (clock w) <$> listeners w /\
    (forall id l t,
       listeners w !! id = Some l -> active l = true ->
       timestamp l = Some t -> t <> 0 -> clock w - t > INACTIVE_THRESHOLD ->
       listeners w' !! id = Some {| timestamp := Some t; active := false |}) /\
    (forall id l,
       listeners w !! id = Some l -> expired (clock w) l = false ->
       listeners w' !! id = Some l) /\
    stats w' = Some s' /\
    currentListeners s' = Z.of_nat (count_active (listeners w')) /\
    (forall A B ta tb,
       A <> B ->
       listeners w = {[ A := {| timestamp := Some ta; active := true |};
                        B := {| timestamp := Some tb; active := true |} ]} ->
       clock w - ta <= INACTIVE_THRESHOLD ->
       tb <> 0 -> clock w - tb > INACTIVE_THRESHOLD ->
       currentListeners s' = 1).
Proof.
  intros Hon Hne. eexists _, _.
  split; [by apply cleanupInactiveListeners_run|]. cbn [listeners with_stats with_listeners].
  split; [reflexivity|]. split; [|split; [|split; [|split]]].
  - intros id l t Hl Ha Ht Hz Hold. rewrite lookup_fmap, Hl. simpl.
    unfold sweep. rewrite (expired_old (clock w) t l) by done. by rewrite Ht.
  - intros id l Hl He. rewrite lookup_fmap, Hl. simpl. unfold sweep. by rewrite He.
  - cbn [stats]. reflexivity.
  - by destruct (stats w).
  - intros A B ta tb HAB Hm Hfresh Hz Hold.
    assert (count_active (sweep (clock w) <$> listeners w) = 1%nat) as Hcount.
    { rewrite Hm, fmap_insert, map_fmap_singleton, count_active_insert.
      rewrite delete_singleton_ne by done.
      rewrite <- insert_empty, count_active_insert, delete_empty, count_active_empty.
      rewrite !active_sweep.
      rewrite (expired_fresh (clock w) ta) by done.
      rewrite (expired_old (clock w) tb) by done.
      reflexivity. }
    destruct (stats w); simpl; by rewrite Hcount.
Qed.

Lemma cleanupInactiveListeners_sweeps_witness :
  exists w' s',
    cleanupInactiveListeners
      (presence_world 1700000300000 two_sessions (Some stale_stats)) = (Returned true, w') /\
    listeners w' !! "A"%string = Some {| timestamp := Some 1700000290000; active := true |} /\
    listeners w' !! "B"%string = Some {| timestamp := Some 1699999000000; active := false |} /\
    stats w' = Some s' /\ currentListeners s' = 1.
Proof.
  destruct (cleanupInactiveListeners_sweeps
              (presence_world 1700000300000 two_sessions (Some stale_stats)))
    as (w' & s' & Hrun & _ & Hold & Hkept & Hs & _ & Hone).
  - reflexivity.
  - intros He. apply (f_equal (fun m => m !! "A"%string)) in He.
    vm_compute in He. discriminate.
  - exists w', s'. split; [exact Hrun|].
    split; [apply Hkept; reflexivity|].
    split.
    { apply (Hold "B"%string {| timestamp := Some 1699999000000; active := true |}
               1699999000000); try reflexivity; discriminate. }
    split; [exact Hs|].
    apply (Hone "A"%string "B"%string 1700000290000 1699999000000);
      try reflexivity; discriminate.
Defined.

(** C8, as the claim states it, fails on the session map without sessions:
    the function returns before it writes, and [stats/currentListeners]
    keeps the count 2 it had while no session is active. *)
Lemma cleanupInactiveListeners_no_session_count :
  ~ (exists w' s',
       cleanupInactiveListeners
         (presence_world 1700000300000 ∅ (Some stale_stats)) = (Returned true, w') /\
       stats w' = Some s' /\
       currentListeners s' = Z.of_nat (count_active (listeners w'))).
Proof.
  intros (w' & s' & Hrun & Hs & Hc).
  rewrite cleanupInactiveListeners_no_session in Hrun by reflexivity.
  injection Hrun as <-. injection Hs as <-.
  cbn [listeners presence_world] in Hc. rewrite count_active_empty in Hc.
  discriminate.
Qed.

(** When the database is unreachable both operations catch the error and
    return [false]; nothing is written. *)
Lemma registerListener_offline (w : World) :
  fb_online w = false -> registerListener w = (Returned false, w).
Proof.
  intros Hoff. unfold registerListener, try_catch, bind at 1.
  unfold fb_get_stats, fb_call. by rewrite Hoff.
Qed.

Lemma cleanupInactiveListeners_offline (w : World) :
  fb_online w = false -> cleanupInactiveListeners w = (Returned false, w).
Proof.
  intros Hoff. unfold cleanupInactiveListeners, try_catch, bind at 1.
  unfold fb_get_listeners, fb_call. by rewrite Hoff.
Qed.

(** Where the total can be read: on a reachable database whose total so
    far is [t] (0 when the node [stats] does not exist)
    [registerListener] writes the session
    record of this session with the server timestamp and [active] set,
    writes the total [t + 1], and writes as current count the number of
    active sessions of the session map read back after that write: one for
    the new session plus the other active sessions, whatever count was
    stored before. *)
Theorem registerListener_counts (w : World) (t : Z) :
  fb_online w = true -> total_before w = Some t ->
  exists w' s',
    registerListener w = (Returned true, w') /\
    listeners w' =
      <[sessionId w := {| timestamp := Some (server_clock w); active := true |}]>
        (listeners w) /\
    listeners w' !! sessionId w =
      Some {| timestamp := Some (server_clock w); active := true |} /\
    stats w' = Some s' /\
    totalListeners s' = Some (t + 1) /\
    currentListeners s' = Z.of_nat (count_active (listeners w')) /\
    count_active (listeners w') =
      S (count_active (delete (sessionId w) (listeners w))).
Proof.
  intros Hon Ht. unfold total_before in Ht.
  eexists _, _. split.
  { unfold registerListener, try_catch, bind at 1.
    unfold fb_get_stats, fb_call at 1. rewrite Hon.
    unfold bind at 1. unfold bind at 1. unfold fb_set_listener, fb_call at 1. rewrite Hon.
    unfold bind at 1. unfold fb_get_listeners, fb_call at 1.
    cbn [fb_online with_listeners]. rewrite Hon.
    rewrite Ht. cbn [fmap option_fmap option_map fb_set_stats].
    unfold bind at 1. unfold fb_call at 1. cbn [fb_online with_listeners]. rewrite Hon.
    unfold bind, ret. reflexivity. }
  cbn [listeners stats with_listeners with_stats with_beforeunload
       totalListeners currentListeners sessionId server_clock].
  split; [reflexivity|]. split; [by rewrite lookup_insert_eq|].
  split; [reflexivity|]. split; [f_equal; lia|]. split; [reflexivity|].
  by rewrite count_active_insert.
Qed.

Lemma registerListener_counts_witness :
  exists w' s',
    registerListener (presence_world 1700000300000 two_sessions (Some stale_stats)) =
      (Returned true, w') /\
    stats w' = Some s' /\ totalListeners s' = Some 8 /\ currentListeners s' = 3.
Proof.
  destruct (registerListener_counts
              (presence_world 1700000300000 two_sessions (Some stale_stats)) 7
              eq_refl eq_refl)
    as (w' & s' & Hrun & Hm & _ & Hs & Htotal & Hcurrent & _).
  exists w', s'. split; [exact Hrun|]. split; [exact Hs|]. split; [exact Htotal|].
  rewrite Hcurrent, Hm. vm_compute. reflexivity.
Defined.

(** On a node [stats] without [totalListeners] the sum
    [stats.totalListeners + 1] is [NaN]: the session record is written, the
    write of the statistics is refused, and the handler returns [false]. *)
Lemma registerListener_no_total (w : World) :
  fb_online w = true -> total_before w = None ->
  registerListener w =
    (Returned false,
     with_listeners
       (<[sessionId w := {| timestamp := Some (server_clock w); active := true |}]>
          (listeners w)) w).
Proof.
  intros Hon Ht. unfold total_before in Ht.
  unfold registerListener, try_catch, bind at 1.
  unfold fb_get_stats, fb_call at 1. rewrite Hon.
  unfold bind at 1. unfold bind at 1. unfold fb_set_listener, fb_call at 1. rewrite Hon.
  unfold bind at 1. unfold fb_get_listeners, fb_call at 1.
  cbn [fb_online with_listeners]. rewrite Hon.
  rewrite Ht. cbn [fmap option_fmap option_map fb_set_stats].
  unfold bind at 1. unfold throw, ret. reflexivity.
Qed.

(** C9.  On a reachable database whose node [stats] exists without
    [totalListeners] (a write to [stats/currentListeners] alone, as
    [unregisterListener] and [cleanupInactiveListeners] make, creates such
    a node) [registerListener] returns [false]: it has written the session
    record of this session, with the server timestamp and [active] set, but
    the node [stats] is as it was.  The total is not incremented, and the
    count is not published although the session map now holds one active
    session more; the unload handler is not attached. *)
Theorem registerListener_missing_total (w : World) (s : Stats) :
  fb_online w = true -> stats w = Some s -> totalListeners s = None ->
  exists w',
    registerListener w = (Returned false, w') /\
    listeners w' !! sessionId w =
      Some {| timestamp := Some (server_clock w); active := true |} /\
    count_active (listeners w') =
      S (count_active (delete (sessionId w) (listeners w))) /\
    stats w' = Some s /\
    beforeunload w' = beforeunload w.
Proof.
  intros Hon Hs Ht.
  rewrite registerListener_no_total by (done || unfold total_before; by rewrite Hs).
  eexists. split; [reflexivity|].
  cbn [listeners stats beforeunload with_listeners].
  split; [by rewrite lookup_insert_eq|]. split; [by rewrite count_active_insert|].
  done.
Qed.

Lemma registerListener_missing_total_witness :
  unregisterListener (presence_world 1700000300000 ∅ None) = (Returned true, count_only) /\
  exists w',
    registerListener count_only = (Returned false, w') /\
    count_active (listeners w') = 1%nat /\
    stats w' =
      Some {| currentListeners := 0; totalListeners := None; lastUpdated := None |}.
Proof.
  split; [vm_compute; reflexivity|].
  destruct (registerListener_missing_total count_only
              {| currentListeners := 0; totalListeners := None; lastUpdated := None |}
              eq_refl eq_refl eq_refl)
    as (w' & Hrun & _ & Hcount & Hstats & _).
  exists w'. split; [exact Hrun|]. split; [|exact Hstats].
  rewrite Hcount. vm_compute. reflexivity.
Defined.

End PresenceProofs.

(** * Further properties of the radio service *)

Module RadioExtras.
Import Radio RadioProofs.

Local Open Scope Z_scope.

(** ** The resolver as a decomposition of the elapsed time *)

Lemma select_loop_prefix (ds : list Z) (i : nat) (acc e : Z) :
  Forall duration_like ds ->
  acc <= e < acc + Zsum ds ->
  exists (k : nat) (d : Z),
    select_loop ds i acc e = ((i + k)%nat, acc + Zsum (take k ds)) /\
    ds !! k = Some d /\
    acc + Zsum (take k ds) <= e < acc + Zsum (take k ds) + d.
Proof.
  intros Hds. revert i acc.
  induction Hds as [|d ds Hd Hds IH]; intros i acc He; simpl in *; [lia|].
  rewrite Z.gtb_ltb. destruct (Z.ltb_spec e (acc + d)) as [Hlt|Hge].
  - exists 0%nat, d. rewrite Nat.add_0_r. simpl. rewrite Z.add_0_r.
    split; [done|]. split; [done|lia].
  - destruct (IH (S i) (acc + d)) as (k & d' & Heq & Hk & Hb); [lia|].
    exists (S k), d'. rewrite Heq. simpl.
    split; [f_equal; lia|]. split; [done|lia].
Qed.

(** The triple that [resolve_position] computes, on a non-empty playlist
    and a non-negative elapsed time, splits the elapsed time. *)
Lemma resolve_position_decomposition (pl : list Track) (elapsed : Z) :
  pl <> [] -> 0 <= elapsed ->
  exists r : Z,
    0 <= r < 1000 /\
    elapsed =
      (resolve_position pl elapsed).2 * (effective_durations pl).1 +
      Zsum (take (resolve_position pl elapsed).1.1 (effective_durations pl).2) +
      (resolve_position pl elapsed).1.2 * 1000 + r.
Proof.
  intros Hne Hel. unfold resolve_position.
  pose proof (effective_durations_spec pl) as Hspec.
  destruct (effective_durations pl) as [total ds].
  destruct Hspec as (Hlen & Htot & Hds & Hpos). specialize (Hpos Hne).
  pose proof (Z.rem_bound_pos elapsed total Hel Hpos) as Hrem.
  destruct (select_loop_prefix ds 0 0 (Z.rem elapsed total) Hds) as
    (k & d & Heq & Hk & Hb); [lia|].
  rewrite Heq. cbn [fst snd]. change (0 + k)%nat with k.
  assert (k < length pl)%nat as Hklt.
  { rewrite <- Hlen. by eapply lookup_lt_Some. }
  destruct (Nat.leb_spec (length pl) k); [lia|].
  rewrite Z.add_0_l in *.
  exists ((Z.rem elapsed total - Zsum (take k ds)) mod 1000).
  split; [apply Z.mod_pos_bound; lia|].
  rewrite Z.rem_mod_nonneg in * by lia.
  pose proof (Z.div_mod elapsed total ltac:(lia)) as Hdm.
  pose proof (Z.div_mod (elapsed mod total - Zsum (take k ds)) 1000 ltac:(lia)) as Hdm2.
  lia.
Qed.





(** X1.  On a non-empty playlist and at or after the origin, the result of
    [getCurrentTrack] accounts for the whole elapsed time: the elapsed
    milliseconds are [epoch] full passes, plus the durations of the tracks
    before [index], plus [position] seconds, plus less than a second. *)
Theorem getCurrentTrack_decomposition (st : RadioState) (pl : list Track)
    (serverStartTime : Z) (w : World) :
  playlist st = Some pl -> pl <> [] -> serverStartTime <= clock w ->
  exists info st' w' r,
    getCurrentTrack (Some st) serverStartTime w = (Returned (Some info, Some st'), w') /\
    0 <= r < 1000 /\
    clock w - serverStartTime =
      epoch info * (effective_durations pl).1 +
      Zsum (take (index info) (effective_durations pl).2) +
      position info * 1000 + r.
Proof.
  intros Hpl Hne Hnow.
  destruct (getCurrentTrack_returns st pl serverStartTime w Hpl Hne) as (st' & w' & Hrun).
  destruct (resolve_position_decomposition pl (clock w - serverStartTime) Hne)
    as (r & Hr & Hdec); [lia|].
  eexists _, st', w', r. split; [exact Hrun|]. split; [exact Hr|]. exact Hdec.
Qed.

Lemma getCurrentTrack_decomposition_witness :
  exists info st' w' r,
    getCurrentTrack (Some played_out) 1000 (world_at 289500 None) =
      (Returned (Some info, Some st'), w') /\
    0 <= r < 1000 /\
    289500 - 1000 =
      epoch info * 270000 +
      Zsum (take (index info) [60000; 30000; 180000]) + position info * 1000 + r.
Proof.
  apply (getCurrentTrack_decomposition played_out
           [item "a1" (Some (DurString "PT1M")); item "b2" (Some (DurString "PT30S"));
            item "c3" None] 1000 (world_at 289500 None));
    [reflexivity | discriminate | vm_compute; discriminate].
Defined.

Lemma resolve_position_period (pl : list Track) (elapsed : Z) :
  pl <> [] -> 0 <= elapsed ->
  resolve_position pl (elapsed + (effective_durations pl).1) =
    ((resolve_position pl elapsed).1, (resolve_position pl elapsed).2 + 1).
Proof.
  intros Hne Hel. unfold resolve_position.
  pose proof (effective_durations_spec pl) as Hspec.
  destruct (effective_durations pl) as [total ds]. cbn [fst].
  destruct Hspec as (_ & _ & _ & Hpos). specialize (Hpos Hne).
  rewrite !Z.rem_mod_nonneg by lia.
  replace (elapsed + total) with (elapsed + 1 * total) by lia.
  rewrite Z_mod_plus_full, Z.div_add by lia.
  by destruct (select_loop ds 0 0 (elapsed mod total)).
Qed.

(** X2.  One full playlist duration later the same track plays at the same
    position, and the epoch is one higher. *)
Theorem getCurrentTrack_period (st : RadioState) (pl : list Track)
    (serverStartTime : Z) (w1 w2 : World) :
  playlist st = Some pl -> pl <> [] -> serverStartTime <= clock w1 ->
  clock w2 = clock w1 + (effective_durations pl).1 ->
  exists info1 info2 st1 st2 w1' w2',
    getCurrentTrack (Some st) serverStartTime w1 = (Returned (Some info1, Some st1), w1') /\
    getCurrentTrack (Some st) serverStartTime w2 = (Returned (Some info2, Some st2), w2') /\
    index info2 = index info1 /\ track info2 = track info1 /\
    position info2 = position info1 /\ epoch info2 = epoch info1 + 1.
Proof.
  intros Hpl Hne Hnow Hlater.
  destruct (getCurrentTrack_returns st pl serverStartTime w1 Hpl Hne) as (st1 & w1' & Hrun1).
  destruct (getCurrentTrack_returns st pl serverStartTime w2 Hpl Hne) as (st2 & w2' & Hrun2).
  eexists _, _, st1, st2, w1', w2'. split; [exact Hrun1|]. split; [exact Hrun2|].
  cbn [index track position epoch]. rewrite Hlater.
  replace (clock w1 + (effective_durations pl).1 - serverStartTime)
    with (clock w1 - serverStartTime + (effective_durations pl).1) by lia.
  rewrite resolve_position_period by (done || lia). done.
Qed.

Lemma getCurrentTrack_period_witness :
  exists info1 info2 st1 st2 w1' w2',
    getCurrentTrack (Some played_out) 1000 (world_at 75000 None) =
      (Returned (Some info1, Some st1), w1') /\
    getCurrentTrack (Some played_out) 1000 (world_at 345000 None) =
      (Returned (Some info2, Some st2), w2') /\
    index info2 = index info1 /\ track info2 = track info1 /\
    position info2 = position info1 /\ epoch info2 = epoch info1 + 1.
Proof.
  apply (getCurrentTrack_period played_out
           [item "a1" (Some (DurString "PT1M")); item "b2" (Some (DurString "PT30S"));
            item "c3" None] 1000 (world_at 75000 None) (world_at 345000 None));
    [reflexivity | discriminate | vm_compute; discriminate | reflexivity].
Defined.

(** X3.  When the clock is behind the origin by less than one playlist
    duration, [getCurrentTrack] still answers: the first track, a negative
    position (the floor of the negative elapsed seconds) and epoch -1. *)
Theorem getCurrentTrack_before_origin (st : RadioState) (pl : list Track)
    (serverStartTime : Z) (w : World) :
  playlist st = Some pl -> pl <> [] ->
  - (effective_durations pl).1 < clock w - serverStartTime < 0 ->
  exists info st' w',
    getCurrentTrack (Some st) serverStartTime w = (Returned (Some info, Some st'), w') /\
    index info = 0%nat /\ track info = pl !! 0%nat /\
    position info = (clock w - serverStartTime) / 1000 /\
    position info < 0 /\ epoch info = -1.
Proof.
  intros Hpl Hne Hbehind.
  destruct (getCurrentTrack_returns st pl serverStartTime w Hpl Hne) as (st' & w' & Hrun).
  eexists _, st', w'. split; [exact Hrun|]. cbn [index track position epoch].
  set (e := clock w - serverStartTime) in *.
  unfold resolve_position.
  pose proof (effective_durations_spec pl) as Hspec.
  destruct (effective_durations pl) as [total ds]. cbn [fst] in Hbehind.
  destruct Hspec as (Hlen & _ & Hds & Hpos). specialize (Hpos Hne).
  assert (Z.rem e total = e) as Hrem by (apply Z.rem_small_iff; lia).
  assert (e / total = -1) as Hdiv.
  { symmetry. apply (Z.div_unique e total (-1) (e + total)); lia. }
  rewrite Hrem, Hdiv.
  destruct ds as [|d ds]; [destruct pl; [done | discriminate]|].
  apply Forall_cons in Hds as [(q & Hq & ->) _]. simpl select_loop.
  rewrite Z.gtb_ltb. destruct (Z.ltb_spec e (0 + q * 1000)); [|lia].
  cbn [fst snd]. destruct (Nat.leb_spec (length pl) 0); [destruct pl; [done|simpl in *; lia]|].
  rewrite Z.sub_0_r. split; [done|]. split; [done|]. split; [done|].
  split; [apply Z.div_lt_upper_bound; lia | done].
Qed.

Lemma getCurrentTrack_before_origin_witness :
  exists info st' w',
    getCurrentTrack (Some played_out) 5000 (world_at 2500 None) =
      (Returned (Some info, Some st'), w') /\
    index info = 0%nat /\ track info = Some (item "a1" (Some (DurString "PT1M"))) /\
    position info = -3 /\ position info < 0 /\ epoch info = -1.
Proof.
  apply (getCurrentTrack_before_origin played_out
           [item "a1" (Some (DurString "PT1M")); item "b2" (Some (DurString "PT30S"));
            item "c3" None] 5000 (world_at 2500 None));
    [reflexivity | discriminate | vm_compute; split; reflexivity].
Defined.

(** X4.  While some track of the playlist has a duration, a track that
    counts for 0 ms (an unparseable duration string, ["PT0S"]) is never the
    current track at or after the origin: the schedule skips it. *)
Theorem getCurrentTrack_skips_zero_duration (st : RadioState) (pl : list Track)
    (serverStartTime : Z) (w : World) (i : nat) (t : Track) :
  playlist st = Some pl -> serverStartTime <= clock w ->
  pl !! i = Some t -> track_duration_ms t = 0 ->
  Zsum (map track_duration_ms pl) <> 0 ->
  exists info st' w',
    getCurrentTrack (Some st) serverStartTime w = (Returned (Some info, Some st'), w') /\
    index info <> i.
Proof.
  intros Hpl Hnow Hi Ht Hsum.
  assert (pl <> []) as Hne by (intros ->; done).
  destruct (getCurrentTrack_returns st pl serverStartTime w Hpl Hne) as (st' & w' & Hrun).
  eexists _, st', w'. split; [exact Hrun|]. cbn [index]. intros Heq.
  destruct (resolve_position_spec pl (clock w - serverStartTime) Hne) as (d & Hd & Hpos);
    [lia|].
  rewrite Heq in Hd. unfold effective_duration, effective_durations in Hd.
  rewrite durations_loop_spec, Z.add_0_l in Hd.
  destruct (Z.eqb_spec (Zsum (map track_duration_ms pl)) 0); [done|].
  cbn [snd] in Hd. rewrite list_lookup_fmap, Hi in Hd. simpl in Hd.
  injection Hd as Hd. subst d. rewrite Ht in Hpos.
  change (0 / 1000) with 0 in Hpos. lia.
Qed.

Lemma getCurrentTrack_skips_zero_duration_witness :
  exists info st' w',
    getCurrentTrack (Some (state_of [minute_track; garbled_track; half_minute_track] None))
      0 (world_at 60000 None) = (Returned (Some info, Some st'), w') /\
    index info <> 1%nat.
Proof.
  apply (getCurrentTrack_skips_zero_duration
           (state_of [minute_track; garbled_track; half_minute_track] None)
           [minute_track; garbled_track; half_minute_track] 0 (world_at 60000 None)
           1%nat garbled_track);
    [reflexivity | vm_compute; discriminate | reflexivity | reflexivity
    | vm_compute; discriminate].
Defined.

(** ** The played tracks history *)

Lemma mark_played_run (i : nat) (st : RadioState) (w : World) :
  let played := default [] (playedTracks st) in
  mark_played i st w =
    if bool_decide (i ∈ played) then (Returned st, w)
    else (Returned (set_playedTracks (Some (played ++ [i])) st),
          with_ls_radioState (Some (set_playedTracks (Some (played ++ [i])) st)) w).
Proof.
  unfold mark_played. destruct (playedTracks st) as [played|]; simpl.
  - by case_bool_decide.
  - reflexivity.
Qed.

(** X5.  [getCurrentTrack] marks the current index at most once: the
    history grows by that index, at its end, exactly when it does not hold
    it yet, so a history without duplicates stays without duplicates.  The
    playlist and [startTime] are untouched, only [localStorage] is written
    (when the history grew), never the database copy. *)
Theorem getCurrentTrack_marks_once (st : RadioState) (pl : list Track)
    (serverStartTime : Z) (w : World) :
  playlist st = Some pl -> pl <> [] ->
  exists info st' w',
    getCurrentTrack (Some st) serverStartTime w = (Returned (Some info, Some st'), w') /\
    playlist st' = Some pl /\ startTime st' = startTime st /\
    default [] (playedTracks st') =
      (if bool_decide (index info ∈ default [] (playedTracks st))
       then default [] (playedTracks st)
       else default [] (playedTracks st) ++ [index info]) /\
    (NoDup (default [] (playedTracks st)) -> NoDup (default [] (playedTracks st'))) /\
    fb_radioState w' = fb_radioState w /\
    ls_radioState w' =
      (if bool_decide (index info ∈ default [] (playedTracks st))
       then ls_radioState w else Some st').
Proof.
  intros Hpl Hne. unfold getCurrentTrack. rewrite Hpl.
  destruct pl as [|t pl]; [done|].
  unfold bind at 1. unfold Date_now at 1.
  destruct (resolve_position (t :: pl) (clock w - serverStartTime)) as [[i pos] ep].
  unfold bind at 1.
  destruct (intervalLog_run w) as (logged & w1 & -> & Hfb & Hls).
  destruct (log_tracking_frame logged i st) as [Hlpl Hlp].
  unfold bind at 1. rewrite mark_played_run. cbv zeta. rewrite Hlp.
  assert (startTime (log_tracking logged i st) = startTime st) as Hstart.
  { unfold log_tracking. destruct logged; [done|].
    destruct (_ && _)%bool; [done|]. by destruct (negb _). }
  case_bool_decide as Hin.
  - eexists _, _, _. split; [reflexivity|]. cbn [index].
    rewrite bool_decide_eq_true_2 by done.
    split; [by rewrite Hlpl|]. split; [done|]. split; [by rewrite Hlp|].
    split; [by rewrite Hlp|]. split; [done|]. done.
  - eexists _, _, _. split; [reflexivity|]. cbn [index].
    rewrite bool_decide_eq_false_2 by done. simpl.
    split; [by rewrite Hlpl|]. split; [done|]. split; [done|].
    split; [|split; done].
    intros Hnd. apply NoDup_app. split; [done|]. split.
    + intros x Hx Hxi. apply list_elem_of_singleton in Hxi as ->. done.
    + apply NoDup_singleton.
Qed.

Lemma getCurrentTrack_marks_once_witness :
  exists info st' w',
    getCurrentTrack (Some (state_of [minute_track; half_minute_track] (Some [1%nat])))
      0 (world_at 20000 None) = (Returned (Some info, Some st'), w') /\
    default [] (playedTracks st') = [1%nat; 0%nat] /\
    NoDup (default [] (playedTracks st')) /\
    fb_radioState w' = None.
Proof.
  destruct (getCurrentTrack_marks_once
              (state_of [minute_track; half_minute_track] (Some [1%nat]))
              [minute_track; half_minute_track] 0 (world_at 20000 None)
              eq_refl ltac:(discriminate))
    as (info & st' & w' & Hrun & _ & _ & Hplayed & Hnd & Hfb & _).
  exists info, st', w'. split; [exact Hrun|].
  assert (index info = 0%nat) as Hidx.
  { vm_compute in Hrun. by injection Hrun as <- _ _. }
  split; [by rewrite Hplayed, Hidx|].
  split; [apply Hnd, NoDup_singleton | exact Hfb].
Defined.

(** ** Creating the state *)

Lemma save_both_run (st : RadioState) (w : World) :
  save_both st w =
    if fb_online w
    then (Returned tt, with_ls_radioState (Some st) (with_fb_radioState (Some st) w))
    else (Thrown, w).
Proof.
  unfold save_both, bind, fb_set_radioState, ls_set_radioState.
  by destruct (fb_online w).
Qed.

Lemma create_state_ls_run (pl : list Track) (w : World) :
  exists out rs,
    out ≡ₚ pl /\
    create_state ls_set_radioState pl w =
      (Returned (initialState out (clock w)),
       with_ls_radioState (Some (initialState out (clock w))) (with_randoms rs w)).
Proof.
  destruct (shuffleArray_run pl w) as (out & rs & Hrun & Hperm).
  exists out, rs. split; [done|].
  unfold create_state, bind at 1. rewrite Hrun. reflexivity.
Qed.

(** The run of [initializeRadio] where no state with tracks is stored. *)
Lemma initializeRadio_creates_run (pl : list Track) (w : World) :
  (forall es, loaded_state w = Some es -> has_tracks es = false) ->
  exists out w',
    initializeRadio pl w = (Returned (initialState out (clock w)), w') /\
    out ≡ₚ pl /\
    ls_radioState w' = Some (initialState out (clock w)) /\
    fb_radioState w' =
      (if fb_online w then Some (initialState out (clock w)) else fb_radioState w) /\
    fb_online w' = fb_online w /\ clock w' = clock w.
Proof.
  intros Hfresh. unfold initializeRadio, try_catch, bind at 1.
  rewrite getRadioState_run.
  assert ((match loaded_state w with
           | Some es => if has_tracks es then ensure_playedTracks save_both es
                        else create_state save_both pl
           | None => create_state save_both pl
           end) = create_state save_both pl) as ->.
  { destruct (loaded_state w) as [es|] eqn:Hl; [|done]. by rewrite (Hfresh es). }
  destruct (shuffleArray_run pl w) as (out & rs & Hrun & Hperm).
  unfold create_state at 1, bind at 1. rewrite Hrun.
  unfold bind at 1, Date_now at 1. unfold bind at 1. rewrite save_both_run.
  cbn [fb_online with_randoms clock].
  destruct (fb_online w) eqn:Hon.
  - exists out. eexists. split; [reflexivity|]. split; [done|].
    split; [reflexivity|]. split; [reflexivity|]. split; [exact Hon | reflexivity].
  - unfold bind at 1, ls_get_radioState at 1. cbn [ls_radioState with_randoms].
    assert ((match ls_radioState w with
             | Some es => if has_tracks es
                          then ensure_playedTracks ls_set_radioState es
                          else create_state ls_set_radioState pl
             | None => create_state ls_set_radioState pl
             end) = create_state ls_set_radioState pl) as ->.
    { unfold loaded_state in Hfresh. rewrite Hon in Hfresh.
      destruct (ls_radioState w) as [es|] eqn:Hl; [|done]. by rewrite (Hfresh es). }
    destruct (create_state_ls_run pl (with_randoms rs w)) as (out2 & rs2 & Hperm2 & ->).
    exists out2. eexists. split; [reflexivity|]. split; [done|].
    split; [reflexivity|]. split; [reflexivity|]. split; [exact Hon | reflexivity].
Qed.

(** X6.  Where no state with tracks is stored, [initializeRadio] creates
    one: its playlist is a permutation of the given tracks, nothing is
    marked as played, its times are the current time, and it is saved to
    [localStorage] and, when reachable, to the database. *)
Theorem initializeRadio_creates (pl : list Track) (w : World) :
  (forall es, loaded_state w = Some es -> has_tracks es = false) ->
  exists out w',
    initializeRadio pl w = (Returned (initialState out (clock w)), w') /\
    out ≡ₚ pl /\
    ls_radioState w' = Some (initialState out (clock w)) /\
    fb_radioState w' =
      (if fb_online w then Some (initialState out (clock w)) else fb_radioState w) /\
    fb_online w' = fb_online w /\ clock w' = clock w.
Proof. exact (initializeRadio_creates_run pl w). Qed.

Lemma initializeRadio_creates_witness :
  exists out w',
    initializeRadio [minute_track; half_minute_track; garbled_track] (world_at 7000 None) =
      (Returned (initialState out 7000), w') /\
    out ≡ₚ [minute_track; half_minute_track; garbled_track] /\
    ls_radioState w' = Some (initialState out 7000) /\
    fb_radioState w' = Some (initialState out 7000).
Proof.
  destruct (initializeRadio_creates [minute_track; half_minute_track; garbled_track]
              (world_at 7000 None))
    as (out & w' & Hrun & Hperm & Hls & Hfb & _).
  - intros es Hes. discriminate.
  - by exists out, w'.
Defined.

(** The run of [initializeRadio] where a state with tracks is stored. *)
Lemma initializeRadio_keeps_existing_run (pl : list Track) (w : World)
    (es : RadioState) :
  loaded_state w = Some es -> has_tracks es = true ->
  exists w',
    initializeRadio pl w =
      (Returned (set_playedTracks (Some (default [] (playedTracks es))) es), w') /\
    (playedTracks es <> None -> w' = w) /\
    (playedTracks es = None ->
     ls_radioState w' = Some (set_playedTracks (Some []) es) /\
     fb_radioState w' =
       (if fb_online w then Some (set_playedTracks (Some []) es) else fb_radioState w)).
Proof.
  intros Hload Htracks. unfold initializeRadio, try_catch, bind at 1.
  rewrite getRadioState_run, Hload, Htracks. unfold ensure_playedTracks at 1.
  destruct (playedTracks es) as [played|] eqn:Hp.
  - exists w. split; [|split; [done|done]].
    unfold ret. f_equal. f_equal. destruct es; simpl in *. by rewrite Hp.
  - unfold bind at 1. rewrite save_both_run. unfold loaded_state in Hload.
    destruct (fb_online w) eqn:Hon.
    + eexists. split; [reflexivity|]. split; [done|]. intros _. done.
    + unfold bind at 1, ls_get_radioState at 1. rewrite Hload, Htracks.
      unfold ensure_playedTracks. rewrite Hp.
      eexists. split; [reflexivity|]. split; [done|]. intros _. done.
Qed.

(** X7.  Where a state with tracks is stored, [initializeRadio] returns it
    whatever tracks it is given: playlist, [startTime] and the other
    fields are kept, and only a missing [playedTracks] is added as the
    empty list (and then saved).  A state that has [playedTracks] is
    returned without any write. *)
Theorem initializeRadio_keeps_existing (pl : list Track) (w : World)
    (es : RadioState) :
  loaded_state w = Some es -> has_tracks es = true ->
  exists w',
    initializeRadio pl w =
      (Returned (set_playedTracks (Some (default [] (playedTracks es))) es), w') /\
    (playedTracks es <> None -> w' = w) /\
    (playedTracks es = None ->
     ls_radioState w' = Some (set_playedTracks (Some []) es) /\
     fb_radioState w' =
       (if fb_online w then Some (set_playedTracks (Some []) es) else fb_radioState w)).
Proof. exact (initializeRadio_keeps_existing_run pl w es). Qed.

Lemma initializeRadio_keeps_existing_witness :
  initializeRadio [garbled_track] (world_at 7000 (Some played_out)) =
    (Returned played_out, world_at 7000 (Some played_out)).
Proof.
  destruct (initializeRadio_keeps_existing [garbled_track]
              (world_at 7000 (Some played_out)) played_out eq_refl eq_refl)
    as (w' & Hrun & Hsame & _).
  rewrite Hrun, Hsame by discriminate. reflexivity.
Defined.

(** X8.  After [initializeRadio] has created a state from a non-empty list
    of tracks, every further call, with any tracks, returns that same state
    and changes nothing. *)
Theorem initializeRadio_twice (pl : list Track) (w : World) :
  (forall es, loaded_state w = Some es -> has_tracks es = false) ->
  pl <> [] ->
  exists st1 w1,
    initializeRadio pl w = (Returned st1, w1) /\
    forall pl2, initializeRadio pl2 w1 = (Returned st1, w1).
Proof.
  intros Hfresh Hne.
  destruct (initializeRadio_creates_run pl w Hfresh)
    as (out & w1 & Hrun & Hperm & Hls & Hfb & Hon & _).
  exists (initialState out (clock w)), w1. split; [exact Hrun|]. intros pl2.
  assert (loaded_state w1 = Some (initialState out (clock w))) as Hload.
  { unfold loaded_state. rewrite Hon, Hfb, Hls. by destruct (fb_online w). }
  assert (has_tracks (initialState out (clock w)) = true) as Htracks.
  { unfold has_tracks. simpl. destruct out; [|done].
    apply Permutation_nil_l in Hperm. done. }
  destruct (initializeRadio_keeps_existing_run pl2 w1 _ Hload Htracks) as (w2 & Hrun2 & Hsame & _).
  rewrite Hrun2, Hsame by done. reflexivity.
Qed.

Lemma initializeRadio_twice_witness :
  exists st1 w1,
    initializeRadio [minute_track; half_minute_track] (world_at 7000 None) =
      (Returned st1, w1) /\
    forall pl2, initializeRadio pl2 w1 = (Returned st1, w1).
Proof.
  apply (initializeRadio_twice [minute_track; half_minute_track] (world_at 7000 None));
    [intros es Hes; discriminate | discriminate].
Defined.

(** ** The reshuffle *)

Lemma reset_if_played_not_due (save : RadioState -> Eff World unit)
    (state : option RadioState) (w : World) :
  reset_due state = false -> reset_if_played save state w = (Returned tt, w).
Proof.
  unfold reset_due, reset_if_played. destruct state as [st|]; [|done].
  destruct (playlist st) as [pl|]; [|done].
  destruct (playedTracks st) as [played|]; [|done]. by intros ->.
Qed.

(** The run of [checkAndResetPlayedTracks] when no reshuffle is due. *)
Lemma checkAndResetPlayedTracks_not_due_run (w : World) :
  reset_due (loaded_state w) = false ->
  checkAndResetPlayedTracks w = (Returned tt, w).
Proof.
  intros Hdue. unfold checkAndResetPlayedTracks, try_catch at 1, bind at 1.
  rewrite getRadioState_run. by rewrite reset_if_played_not_due.
Qed.

(** X9.  Unless the stored state has a playlist and a history at least as
    long as the playlist, [checkAndResetPlayedTracks] changes nothing: no
    draw is consumed and neither copy of the state is written. *)
Theorem checkAndResetPlayedTracks_not_due (w : World) :
  reset_due (loaded_state w) = false ->
  checkAndResetPlayedTracks w = (Returned tt, w).
Proof. exact (checkAndResetPlayedTracks_not_due_run w). Qed.

Lemma checkAndResetPlayedTracks_not_due_witness :
  checkAndResetPlayedTracks
    (world_at 9000 (Some (state_of [minute_track; half_minute_track] (Some [1%nat])))) =
  (Returned tt,
   world_at 9000 (Some (state_of [minute_track; half_minute_track] (Some [1%nat])))).
Proof.
  apply (checkAndResetPlayedTracks_not_due
           (world_at 9000 (Some (state_of [minute_track; half_minute_track] (Some [1%nat]))))).
  reflexivity.
Defined.

Lemma reset_if_played_ls_due (st : RadioState) (pl : list Track) (w : World) :
  playlist st = Some pl -> reset_due (Some st) = true ->
  exists out rs,
    out ≡ₚ pl /\
    reset_if_played ls_set_radioState (Some st) w =
      (Returned tt,
       with_ls_radioState (Some (reshuffled out (clock w) st)) (with_randoms rs w)).
Proof.
  intros Hpl Hdue. unfold reset_due, reset_if_played in *. rewrite Hpl in *.
  destruct (playedTracks st) as [played|]; [|done]. rewrite Hdue.
  destruct (shuffleArray_run pl w) as (out & rs & Hrun & Hperm).
  exists out, rs. split; [done|]. unfold bind at 1. rewrite Hrun. reflexivity.
Qed.

(** The run of [checkAndResetPlayedTracks] when a reshuffle is due. *)
Lemma checkAndResetPlayedTracks_due_run (w : World) (st : RadioState)
    (pl : list Track) :
  loaded_state w = Some st -> playlist st = Some pl ->
  reset_due (Some st) = true ->
  exists out w',
    checkAndResetPlayedTracks w = (Returned tt, w') /\
    out ≡ₚ pl /\
    ls_radioState w' = Some (reshuffled out (clock w) st) /\
    fb_radioState w' =
      (if fb_online w then Some (reshuffled out (clock w) st) else fb_radioState w) /\
    startTime (reshuffled out (clock w) st) = startTime st /\
    playedTracks (reshuffled out (clock w) st) = Some [] /\
    fb_online w' = fb_online w.
Proof.
  intros Hload Hpl Hdue.
  unfold checkAndResetPlayedTracks, try_catch at 1, bind at 1.
  rewrite getRadioState_run, Hload.
  pose proof Hdue as Hdue'. unfold reset_due in Hdue'. rewrite Hpl in Hdue'.
  unfold reset_if_played at 1. rewrite Hpl.
  destruct (playedTracks st) as [played|] eqn:Hp; [|done]. rewrite Hdue'.
  destruct (shuffleArray_run pl w) as (out & rs & Hrun & Hperm).
  unfold bind at 1. rewrite Hrun. unfold bind at 1, Date_now at 1.
  rewrite save_both_run. cbn [fb_online with_randoms clock].
  unfold loaded_state in Hload.
  destruct (fb_online w) eqn:Hon.
  - exists out. eexists. split; [reflexivity|]. split; [done|].
    split; [reflexivity|]. split; [reflexivity|]. split; [reflexivity|].
    split; [reflexivity | exact Hon].
  - unfold try_catch, bind at 1, ls_get_radioState at 1.
    cbn [ls_radioState with_randoms]. rewrite Hload.
    destruct (reset_if_played_ls_due st pl (with_randoms rs w) Hpl Hdue)
      as (out2 & rs2 & Hperm2 & ->).
    exists out2. eexists. split; [reflexivity|]. split; [done|].
    split; [reflexivity|]. split; [reflexivity|]. split; [reflexivity|].
    split; [reflexivity | exact Hon].
Qed.

(** X10.  When every track has been played (the history is at least as long
    as the playlist), [checkAndResetPlayedTracks] saves the state with the
    playlist permuted, the history emptied and [lastFullPlaythrough] set to
    the current time; [startTime] and the other fields are as before.  The
    state goes to [localStorage] and, when reachable, to the database. *)
Theorem checkAndResetPlayedTracks_due (w : World) (st : RadioState)
    (pl : list Track) :
  loaded_state w = Some st -> playlist st = Some pl ->
  reset_due (Some st) = true ->
  exists out w',
    checkAndResetPlayedTracks w = (Returned tt, w') /\
    out ≡ₚ pl /\
    ls_radioState w' = Some (reshuffled out (clock w) st) /\
    fb_radioState w' =
      (if fb_online w then Some (reshuffled out (clock w) st) else fb_radioState w) /\
    startTime (reshuffled out (clock w) st) = startTime st /\
    playedTracks (reshuffled out (clock w) st) = Some [] /\
    fb_online w' = fb_online w.
Proof. exact (checkAndResetPlayedTracks_due_run w st pl). Qed.

Lemma checkAndResetPlayedTracks_due_witness :
  exists out w',
    checkAndResetPlayedTracks (world_at 62000 (Some played_out)) = (Returned tt, w') /\
    out ≡ₚ default [] (playlist played_out) /\
    fb_radioState w' = Some (reshuffled out 62000 played_out) /\
    startTime (reshuffled out 62000 played_out) = 1700000000000.
Proof.
  destruct (checkAndResetPlayedTracks_due (world_at 62000 (Some played_out)) played_out
              (default [] (playlist played_out)) eq_refl eq_refl eq_refl)
    as (out & w' & Hrun & Hperm & _ & Hfb & Hstart & _).
  by exists out, w'.
Defined.

(** X11.  Right after a reshuffle of a non-empty playlist a second call of
    [checkAndResetPlayedTracks] is a no-op: the playlist is reshuffled once
    per completed cycle. *)
Theorem checkAndResetPlayedTracks_once (w : World) (st : RadioState)
    (pl : list Track) :
  loaded_state w = Some st -> playlist st = Some pl -> pl <> [] ->
  reset_due (Some st) = true ->
  exists w',
    checkAndResetPlayedTracks w = (Returned tt, w') /\
    checkAndResetPlayedTracks w' = (Returned tt, w').
Proof.
  intros Hload Hpl Hne Hdue.
  destruct (checkAndResetPlayedTracks_due_run w st pl Hload Hpl Hdue)
    as (out & w' & Hrun & Hperm & Hls & Hfb & _ & _ & Hon).
  exists w'. split; [exact Hrun|].
  apply checkAndResetPlayedTracks_not_due_run.
  assert (loaded_state w' = Some (reshuffled out (clock w) st)) as ->.
  { unfold loaded_state. rewrite Hon, Hfb, Hls. by destruct (fb_online w). }
  simpl. destruct out as [|t out]; [|done].
  apply Permutation_nil_l in Hperm. done.
Qed.

Lemma checkAndResetPlayedTracks_once_witness :
  exists w',
    checkAndResetPlayedTracks (world_at 62000 (Some played_out)) = (Returned tt, w') /\
    checkAndResetPlayedTracks w' = (Returned tt, w').
Proof.
  apply (checkAndResetPlayedTracks_once (world_at 62000 (Some played_out)) played_out
           (default [] (playlist played_out)));
    [reflexivity | reflexivity | discriminate | reflexivity].
Defined.

(** ** Comparing a snapshot with the playlist *)

Lemma collect_ids_Permutation (l1 l2 : list Track) :
  l1 ≡ₚ l2 -> collect_ids l1 = collect_ids l2.
Proof.
  intros Hperm. apply set_eq. intros id. rewrite !collect_ids_spec.
  split; intros (Ht & y & Hy & Hid); (split; [done|]); exists y; split; try done.
  - by rewrite <- Hperm.
  - by rewrite Hperm.
Qed.

Lemma checkPlaylistVersion_run (items : list Track) (w : World)
    (st : RadioState) (pl : list Track) :
  loaded_state w = Some st -> playlist st = Some pl ->
  checkPlaylistVersion (Some items) w =
    (Returned
       (negb (length pl =? length items)%nat ||
        negb (size (collect_ids pl) =? size (collect_ids items))%nat ||
        existsb (fun id => negb (bool_decide (id ∈ collect_ids items)))
          (elements (collect_ids pl))),
     with_forceRefreshCounter
       (Some ((default 0%nat (ls_forceRefreshCounter w) + 1) mod 10)%nat) w).
Proof.
  intros Hload Hpl. unfold checkPlaylistVersion, bind at 1.
  rewrite getRadioState_run, Hload. simpl. rewrite Hpl.
  unfold bind, ls_get_forceRefreshCounter, ls_set_forceRefreshCounter, ret.
  destruct (length pl =? length items)%nat; [|done]. simpl.
  by destruct (size (collect_ids pl) =? size (collect_ids items))%nat.
Qed.

(** X12.  A snapshot that holds the tracks of the active playlist, in any
    order, needs no refresh: [checkPlaylistVersion] returns [false].  In
    particular the active playlist itself does. *)
Theorem checkPlaylistVersion_unchanged (items : list Track) (w : World)
    (st : RadioState) (pl : list Track) :
  loaded_state w = Some st -> playlist st = Some pl -> items ≡ₚ pl ->
  (checkPlaylistVersion (Some items) w).1 = Returned false.
Proof.
  intros Hload Hpl Hperm. rewrite (checkPlaylistVersion_run items w st pl) by done.
  cbn [fst]. rewrite (collect_ids_Permutation items pl Hperm).
  rewrite (Permutation_length Hperm), !Nat.eqb_refl. simpl. f_equal.
  destruct (existsb _ _) eqn:Hex; [|done].
  apply existsb_exists in Hex as (id & Hin & Hnot).
  apply negb_true_iff, bool_decide_eq_false in Hnot.
  destruct Hnot. by apply elem_of_elements, list_elem_of_In.
Qed.

Lemma checkPlaylistVersion_unchanged_witness :
  (checkPlaylistVersion (Some [half_minute_track; minute_track])
     (world_at 9000 (Some (state_of [minute_track; half_minute_track] None)))).1 =
  Returned false.
Proof.
  apply (checkPlaylistVersion_unchanged [half_minute_track; minute_track]
           (world_at 9000 (Some (state_of [minute_track; half_minute_track] None)))
           (state_of [minute_track; half_minute_track] None)
           [minute_track; half_minute_track] eq_refl eq_refl).
  apply Permutation_swap.
Defined.

(** X13.  Whenever a track of the active playlist carries a video id that
    no item of the snapshot carries, [checkPlaylistVersion] returns [true],
    whatever else the snapshot holds. *)
Theorem checkPlaylistVersion_removed (items : list Track) (w : World)
    (st : RadioState) (pl : list Track) (y : Track) (id : string) :
  loaded_state w = Some st -> playlist st = Some pl ->
  y ∈ pl -> track_videoId y = Some id -> truthy_string id = true ->
  (forall x, x ∈ items -> track_videoId x <> Some id) ->
  (checkPlaylistVersion (Some items) w).1 = Returned true.
Proof.
  intros Hload Hpl Hy Hid Ht Hgone.
  rewrite (checkPlaylistVersion_run items w st pl) by done. cbn [fst]. f_equal.
  destruct (length pl =? length items)%nat; [|done].
  destruct (size (collect_ids pl) =? size (collect_ids items))%nat; [|done].
  simpl. apply existsb_exists. exists id. split.
  - apply list_elem_of_In, elem_of_elements, collect_ids_spec. split; [done|]. by exists y.
  - apply negb_true_iff, bool_decide_eq_false. rewrite collect_ids_spec.
    intros (_ & x & Hx & Hxid). by apply (Hgone x).
Qed.

Lemma checkPlaylistVersion_removed_witness :
  (checkPlaylistVersion (Some [minute_track; garbled_track])
     (world_at 9000 (Some (state_of [minute_track; half_minute_track] None)))).1 =
  Returned true.
Proof.
  apply (checkPlaylistVersion_removed [minute_track; garbled_track]
           (world_at 9000 (Some (state_of [minute_track; half_minute_track] None)))
           (state_of [minute_track; half_minute_track] None)
           [minute_track; half_minute_track] half_minute_track "b2");
    try reflexivity.
  - apply list_elem_of_further, list_elem_of_here.
  - intros x Hx. apply elem_of_cons in Hx as [->|Hx]; [discriminate|].
    apply list_elem_of_singleton in Hx as ->. discriminate.
Defined.

(** ** Appending to the playlist *)

Lemma updatePlaylist_run (items : list Track) (w : World)
    (st : RadioState) (pl : list Track) :
  loaded_state w = Some st -> playlist st = Some pl ->
  updatePlaylist items w =
    match new_items st items with
    | [] => (Returned st, w)
    | new =>
        let st' := set_playlist (Some (pl ++ new)) st in
        (Returned st',
         with_ls_radioState (Some st')
           (if fb_online w then with_fb_radioState (Some st') w else w))
    end.
Proof.
  intros Hload Hpl. unfold updatePlaylist, try_catch at 1, bind at 1.
  rewrite getRadioState_run, Hload. unfold append_new_items at 1.
  destruct (new_items st items) as [|x new] eqn:Hnew; [done|].
  rewrite Hpl. simpl. unfold bind at 1. rewrite save_both_run.
  unfold loaded_state in Hload. destruct (fb_online w) eqn:Hon; [done|].
  unfold try_catch, bind at 1, ls_get_radioState at 1. rewrite Hload.
  unfold append_new_items. rewrite Hnew, Hpl. reflexivity.
Qed.

Lemma filter_nil_iff {A : Type} (f : A -> bool) (l : list A) :
  List.filter f l = [] <-> forall x, In x l -> f x = false.
Proof.
  induction l as [|a l IH]; simpl; [done|]. destruct (f a) eqn:Ha.
  - split; [done|]. intros H. specialize (H a (or_introl eq_refl)). congruence.
  - rewrite IH. split; [intros H x [<-|Hx]; auto | intros H x Hx; apply H; auto].
Qed.

(** X14.  With a snapshot whose items all carry a video id,
    [updatePlaylist] is idempotent: a second call with the same snapshot
    finds nothing new, returns the same state and writes nothing. *)
Theorem updatePlaylist_idempotent (items : list Track) (w : World)
    (st : RadioState) (pl : list Track) :
  loaded_state w = Some st -> playlist st = Some pl ->
  Forall identified items ->
  exists st1 w1,
    updatePlaylist items w = (Returned st1, w1) /\
    updatePlaylist items w1 = (Returned st1, w1).
Proof.
  intros Hload Hpl Hids. rewrite (updatePlaylist_run items w st pl) by done.
  destruct (new_items st items) as [|x new] eqn:Hnew.
  - exists st, w. split; [done|].
    rewrite (updatePlaylist_run items w st pl) by done. by rewrite Hnew.
  - cbv zeta. eexists _, _. split; [reflexivity|].
    rewrite (updatePlaylist_run items _ (set_playlist (Some (pl ++ x :: new)) st)
               (pl ++ x :: new)).
    + assert (new_items (set_playlist (Some (pl ++ x :: new)) st) items = []) as ->; [|done].
      unfold new_items. simpl. apply filter_nil_iff. intros z Hz.
      apply negb_false_iff. rewrite Forall_forall in Hids.
      destruct (Hids z) as (id & Hid & Ht); [by apply list_elem_of_In|].
      rewrite Hid. simpl. apply bool_decide_eq_true, collect_ids_spec. split; [done|].
      destruct (decide (id ∈ collect_ids pl)) as [Hknown|Hnew'].
      * apply collect_ids_spec in Hknown as (_ & y & Hy & Hyid).
        exists y. split; [|done]. apply elem_of_app. by left.
      * exists z. split; [|done]. apply elem_of_app. right. rewrite <- Hnew.
        unfold new_items. rewrite Hpl. apply list_elem_of_In, filter_In.
        split; [done|]. rewrite Hid. simpl. by apply negb_true_iff, bool_decide_eq_false.
    + unfold loaded_state. destruct (fb_online w) eqn:Hon; simpl; by rewrite ?Hon.
    + reflexivity.
Qed.

Lemma updatePlaylist_idempotent_witness :
  exists st1 w1,
    updatePlaylist [half_minute_track; garbled_track]
      (world_at 9000 (Some (state_of [minute_track] None))) = (Returned st1, w1) /\
    updatePlaylist [half_minute_track; garbled_track] w1 = (Returned st1, w1).
Proof.
  apply (updatePlaylist_idempotent [half_minute_track; garbled_track]
           (world_at 9000 (Some (state_of [minute_track] None)))
           (state_of [minute_track] None) [minute_track] eq_refl eq_refl).
  repeat constructor; eexists; split; reflexivity.
Defined.

(** X15.  An item of the snapshot without a truthy video id is taken as
    new by every call of [updatePlaylist]: it is appended to the playlist
    each time, so the playlist grows with every refresh. *)
Theorem updatePlaylist_appends_unidentified (items : list Track) (w : World)
    (st : RadioState) (pl : list Track) (x : Track) :
  loaded_state w = Some st -> playlist st = Some pl ->
  x ∈ items -> ~ identified x ->
  exists st' w' new,
    updatePlaylist items w = (Returned st', w') /\
    playlist st' = Some (pl ++ new) /\ x ∈ new /\
    (length pl < length (pl ++ new))%nat /\
    loaded_state w' = Some st'.
Proof.
  intros Hload Hpl Hx Hnoid. rewrite (updatePlaylist_run items w st pl) by done.
  assert (x ∈ new_items st items) as Hin.
  { unfold new_items. apply list_elem_of_In, filter_In.
    split; [by apply list_elem_of_In|]. apply negb_true_iff. unfold has_id.
    destruct (track_videoId x) as [id|] eqn:Hid; [|done].
    apply bool_decide_eq_false. rewrite Hpl, collect_ids_spec. intros (Ht & _).
    apply Hnoid. by exists id. }
  destruct (new_items st items) as [|z new] eqn:Hnew; [by apply elem_of_nil in Hin|].
  cbv zeta. eexists _, _, (z :: new). split; [reflexivity|]. split; [reflexivity|].
  split; [done|]. split; [rewrite length_app; simpl; lia|].
  unfold loaded_state. destruct (fb_online w) eqn:Hon; simpl; by rewrite ?Hon.
Qed.

Lemma updatePlaylist_appends_unidentified_witness :
  exists st' w' new,
    updatePlaylist [{| snippet := None; contentDetails := None |}]
      (world_at 9000 (Some (state_of [{| snippet := None; contentDetails := None |}] None))) =
      (Returned st', w') /\
    playlist st' = Some ([{| snippet := None; contentDetails := None |}] ++ new) /\
    {| snippet := None; contentDetails := None |} ∈ new.
Proof.
  destruct (updatePlaylist_appends_unidentified
              [{| snippet := None; contentDetails := None |}]
              (world_at 9000 (Some (state_of [{| snippet := None; contentDetails := None |}] None)))
              (state_of [{| snippet := None; contentDetails := None |}] None)
              [{| snippet := None; contentDetails := None |}]
              {| snippet := None; contentDetails := None |} eq_refl eq_refl)
    as (st' & w' & new & Hrun & Hpl & Hin & _).
  - apply list_elem_of_here.
  - intros (id & Hid & _). discriminate.
  - by exists st', w', new.
Defined.

(** ** The next unplayed track *)

Lemma first_unplayed_spec (played : list nat) (pl : list Track) (i0 : nat) :
  match first_unplayed played pl i0 with
  | Some (i, t) =>
      (i0 <= i)%nat /\ pl !! Nat.sub i i0 = Some t /\ (i ∉ played) /\
      forall j, (i0 <= j < i)%nat -> j ∈ played
  | None => forall k, (k < length pl)%nat -> (i0 + k)%nat ∈ played
  end.
Proof.
  revert i0. induction pl as [|t pl IH]; intros i0; simpl.
  - intros k Hk. lia.
  - case_bool_decide as Hin.
    + specialize (IH (S i0)). destruct (first_unplayed played pl (S i0)) as [[i t']|].
      * destruct IH as (Hle & Hlook & Hnot & Hbefore).
        split; [lia|]. split.
        { replace (i - i0)%nat with (S (i - S i0)) by lia. done. }
        split; [done|]. intros j Hj.
        destruct (decide (j = i0)) as [->|]; [done|]. apply Hbefore. lia.
      * intros [|k] Hk; [by rewrite Nat.add_0_r|].
        replace (i0 + S k)%nat with (S i0 + k)%nat by lia. apply IH. lia.
    + split; [lia|]. rewrite Nat.sub_diag. split; [done|]. split; [done|].
      intros j Hj. lia.
Qed.

(** A history shorter than the playlist misses an index of the playlist. *)
Lemma first_unplayed_finds (played : list nat) (pl : list Track) :
  (length played < length pl)%nat -> first_unplayed played pl 0 <> None.
Proof.
  intros Hlen Hnone. pose proof (first_unplayed_spec played pl 0) as Hspec.
  rewrite Hnone in Hspec.
  assert (length (seq 0 (length pl)) <= length played)%nat as Hle.
  { apply NoDup_incl_length; [apply seq_NoDup|].
    intros k Hk. apply in_seq in Hk. apply list_elem_of_In, (Hspec k). lia. }
  rewrite length_seq in Hle. lia.
Qed.

(** X16.  While fewer indices are marked than the playlist has tracks,
    [getNextUnplayedTrack] returns the track of the least index that is not
    marked; the fallback to the first track is never taken, and nothing is
    written. *)
Theorem getNextUnplayedTrack_least (st : RadioState) (pl : list Track) (w : World) :
  playlist st = Some pl ->
  (length (default [] (playedTracks st)) < length pl)%nat ->
  exists i t st1,
    getNextUnplayedTrack (Some st) w = (Returned (Some t, Some st1), w) /\
    pl !! i = Some t /\
    (i ∉ default [] (playedTracks st)) /\
    (forall j, (j < i)%nat -> j ∈ default [] (playedTracks st)) /\
    playedTracks st1 = Some (default [] (playedTracks st)) /\
    playlist st1 = Some pl.
Proof.
  intros Hpl Hlen. unfold getNextUnplayedTrack. rewrite Hpl.
  destruct pl as [|t0 pl0]; [simpl in Hlen; lia|].
  set (pl := t0 :: pl0) in *.
  set (st1 := match playedTracks st with
              | Some _ => st
              | None => set_playedTracks (Some []) st
              end).
  assert (default [] (playedTracks st1) = default [] (playedTracks st) /\
          playedTracks st1 = Some (default [] (playedTracks st)) /\
          playlist st1 = Some pl) as (Hsame & Hp1 & Hpl1).
  { unfold st1. destruct (playedTracks st) eqn:Hp; simpl; by rewrite ?Hp. }
  rewrite Hsame.
  destruct (Nat.leb_spec (length pl) (length (default [] (playedTracks st)))); [lia|].
  pose proof (first_unplayed_spec (default [] (playedTracks st)) pl 0) as Hspec.
  pose proof (first_unplayed_finds (default [] (playedTracks st)) pl Hlen) as Hfinds.
  destruct (first_unplayed (default [] (playedTracks st)) pl 0) as [[i t]|]; [|done].
  destruct Hspec as (_ & Hlook & Hnot & Hbefore). rewrite Nat.sub_0_r in Hlook.
  exists i, t, st1. split; [reflexivity|]. split; [done|]. split; [done|].
  split; [|done]. intros j Hj. apply Hbefore. lia.
Qed.

Lemma getNextUnplayedTrack_least_witness :
  exists i t st1,
    getNextUnplayedTrack
      (Some (state_of [minute_track; half_minute_track; garbled_track] (Some [0%nat; 2%nat])))
      (world_at 9000 None) =
      (Returned (Some t, Some st1), world_at 9000 None) /\
    [minute_track; half_minute_track; garbled_track] !! i = Some t /\
    i ∉ [0%nat; 2%nat].
Proof.
  destruct (getNextUnplayedTrack_least
              (state_of [minute_track; half_minute_track; garbled_track] (Some [0%nat; 2%nat]))
              [minute_track; half_minute_track; garbled_track] (world_at 9000 None)
              eq_refl)
    as (i & t & st1 & Hrun & Hlook & Hnot & _).
  - simpl. lia.
  - by exists i, t, st1.
Defined.

End RadioExtras.

(** * Properties of the shared origin *)

Module SiteProofs.
Import JsNumber Site.

Local Open Scope Z_scope.

(** ** Decimal strings *)

Lemma digit_char_cases (d : N) :
  (d < 10)%N ->
  Radio.is_digit (digit_char d) = true /\
  Radio.digit_value (digit_char d) = d /\
  is_space (digit_char d) = false /\
  digit_char d <> "-"%char /\ digit_char d <> "+"%char.
Proof.
  intros Hd.
  assert (d = 0 \/ d = 1 \/ d = 2 \/ d = 3 \/ d = 4 \/ d = 5 \/ d = 6 \/ d = 7 \/
          d = 8 \/ d = 9)%N as Hcases by lia.
  repeat (destruct Hcases as [->|Hcases]; [by vm_compute|]). subst d. by vm_compute.
Qed.

(** Reading the digits that [digits_go] puts in front of [acc]. *)
Lemma read_digits_go (fuel : nat) (n : N) (acc : string) :
  (n < 10 ^ N.of_nat fuel)%N -> (0 < fuel)%nat ->
  exists len : nat,
    forall (c : nat) (v : N),
      Radio.read_digits (digits_go fuel n acc) c v =
        Radio.read_digits acc (c + S len) (v * 10 ^ N.of_nat (S len) + n)%N.
Proof.
  revert n acc. induction fuel as [|fuel IH]; intros n acc Hn Hfuel; [lia|].
  cbn [digits_go].
  pose proof (N.div_mod n 10 ltac:(lia)) as Hdm.
  pose proof (N.mod_lt n 10 ltac:(lia)) as Hmod.
  destruct (digit_char_cases (n mod 10) Hmod) as (Hdig & Hval & _).
  destruct (N.eqb_spec (n / 10) 0) as [Hz|Hnz].
  - exists 0%nat. intros c v. cbn [Radio.read_digits]. rewrite Hdig, Hval.
    f_equal; [lia|]. change (10 ^ N.of_nat 1)%N with 10%N. lia.
  - assert (n / 10 < 10 ^ N.of_nat fuel)%N as Hdiv.
    { apply N.Div0.div_lt_upper_bound.
      rewrite Nat2N.inj_succ, N.pow_succ_r' in Hn. lia. }
    assert (0 < fuel)%nat as Hpos.
    { destruct fuel; [|lia]. simpl in Hdiv. lia. }
    destruct (IH (n / 10)%N (String (digit_char (n mod 10)) acc) Hdiv Hpos) as (len & Hlen).
    exists (S len). intros c v. rewrite Hlen. cbn [Radio.read_digits].
    rewrite Hdig, Hval. f_equal; [lia|].
    rewrite (Nat2N.inj_succ (S len)), N.pow_succ_r'. lia.
Qed.

Lemma digits_go_head (fuel : nat) (n : N) (acc : string) :
  (0 < fuel)%nat ->
  exists d rest, (d < 10)%N /\ digits_go fuel n acc = String (digit_char d) rest.
Proof.
  revert n acc. induction fuel as [|fuel IH]; intros n acc Hfuel; [lia|].
  cbn [digits_go]. pose proof (N.mod_lt n 10 ltac:(lia)) as Hmod.
  destruct (n / 10 =? 0)%N; [eauto|].
  destruct fuel as [|fuel]; [simpl; eauto|]. apply IH. lia.
Qed.

Lemma read_digits_of (n : N) :
  exists len : nat,
    Radio.read_digits (digits_of n) 0 0%N = (S len, n, EmptyString).
Proof.
  unfold digits_of.
  destruct (read_digits_go (S (N.to_nat (N.size n))) n EmptyString) as (len & Hlen).
  - pose proof (N.size_gt n) as Hsize.
    rewrite Nat2N.inj_succ, N2Nat.id, N.pow_succ_r'.
    assert (2 ^ N.size n <= 10 ^ N.size n)%N by (apply N.pow_le_mono_l; lia).
    lia.
  - lia.
  - exists len. rewrite Hlen. cbn [Radio.read_digits]. repeat f_equal; lia.
Qed.

(** What [toString] writes, [parseInt] reads back. *)
Lemma parseInt_toString (z : Z) : parseInt (toString z) = Some z.
Proof.
  unfold toString. destruct (Z.ltb_spec z 0) as [Hneg|Hpos].
  - unfold parseInt. cbn [skip_spaces]. change (is_space "-") with false. cbv iota.
    destruct (read_digits_of (Z.to_N (- z))) as (len & ->). f_equal. lia.
  - destruct (digits_go_head (S (N.to_nat (N.size (Z.to_N z)))) (Z.to_N z) EmptyString)
      as (d & rest & Hd & Hhead); [lia|].
    destruct (digit_char_cases d Hd) as (_ & _ & Hspace & Hminus & Hplus).
    destruct (read_digits_of (Z.to_N z)) as (len & Hread).
    unfold parseInt, digits_of in *. rewrite Hhead in *. cbn [skip_spaces].
    rewrite Hspace.
    assert ((let (negative, s2) :=
               match String (digit_char d) rest with
               | String "-" rest0 => (true, rest0)
               | String "+" rest0 => (false, rest0)
               | _ => (false, String (digit_char d) rest)
               end in
             match Radio.read_digits s2 0 0%N with
             | (S _, value, _) => Some (if negative then - Z.of_N value else Z.of_N value)
             | (O, _, _) => None
             end) =
            match Radio.read_digits (String (digit_char d) rest) 0 0%N with
            | (S _, value, _) => Some (Z.of_N value)
            | (O, _, _) => None
            end) as ->.
    { destruct (digit_char d) as [[] [] [] [] [] [] [] []]; try reflexivity; congruence. }
    rewrite Hread. f_equal. lia.
Qed.

Lemma toString_nonempty (z : Z) : exists c rest, toString z = String c rest.
Proof.
  unfold toString. destruct (z <? 0); [eauto|]. unfold digits_of.
  destruct (digits_go_head (S (N.to_nat (N.size (Z.to_N z)))) (Z.to_N z) EmptyString)
    as (d & rest & _ & ->); [lia | eauto].
Qed.

(** ** The origin *)

Lemma with_radio_same (w : World) : with_radio (radio w) w = w.
Proof. by destruct w. Qed.

Lemma Date_now_run (w : World) : Date_now w = (Returned (Radio.clock (radio w)), w).
Proof. unfold Date_now, lift, Radio.Date_now. by rewrite with_radio_same. Qed.

Lemma getServerStartTime_online (w : World) :
  Radio.fb_online (radio w) = true ->
  getServerStartTime w =
    match fb_radioServerStartTime w with
    | Some val => (Returned (parseInt val), w)
    | None =>
        (Returned (Some (Radio.clock (radio w))),
         with_fb_start (Some (toString (Radio.clock (radio w)))) w)
    end.
Proof.
  intros Hon. unfold getServerStartTime, try_catch, bind at 1, fb_get_start.
  rewrite Hon. destruct (fb_radioServerStartTime w) as [val|]; [done|].
  unfold bind at 1. rewrite Date_now_run. unfold bind, fb_set_start. by rewrite Hon.
Qed.

Lemma getServerStartTime_offline (w : World) :
  Radio.fb_online (radio w) = false ->
  getServerStartTime w =
    match ls_radioServerStartTime w with
    | Some (String c rest) => (Returned (parseInt (String c rest)), w)
    | _ =>
        (Returned (Some (Radio.clock (radio w))),
         with_ls_start (Some (toString (Radio.clock (radio w)))) w)
    end.
Proof.
  intros Hoff. unfold getServerStartTime, try_catch, bind at 1, fb_get_start.
  rewrite Hoff. unfold bind at 1, ls_get_start.
  destruct (ls_radioServerStartTime w) as [[|c rest]|]; [|done|];
    unfold bind at 1; rewrite Date_now_run; reflexivity.
Qed.

(** X17.  On a reachable database [getServerStartTime] returns the stored
    origin, or stores the current time as the origin when there is none;
    from then on every client that reaches the database gets that same
    origin, whatever its own clock or [localStorage], and writes nothing. *)
Theorem getServerStartTime_shared (w : World) :
  Radio.fb_online (radio w) = true ->
  exists t w1,
    getServerStartTime w = (Returned t, w1) /\
    (fb_radioServerStartTime w = None -> t = Some (Radio.clock (radio w))) /\
    forall w2,
      Radio.fb_online (radio w2) = true ->
      fb_radioServerStartTime w2 = fb_radioServerStartTime w1 ->
      getServerStartTime w2 = (Returned t, w2).
Proof.
  intros Hon. rewrite getServerStartTime_online by done.
  destruct (fb_radioServerStartTime w) as [val|] eqn:Hval.
  - exists (parseInt val), w. split; [done|]. split; [done|].
    intros w2 Hon2 Hsame. rewrite getServerStartTime_online by done.
    by rewrite Hsame, Hval.
  - eexists _, _. split; [reflexivity|]. split; [done|].
    intros w2 Hon2 Hsame. rewrite getServerStartTime_online by done.
    rewrite Hsame. cbn [fb_radioServerStartTime with_fb_start].
    by rewrite parseInt_toString.
Qed.

Lemma getServerStartTime_shared_witness :
  exists t w1,
    getServerStartTime (site_at 1700000000123 None None) = (Returned t, w1) /\
    t = Some 1700000000123 /\
    getServerStartTime
      (site_at 1700000999999 (Some Radio.played_out) (fb_radioServerStartTime w1)) =
      (Returned t, site_at 1700000999999 (Some Radio.played_out) (fb_radioServerStartTime w1)).
Proof.
  destruct (getServerStartTime_shared (site_at 1700000000123 None None) eq_refl)
    as (t & w1 & Hrun & Hnew & Hlater).
  exists t, w1. split; [exact Hrun|]. split; [by apply Hnew|].
  apply Hlater; reflexivity.
Defined.

(** X18.  When the database is unreachable [getServerStartTime] falls back
    to [localStorage]: it returns the origin stored there or, when none is
    stored, mints the current time as a local origin.  The database is not
    written, and later calls without the database return that same local
    origin. *)
Theorem getServerStartTime_local (w : World) :
  Radio.fb_online (radio w) = false ->
  exists t w1,
    getServerStartTime w = (Returned t, w1) /\
    (ls_radioServerStartTime w = None -> t = Some (Radio.clock (radio w))) /\
    fb_radioServerStartTime w1 = fb_radioServerStartTime w /\
    forall w2,
      Radio.fb_online (radio w2) = false ->
      ls_radioServerStartTime w2 = ls_radioServerStartTime w1 ->
      getServerStartTime w2 = (Returned t, w2).
Proof.
  intros Hoff. rewrite getServerStartTime_offline by done.
  assert (forall w2,
            Radio.fb_online (radio w2) = false ->
            ls_radioServerStartTime w2 =
              Some (toString (Radio.clock (radio w))) ->
            getServerStartTime w2 = (Returned (Some (Radio.clock (radio w))), w2))
    as Hminted.
  { intros w2 Hoff2 Hsame. rewrite getServerStartTime_offline, Hsame by done.
    destruct (toString_nonempty (Radio.clock (radio w))) as (c & rest & Hstr).
    rewrite Hstr, <- Hstr. by rewrite parseInt_toString. }
  destruct (ls_radioServerStartTime w) as [[|c rest]|] eqn:Hval.
  - eexists _, _. split; [reflexivity|]. split; [done|]. split; [done|]. exact Hminted.
  - exists (parseInt (String c rest)), w. split; [done|]. split; [done|]. split; [done|].
    intros w2 Hoff2 Hsame. rewrite getServerStartTime_offline by done.
    by rewrite Hsame, Hval.
  - eexists _, _. split; [reflexivity|]. split; [done|]. split; [done|]. exact Hminted.
Qed.

Lemma getServerStartTime_local_witness :
  exists t w1,
    getServerStartTime
      (with_radio (Radio.with_fb_radioState None
                     {| Radio.clock := 1700000000123; Radio.randoms := [];
                        Radio.fb_online := false; Radio.fb_radioState := None;
                        Radio.ls_radioState := None;
                        Radio.ls_forceRefreshCounter := None;
                        Radio.lastLogTimestamp := 0 |})
         (site_at 0 None (Some "1699999999000"%string))) = (Returned t, w1) /\
    t = Some 1700000000123 /\
    fb_radioServerStartTime w1 = Some "1699999999000"%string.
Proof.
  destruct (getServerStartTime_local
              (with_radio (Radio.with_fb_radioState None
                     {| Radio.clock := 1700000000123; Radio.randoms := [];
                        Radio.fb_online := false; Radio.fb_radioState := None;
                        Radio.ls_radioState := None;
                        Radio.ls_forceRefreshCounter := None;
                        Radio.lastLogTimestamp := 0 |})
                 (site_at 0 None (Some "1699999999000"%string))) eq_refl)
    as (t & w1 & Hrun & Hnew & Hfb & _).
  exists t, w1. split; [exact Hrun|]. split; [by apply Hnew | exact Hfb].
Defined.

(** ** The hard reset *)

Lemma resetRadioState_run (w : World) :
  resetRadioState w =
    (Returned tt,
     let now := toString (Radio.clock (radio w)) in
     if Radio.fb_online (radio w)
     then with_ls_start (Some now)
            (with_radio
               (Radio.with_ls_radioState None (Radio.with_fb_radioState None (radio w)))
               (with_fb_start (Some now) w))
     else with_ls_start (Some now)
            (with_radio (Radio.with_ls_radioState None (radio w)) w)).
Proof.
  unfold resetRadioState, try_catch, bind at 1, fb_remove_radioState.
  destruct (Radio.fb_online (radio w)) eqn:Hon.
  - unfold bind at 1. rewrite Date_now_run. unfold bind at 1, fb_set_start.
    cbn [radio with_radio Radio.fb_online Radio.with_fb_radioState]. rewrite Hon.
    reflexivity.
  - unfold bind at 1, ls_remove_radioState at 1. unfold bind at 1.
    rewrite Date_now_run. reflexivity.
Qed.

(** The world that [resetRadioState] leaves. *)
Lemma resetRadioState_world (w : World) :
  exists w1,
    resetRadioState w = (Returned tt, w1) /\
    Radio.loaded_state (radio w1) = None /\
    Radio.clock (radio w1) = Radio.clock (radio w) /\
    Radio.fb_online (radio w1) = Radio.fb_online (radio w) /\
    (if Radio.fb_online (radio w)
     then fb_radioServerStartTime w1 else ls_radioServerStartTime w1) =
      Some (toString (Radio.clock (radio w))).
Proof.
  rewrite resetRadioState_run. eexists. split; [reflexivity|]. cbv zeta.
  unfold Radio.loaded_state.
  destruct (Radio.fb_online (radio w)) eqn:Hon; cbn; rewrite ?Hon; done.
Qed.

(** The origin that [getServerStartTime] returns where the store it reads
    holds the decimal string of [t]. *)
Lemma getServerStartTime_stored (w : World) (t : Z) :
  (if Radio.fb_online (radio w)
   then fb_radioServerStartTime w else ls_radioServerStartTime w) =
    Some (toString t) ->
  getServerStartTime w = (Returned (Some t), w).
Proof.
  intros Hstored. destruct (Radio.fb_online (radio w)) eqn:Hon.
  - rewrite getServerStartTime_online, Hstored by done. by rewrite parseInt_toString.
  - rewrite getServerStartTime_offline, Hstored by done.
    destruct (toString_nonempty t) as (c & rest & Hstr).
    rewrite Hstr, <- Hstr. by rewrite parseInt_toString.
Qed.

(** X19.  After [resetRadioState], with or without the database, no radio
    state is found by [getRadioState] and the origin that
    [getServerStartTime] returns is the time of the reset. *)
Theorem resetRadioState_restarts (w : World) :
  exists w1,
    resetRadioState w = (Returned tt, w1) /\
    lift Radio.getRadioState w1 = (Returned None, w1) /\
    getServerStartTime w1 = (Returned (Some (Radio.clock (radio w))), w1).
Proof.
  destruct (resetRadioState_world w) as (w1 & Hreset & Hload & _ & Hon & Hstart).
  exists w1. split; [exact Hreset|]. split.
  - unfold lift. rewrite RadioProofs.getRadioState_run, Hload. by rewrite with_radio_same.
  - apply getServerStartTime_stored. by rewrite Hon.
Qed.

Lemma resolve_position_origin (pl : list Radio.Track) :
  pl <> [] ->
  (Radio.resolve_position pl 0).1.2 = 0 /\ (Radio.resolve_position pl 0).2 = 0.
Proof.
  intros Hne.
  destruct (RadioExtras.resolve_position_decomposition pl 0 Hne) as (r & Hr & Hdec); [lia|].
  destruct (RadioProofs.resolve_position_spec pl 0 Hne) as (d & _ & Hpos); [lia|].
  pose proof (RadioProofs.effective_durations_spec pl) as Hspec.
  assert ((Radio.resolve_position pl 0).2 = 0) as Hep.
  { unfold Radio.resolve_position. destruct (Radio.effective_durations pl) as [total ds].
    by destruct (Radio.select_loop ds 0 0 (Z.rem 0 total)). }
  split; [|done]. rewrite Hep in Hdec.
  destruct (Radio.effective_durations pl) as [total ds].
  destruct Hspec as (_ & _ & Hds & _). cbn [fst snd] in Hdec.
  assert (0 <= Radio.Zsum (take (Radio.resolve_position pl 0).1.1 ds)) as Hprefix.
  { apply RadioProofs.Zsum_nonneg, Forall_take, Hds. }
  lia.
Qed.

(** X20.  A hard reset followed by [initializeRadio] restarts the
    broadcast: the new state holds a fresh shuffle of the given tracks with
    nothing played, [getServerStartTime] returns the time of the reset, and
    at that instant the resolver reports position 0 of epoch 0. *)
Theorem resetRadioState_then_initializeRadio (w : World) (pl : list Radio.Track) :
  pl <> [] ->
  exists w1 out w2 info st' r',
    resetRadioState w = (Returned tt, w1) /\
    lift (Radio.initializeRadio pl) w1 =
      (Returned (Radio.initialState out (Radio.clock (radio w))), w2) /\
    out ≡ₚ pl /\
    getServerStartTime w2 = (Returned (Some (Radio.clock (radio w))), w2) /\
    Radio.getCurrentTrack (Some (Radio.initialState out (Radio.clock (radio w))))
      (Radio.clock (radio w)) (radio w2) = (Returned (Some info, Some st'), r') /\
    Radio.position info = 0 /\ Radio.epoch info = 0.
Proof.
  intros Hne.
  destruct (resetRadioState_world w) as (w1 & Hreset & Hload & Hclock & Hon & Hstart).
  destruct (RadioExtras.initializeRadio_creates_run pl (radio w1))
    as (out & r2 & Hinit & Hperm & _ & _ & Hon2 & Hclock2).
  { intros es Hes. by rewrite Hload in Hes. }
  rewrite Hclock in Hinit.
  assert (out <> []) as Hout.
  { intros ->. apply Permutation_nil_l in Hperm. done. }
  destruct (RadioProofs.getCurrentTrack_returns
              (Radio.initialState out (Radio.clock (radio w))) out
              (Radio.clock (radio w)) r2 eq_refl Hout) as (st' & r' & Hget).
  exists w1, out, (with_radio r2 w1). eexists _, st', r'.
  split; [exact Hreset|]. split; [unfold lift; by rewrite Hinit|]. split; [exact Hperm|].
  split.
  - apply getServerStartTime_stored. cbn [radio with_radio fb_radioServerStartTime
      ls_radioServerStartTime]. by rewrite Hon2, Hon.
  - cbn [radio with_radio]. split; [exact Hget|]. cbn [Radio.position Radio.epoch].
    rewrite Hclock2, Hclock, Z.sub_diag. by apply resolve_position_origin.
Qed.

Lemma resetRadioState_then_initializeRadio_witness :
  exists w1 out w2 info st' r',
    resetRadioState (site_at 1700000000123 (Some Radio.played_out) (Some "5"%string)) =
      (Returned tt, w1) /\
    lift (Radio.initializeRadio [Radio.minute_track; Radio.half_minute_track]) w1 =
      (Returned (Radio.initialState out 1700000000123), w2) /\
    out ≡ₚ [Radio.minute_track; Radio.half_minute_track] /\
    getServerStartTime w2 = (Returned (Some 1700000000123), w2) /\
    Radio.getCurrentTrack (Some (Radio.initialState out 1700000000123))
      1700000000123 (radio w2) = (Returned (Some info, Some st'), r') /\
    Radio.position info = 0 /\ Radio.epoch info = 0.
Proof.
  apply (resetRadioState_then_initializeRadio
           (site_at 1700000000123 (Some Radio.played_out) (Some "5"%string))
           [Radio.minute_track; Radio.half_minute_track]).
  discriminate.
Defined.

End SiteProofs.

(** * Further properties of the presence tracker *)

Module PresenceExtras.
Import Presence PresenceProofs.

Local Open Scope Z_scope.

(** What a write to [stats/currentListeners] leaves of the node [stats]. *)
Lemma fb_set_currentListeners_run (count : Z) (w : World) :
  fb_online w = true ->
  exists s',
    fb_set_currentListeners count w = (Returned tt, with_stats (Some s') w) /\
    currentListeners s' = count /\
    totalListeners s' = stats w ≫= totalListeners.
Proof.
  intros Hon. unfold fb_set_currentListeners, fb_call. rewrite Hon.
  eexists. split; [reflexivity|]. by destruct (stats w).
Qed.

Lemma partial_alter_deactivate (id : string) (m : gmap string Listener) :
  partial_alter deactivate id m =
    <[id := {| timestamp := m !! id ≫= timestamp; active := false |}]> m.
Proof.
  apply map_eq. intros k. destruct (decide (k = id)) as [->|Hne].
  - rewrite lookup_partial_alter_eq, lookup_insert_eq. by destruct (m !! id).
  - by rewrite lookup_partial_alter_ne, lookup_insert_ne.
Qed.

Lemma unregisterListener_run (w : World) :
  fb_online w = true ->
  exists s',
    unregisterListener w =
      (Returned true,
       with_stats (Some s')
         (with_listeners (partial_alter deactivate (sessionId w) (listeners w)) w)) /\
    currentListeners s' =
      Z.of_nat (count_active (delete (sessionId w) (listeners w))) /\
    totalListeners s' = stats w ≫= totalListeners.
Proof.
  intros Hon. unfold unregisterListener, try_catch, bind at 1. unfold bind at 1.
  unfold fb_set_inactive, fb_call at 1. rewrite Hon.
  unfold bind at 1, fb_get_listeners, fb_call at 1. cbn [fb_online with_listeners].
  rewrite Hon. cbn [listeners with_listeners].
  destruct (fb_set_currentListeners_run
              (Z.of_nat (count_active (partial_alter deactivate (sessionId w) (listeners w))))
              (with_listeners (partial_alter deactivate (sessionId w) (listeners w)) w) Hon)
    as (s' & Hset & Hcur & Htot).
  unfold bind at 1. rewrite Hset. exists s'. split; [reflexivity|].
  split; [|exact Htot]. rewrite Hcur, partial_alter_deactivate, count_active_insert.
  reflexivity.
Qed.

(** X21.  On a reachable database [unregisterListener] marks this session
    inactive (its timestamp is kept), publishes as current count the number
    of the other sessions that are active, and leaves the total as it is. *)
Theorem unregisterListener_counts (w : World) :
  fb_online w = true ->
  exists w' s',
    unregisterListener w = (Returned true, w') /\
    listeners w' !! sessionId w =
      Some {| timestamp := listeners w !! sessionId w ≫= timestamp; active := false |} /\
    (forall id, id <> sessionId w -> listeners w' !! id = listeners w !! id) /\
    stats w' = Some s' /\
    currentListeners s' = Z.of_nat (count_active (listeners w')) /\
    currentListeners s' = Z.of_nat (count_active (delete (sessionId w) (listeners w))) /\
    totalListeners s' = stats w ≫= totalListeners.
Proof.
  intros Hon. destruct (unregisterListener_run w Hon) as (s' & Hrun & Hcur & Htot).
  eexists _, s'. split; [exact Hrun|]. cbn [listeners stats with_stats with_listeners].
  rewrite partial_alter_deactivate.
  split; [by rewrite lookup_insert_eq|].
  split; [intros id Hid; by rewrite lookup_insert_ne|].
  split; [done|]. split; [|done]. by rewrite Hcur, count_active_insert.
Qed.

Lemma unregisterListener_counts_witness :
  exists w' s',
    unregisterListener
      (with_listeners (<["lq3x9k0.f7w2"%string :=
                          {| timestamp := Some 1700000299000; active := true |}]> two_sessions)
         (presence_world 1700000300000 ∅ (Some stale_stats))) = (Returned true, w') /\
    stats w' = Some s' /\ currentListeners s' = 2 /\ totalListeners s' = Some 7.
Proof.
  destruct (unregisterListener_counts
              (with_listeners (<["lq3x9k0.f7w2"%string :=
                                  {| timestamp := Some 1700000299000; active := true |}]>
                                 two_sessions)
                 (presence_world 1700000300000 ∅ (Some stale_stats))) eq_refl)
    as (w' & s' & Hrun & _ & _ & Hs & _ & Hcur & Htot).
  exists w', s'. split; [exact Hrun|]. split; [exact Hs|].
  split; [rewrite Hcur; vm_compute; reflexivity | exact Htot].
Defined.

(** ** Registering more than once, and leaving *)

Lemma registerListener_run (w : World) (t : Z) :
  fb_online w = true -> total_before w = Some t ->
  let m' := <[sessionId w := {| timestamp := Some (server_clock w); active := true |}]>
              (listeners w) in
  registerListener w =
    (Returned true,
     with_beforeunload true
       (with_stats
          (Some {| currentListeners := Z.of_nat (count_active m');
                   totalListeners := Some (t + 1);
                   lastUpdated := Some (server_clock w) |})
          (with_listeners m' w))).
Proof.
  intros Hon Ht. unfold total_before in Ht. cbv zeta.
  unfold registerListener, try_catch, bind at 1.
  unfold fb_get_stats, fb_call at 1. rewrite Hon.
  unfold bind at 1. unfold bind at 1. unfold fb_set_listener, fb_call at 1. rewrite Hon.
  unfold bind at 1. unfold fb_get_listeners, fb_call at 1.
  cbn [fb_online with_listeners]. rewrite Hon.
  rewrite Ht. cbn [fmap option_fmap option_map fb_set_stats].
  unfold bind at 1. unfold fb_call at 1. cbn [fb_online with_listeners]. rewrite Hon.
  unfold bind, ret. cbn [listeners with_listeners server_clock].
  replace (Z.succ t) with (t + 1) by lia. reflexivity.
Qed.

Lemma unregisterListener_offline (w : World) :
  fb_online w = false -> unregisterListener w = (Returned false, w).
Proof.
  intros Hoff. unfold unregisterListener, try_catch, bind at 1. unfold bind at 1.
  unfold fb_set_inactive, fb_call. by rewrite Hoff.
Qed.



(** X23.  A session that registers and then unregisters on a reachable
    database leaves its record inactive and the current count at the
    number of the other active sessions.  The total is one higher than
    before when the node [stats] was absent or carried a total; when the
    node had no total the registration fails and the node still has none.
    On an unreachable database both calls fail and nothing is written. *)
Theorem registerListener_then_unregisterListener (w : World) :
  exists (ok : bool) (w1 w2 : World),
    registerListener w = (Returned ok, w1) /\
    unregisterListener w1 = (Returned (fb_online w), w2) /\
    (fb_online w = true ->
       exists s2,
         stats w2 = Some s2 /\
         currentListeners s2 =
           Z.of_nat (count_active (delete (sessionId w) (listeners w))) /\
         listeners w2 !! sessionId w =
           Some {| timestamp := Some (server_clock w); active := false |} /\
         (forall t, total_before w = Some t ->
            ok = true /\ totalListeners s2 = Some (t + 1)) /\
         (total_before w = None -> ok = false /\ totalListeners s2 = None)) /\
    (fb_online w = false -> ok = false /\ w1 = w /\ w2 = w).
Proof.
  destruct (fb_online w) eqn:Hon.
  - destruct (total_before w) as [t|] eqn:Ht.
    + exists true. rewrite (registerListener_run w t Hon Ht). cbv zeta.
      match goal with
      | |- context [(Returned true, ?w1) = _] =>
          destruct (unregisterListener_run w1 Hon) as (s2 & Hrun & Hcur & Htot)
      end.
      eexists _, _. split; [reflexivity|]. split; [exact Hrun|].
      cbn [stats listeners sessionId server_clock with_beforeunload with_stats
             with_listeners] in *.
      split; [|done]. intros _. exists s2. split; [reflexivity|].
      split; [by rewrite Hcur, delete_insert_eq|].
      split.
      { rewrite partial_alter_deactivate, lookup_insert_eq, lookup_insert_eq.
        reflexivity. }
      split; [|done]. intros t' [= <-]. split; [reflexivity|exact Htot].
    + exists false. rewrite (PresenceProofs.registerListener_no_total w Hon Ht).
      match goal with
      | |- context [(Returned false, ?w1) = _] =>
          destruct (unregisterListener_run w1 Hon) as (s2 & Hrun & Hcur & Htot)
      end.
      eexists _, _. split; [reflexivity|]. split; [exact Hrun|].
      cbn [stats listeners sessionId server_clock with_stats with_listeners] in *.
      split; [|done]. intros _. exists s2. split; [reflexivity|].
      split; [by rewrite Hcur, delete_insert_eq|].
      split.
      { rewrite partial_alter_deactivate, lookup_insert_eq, lookup_insert_eq.
        reflexivity. }
      split; [done|]. intros _. split; [reflexivity|].
      rewrite Htot. unfold total_before in Ht. by destruct (stats w).
  - exists false, w, w. rewrite (registerListener_offline w Hon).
    rewrite (unregisterListener_offline w Hon).
    split; [reflexivity|]. split; [reflexivity|]. split; [done|]. intros _. done.
Qed.

Lemma registerListener_then_unregisterListener_witness :
  exists w1 w2 s2,
    registerListener (presence_world 1700000300000 two_sessions (Some stale_stats)) =
      (Returned true, w1) /\
    unregisterListener w1 = (Returned true, w2) /\
    stats w2 = Some s2 /\ currentListeners s2 = 2 /\ totalListeners s2 = Some 8.
Proof.
  destruct (registerListener_then_unregisterListener
              (presence_world 1700000300000 two_sessions (Some stale_stats)))
    as (ok & w1 & w2 & Hreg & Hunreg & Hon & _).
  destruct (Hon eq_refl) as (s2 & Hs & Hcur & _ & Hgood & _).
  destruct (Hgood 7 eq_refl) as [-> Htot].
  exists w1, w2, s2. split; [exact Hreg|]. split; [exact Hunreg|]. split; [exact Hs|].
  split; [rewrite Hcur; vm_compute; reflexivity | exact Htot].
Defined.

(** ** Garbage collection *)

Lemma expired_sweep (now : Z) (l : Listener) : expired now (sweep now l) = false.
Proof.
  unfold sweep. destruct (expired now l) eqn:He; [reflexivity | exact He].
Qed.

Lemma sweep_idempotent (now : Z) (l : Listener) : sweep now (sweep now l) = sweep now l.
Proof. unfold sweep at 1. by rewrite expired_sweep. Qed.

(** X24.  Garbage collection is idempotent: run again at the same time on
    what it left, [cleanupInactiveListeners] changes nothing. *)
Theorem cleanupInactiveListeners_idempotent (w : World) :
  fb_online w = true -> listeners w <> ∅ ->
  exists w',
    cleanupInactiveListeners w = (Returned true, w') /\
    cleanupInactiveListeners w' = (Returned true, w').
Proof.
  intros Hon Hne. rewrite (cleanupInactiveListeners_run w Hon Hne).
  eexists. split; [reflexivity|].
  rewrite cleanupInactiveListeners_run.
  - cbn [clock listeners stats with_stats with_listeners].
    rewrite <- map_fmap_compose.
    rewrite (map_fmap_ext (sweep (clock w) ∘ sweep (clock w)) (sweep (clock w)))
      by (intros; apply sweep_idempotent).
    destruct w as [c sc on sid m st bu]. cbn. by destruct st.
  - exact Hon.
  - cbn [listeners with_stats with_listeners]. intros Hempty.
    by apply fmap_empty_inv in Hempty.
Qed.

Lemma cleanupInactiveListeners_idempotent_witness :
  exists w',
    cleanupInactiveListeners
      (presence_world 1700000300000 two_sessions (Some stale_stats)) = (Returned true, w') /\
    cleanupInactiveListeners w' = (Returned true, w').
Proof.
  apply (cleanupInactiveListeners_idempotent
           (presence_world 1700000300000 two_sessions (Some stale_stats))).
  - reflexivity.
  - intros He. apply (f_equal (fun m => m !! "A"%string)) in He.
    vm_compute in He. discriminate.
Defined.

(** X25.  Whatever the state of the database, [cleanupInactiveListeners]
    never deletes a session record, never touches a session whose
    timestamp is missing or 0 (such a session is never reaped, however old
    it is), never turns an inactive session active, and never changes the
    total. *)
Theorem cleanupInactiveListeners_never (w : World) :
  let w' := (cleanupInactiveListeners w).2 in
  dom (listeners w') = dom (listeners w) /\
  (forall id l, listeners w !! id = Some l -> truthy_timestamp l = None ->
                listeners w' !! id = Some l) /\
  (forall id l', listeners w' !! id = Some l' -> active l' = true ->
                 listeners w !! id = Some l') /\
  stats w' ≫= totalListeners = stats w ≫= totalListeners.
Proof.
  cbv zeta. destruct (fb_online w) eqn:Hon.
  - destruct (decide (listeners w = ∅)) as [He|Hne].
    + rewrite cleanupInactiveListeners_no_session by done. cbn [snd]. done.
    + rewrite cleanupInactiveListeners_run by done.
      cbn [snd listeners stats with_stats with_listeners].
      split; [by rewrite dom_fmap_L|]. split; [|split].
      * intros id l Hl Hts. rewrite lookup_fmap, Hl. simpl. unfold sweep, expired.
        rewrite Hts. by rewrite andb_false_r.
      * intros id l' Hl' Hact. rewrite lookup_fmap in Hl'.
        destruct (listeners w !! id) as [l|]; [|done]. simpl in Hl'.
        injection Hl' as <-. f_equal. unfold sweep in *.
        destruct (expired (clock w) l); [done|done].
      * by destruct (stats w).
  - rewrite cleanupInactiveListeners_offline by done. cbn [snd]. done.
Qed.

End PresenceExtras.

(** * Properties of the upcoming tracks *)

Module UpcomingProofs.
Import Radio Upcoming.

Local Open Scope eff_scope.

Lemma strict_videoId_run (t : Track) (w : World) :
  well_formed t -> strict_videoId t w = (Returned (track_videoId t), w).
Proof.
  intros (sn & r & Hsn & Hr). unfold strict_videoId, track_videoId.
  by rewrite Hsn, Hr.
Qed.

(** [findIndex] on well-formed items: -1 and no item has the id, or the
    least index of an item with the id. *)
Lemma findIndex_run (id : option string) (pl : list Track) (i : Z) (w : World) :
  Forall well_formed pl ->
  (findIndex id pl i w = (Returned (-1), w) /\
   Forall (fun t => track_videoId t <> id) pl) \/
  (exists j : nat,
     findIndex id pl i w = (Returned (i + Z.of_nat j), w) /\
     track_videoId <$> pl !! j = Some id /\
     forall j' : nat, (j' < j)%nat -> track_videoId <$> pl !! j' <> Some id).
Proof.
  intros Hwf. revert i. induction Hwf as [|t pl Ht Hpl IH]; intros i.
  - left. split; [reflexivity|constructor].
  - cbn [findIndex]. unfold bind. rewrite strict_videoId_run by done.
    destruct (decide (track_videoId t = id)) as [He|Hne].
    + right. exists 0%nat. rewrite bool_decide_eq_true_2 by done.
      split; [unfold ret; do 2 f_equal; lia|]. split; [by rewrite <- He|].
      intros j' Hj'. lia.
    + rewrite bool_decide_eq_false_2 by done.
      destruct (IH (i + 1)) as [[Hrun Hall]|(j & Hrun & Hj & Hleast)].
      * left. split; [done|]. by constructor.
      * right. exists (S j). split; [rewrite Hrun; do 2 f_equal; lia|].
        split; [done|]. intros [|j'] Hj'; [simpl; congruence|].
        simpl. apply Hleast. lia.
Qed.

(** The entry that the loop pushes for an index at or after -1. *)
Lemma next_track_nat (pl : list Track) (c i : Z) :
  -1 <= c -> 1 <= i ->
  next_track pl c i = pl !! (Z.to_nat (c + i) mod length pl)%nat.
Proof.
  intros Hc Hi. unfold next_track. destruct (Z.eqb_spec (Z.of_nat (length pl)) 0) as [H0|H0].
  - destruct pl; [done|simpl in H0; lia].
  - rewrite Z.rem_mod_nonneg by lia.
    assert (Hm := Z.mod_pos_bound (c + i) (Z.of_nat (length pl))).
    destruct (Z.ltb_spec ((c + i) mod Z.of_nat (length pl)) 0) as [Hl|Hl]; [lia|].
    f_equal. rewrite <- (Nat2Z.id (length pl)) at 2.
    rewrite <- Z2Nat.inj_mod by lia. reflexivity.
Qed.

Lemma cycle_defined (pl : list Track) (k : nat) :
  pl <> [] -> is_Some (pl !! (k mod length pl)%nat).
Proof.
  intros Hne. apply lookup_lt_is_Some. apply Nat.mod_upper_bound.
  destruct pl; [done|simpl; lia].
Qed.

(** X26.  Once the component is initialised (the origin is known and not
    0) and a state with a playlist of well-formed items is loaded,
    [getUpcomingTracks] returns five entries and changes nothing.  They are
    the playlist read cyclically from an offset [k]: [k] is one past the
    least index whose video id is that of the current track, and 0 when no
    item has that id, so that a current track which is not in the playlist
    is followed by the playlist from its start.  With a playlist that is
    not empty every entry is a track (tracks repeat when the playlist has
    fewer than five), with an empty one all five are [undefined]. *)
Theorem getUpcomingTracks_cycles (w : World) (st : RadioState) (pl : list Track)
    (current : Track) (start : Z) :
  start <> 0 -> loaded_state w = Some st -> playlist st = Some pl ->
  Forall well_formed pl -> well_formed current ->
  exists (k : nat) (upcoming : list (option Track)),
    getUpcomingTracks true (Some start) (Some current) w = (Returned upcoming, w) /\
    upcoming = map (fun i => pl !! ((k + i) mod length pl)%nat) [0; 1; 2; 3; 4]%nat /\
    ((k = 0%nat /\ Forall (fun t => track_videoId t <> track_videoId current) pl) \/
     (exists j : nat,
        k = S j /\
        track_videoId <$> pl !! j = Some (track_videoId current) /\
        forall j' : nat, (j' < j)%nat ->
          track_videoId <$> pl !! j' <> Some (track_videoId current))) /\
    (pl <> [] -> Forall is_Some upcoming) /\
    (pl = [] -> upcoming = replicate 5 None).
Proof.
  intros Hstart Hload Hpl Hwf Hcur.
  assert (Hrun : forall c : Z, -1 <= c ->
            findIndex (track_videoId current) pl 0 w = (Returned c, w) ->
            getUpcomingTracks true (Some start) (Some current) w =
            (Returned (map (fun i => pl !! ((Z.to_nat (c + 1) + i) mod length pl)%nat)
                           [0; 1; 2; 3; 4]%nat), w)).
  { intros c Hc Hfind. unfold getUpcomingTracks, try_catch. cbn [negb orb].
    destruct (Z.eqb_spec start 0) as [|_]; [done|].
    unfold bind at 1.
    replace (getRadioState w) with (Returned (loaded_state w), w)
      by (unfold getRadioState, try_catch, fb_get_radioState, ls_get_radioState,
            loaded_state; by destruct (fb_online w)).
    rewrite Hload. cbn [mbind option_bind]. rewrite Hpl.
    unfold bind. rewrite strict_videoId_run by done. rewrite Hfind.
    unfold ret. do 2 f_equal. cbn [map].
    rewrite !next_track_nat by lia.
    replace (Z.to_nat (c + 2)) with (Z.to_nat (c + 1) + 1)%nat by lia.
    replace (Z.to_nat (c + 3)) with (Z.to_nat (c + 1) + 2)%nat by lia.
    replace (Z.to_nat (c + 4)) with (Z.to_nat (c + 1) + 3)%nat by lia.
    replace (Z.to_nat (c + 5)) with (Z.to_nat (c + 1) + 4)%nat by lia.
    by rewrite Nat.add_0_r. }
  assert (Hshape : forall k : nat,
            (pl <> [] -> Forall is_Some
               (map (fun i => pl !! ((k + i) mod length pl)%nat) [0; 1; 2; 3; 4]%nat)) /\
            (pl = [] ->
             map (fun i => pl !! ((k + i) mod length pl)%nat) [0; 1; 2; 3; 4]%nat =
             replicate 5 None)).
  { intros k. split.
    - intros Hne. cbn [map]. repeat constructor; by apply cycle_defined.
    - intros ->. reflexivity. }
  destruct (findIndex_run (track_videoId current) pl 0 w Hwf)
    as [[Hfind Hall]|(j & Hfind & Hj & Hleast)].
  - exists 0%nat, (map (fun i => pl !! ((0 + i) mod length pl)%nat) [0; 1; 2; 3; 4]%nat).
    split; [by rewrite (Hrun (-1)) by (lia || done)|].
    split; [done|]. split; [by left|]. apply Hshape.
  - exists (S j), (map (fun i => pl !! ((S j + i) mod length pl)%nat) [0; 1; 2; 3; 4]%nat).
    split.
    { rewrite (Hrun (0 + Z.of_nat j)) by (lia || done).
      by replace (Z.to_nat (0 + Z.of_nat j + 1)) with (S j) by lia. }
    split; [done|]. split; [right; by exists j|]. apply Hshape.
Qed.

Lemma getUpcomingTracks_cycles_witness :
  exists (k : nat) (upcoming : list (option Track)),
    getUpcomingTracks true (Some 1700000000000) (Some half_minute_track)
      (world_at 1700000100000 (Some played_out)) =
    (Returned upcoming, world_at 1700000100000 (Some played_out)) /\
    upcoming =
    map (fun i => [minute_track; half_minute_track; item "c3" None] !! ((k + i) mod 3)%nat)
        [0; 1; 2; 3; 4]%nat /\
    k = 2%nat.
Proof.
  destruct (getUpcomingTracks_cycles (world_at 1700000100000 (Some played_out))
              played_out [minute_track; half_minute_track; item "c3" None]
              half_minute_track 1700000000000)
    as (k & upcoming & Hrun & Hup & [[_ Hall]|(j & -> & Hj & Hleast)] & _).
  - lia.
  - reflexivity.
  - reflexivity.
  - repeat constructor; by eexists _, _.
  - by eexists _, _.
  - exfalso. apply Forall_cons in Hall as [_ Hall]. by apply Forall_cons in Hall as [Hb _].
  - exists (S j), upcoming. split; [exact Hrun|]. split; [exact Hup|].
    destruct j as [|[|j]].
    + exfalso. by vm_compute in Hj.
    + reflexivity.
    + exfalso. apply (Hleast 1%nat); [lia|reflexivity].
Defined.

End UpcomingProofs.

(** * Properties of the catalog and of the diagnostics *)

Module NetProofs.
Import Net.

Local Open Scope net_scope.

Lemma after_0 (w : World) : after 0 w = w.
Proof. by destruct w. Qed.

Lemma after_after (n m : nat) (w : World) : after n (after m w) = after (m + n) w.
Proof.
  unfold after. cbn [replies requests fb_online navigator jsHeapSizeLimit].
  rewrite drop_drop. f_equal. lia.
Qed.

Lemma axios_get_run (w : World) : axios_get w = (answer (replies w !! 0%nat), after 1 w).
Proof.
  unfold axios_get, after, answer. destruct (replies w) as [|[status data|e] rest] eqn:Hr;
    cbn [lookup list_lookup drop]; by rewrite ?drop_0.
Qed.

Lemma strict_videoIds_well_formed (items : list Radio.Track) :
  Forall Upcoming.well_formed items ->
  strict_videoIds items = Value (map Radio.track_videoId items).
Proof.
  induction 1 as [|t items (sn & r & Hsn & Hr) _ IH]; [done|].
  cbn [strict_videoIds map]. unfold strict_videoId, Radio.track_videoId.
  by rewrite Hsn, Hr, IH.
Qed.

(** In [videoDetailsMap] the last video with an id wins. *)
Lemma details_map_lookup (videos : list Video) (k : string) :
  details_map videos !! k ≫= (fun cd => cd) = details_of videos k.
Proof.
  unfold details_map, details_of.
  assert (H : forall m : gmap string (option Radio.ContentDetails),
            fold_left (fun m video => <[id video := video_contentDetails video]> m) videos m !! k =
            match last (filter (fun v => id v = k) videos) with
            | Some v => Some (video_contentDetails v)
            | None => m !! k
            end).
  { induction videos as [|v videos IH]; intros m; [done|].
    cbn [fold_left]. rewrite IH. rewrite filter_cons.
    destruct (decide (id v = k)) as [He|Hne].
    - rewrite last_cons. destruct (last (filter _ videos)); [done|].
      by rewrite He, lookup_insert_eq.
    - destruct (last (filter _ videos)); [done|]. by rewrite lookup_insert_ne. }
  rewrite H. by destruct (last (filter _ videos)).
Qed.

(** X27.  When the playlist request resolves with well-formed items and
    the details request resolves with a list of videos,
    [fetchPlaylistItems] sends exactly these two requests and returns the
    items in their order, each with its [snippet] as it was and with the
    content details of the last video of the response that carries its
    id, or with empty content details when no video carries it or the
    video has none.  An item left without a duration in this way is given
    the default three minutes by the radio. *)
Theorem fetchPlaylistItems_merges (w : World) (s1 s2 : Z) (d1 d2 : Data)
    (items : list Radio.Track) (videos : list Video) :
  replies w !! 0%nat = Some (Resolved s1 d1) -> playlist_items d1 = Some items ->
  replies w !! 1%nat = Some (Resolved s2 d2) -> video_items d2 = Some videos ->
  items <> [] -> Forall Upcoming.well_formed items ->
  exists enhanced : list Radio.Track,
    fetchPlaylistItems w = (Value enhanced, after 2 w) /\
    Forall2 (fun item t =>
               Radio.snippet t = Radio.snippet item /\
               Radio.contentDetails t =
               Some (default {| Radio.duration := None |}
                       (details_of videos (key_of (Radio.track_videoId item)))))
            items enhanced /\
    (forall t, t ∈ enhanced ->
               Forall (fun v => id v <> key_of (Radio.track_videoId t)) videos ->
               Radio.track_duration_ms t = Radio.DEFAULT_DURATION).
Proof.
  intros H0 Hd1 H1 Hd2 Hne Hwf.
  exists (map (enhance (details_map videos)) items).
  assert (Hall : Forall2 (fun item t =>
               Radio.snippet t = Radio.snippet item /\
               Radio.contentDetails t =
               Some (default {| Radio.duration := None |}
                       (details_of videos (key_of (Radio.track_videoId item)))))
            items (map (enhance (details_map videos)) items)).
  { clear. induction items as [|item items IH]; constructor; [|done].
    split; [done|]. cbn [enhance Radio.contentDetails]. by rewrite details_map_lookup. }
  split; [|split; [exact Hall|]].
  - unfold fetchPlaylistItems, ncatch, nbind. rewrite axios_get_run, H0. cbn [answer snd].
    rewrite Hd1. destruct items as [|item items]; [done|].
    rewrite strict_videoIds_well_formed by done.
    rewrite axios_get_run. cbn [after replies lookup drop]. rewrite lookup_drop.
    cbn [Nat.add]. rewrite H1. cbn [answer snd]. rewrite Hd2. unfold nret.
    by rewrite after_after.
  - intros t Ht Hnone. apply list_elem_of_lookup in Ht as [j Hj].
    destruct (Forall2_lookup_r _ _ _ _ _ Hall Hj) as (item & _ & Hsn & Hcd).
    assert (Hid : Radio.track_videoId t = Radio.track_videoId item)
      by (unfold Radio.track_videoId; by rewrite Hsn).
    unfold Radio.track_duration_ms. rewrite Hcd, <- Hid. unfold details_of.
    replace (filter (fun v => id v = key_of (Radio.track_videoId t)) videos) with (@nil Video).
    { reflexivity. }
    symmetry. clear -Hnone. induction Hnone as [|v videos Hv _ IH]; [done|].
    rewrite filter_cons. by destruct (decide (id v = key_of (Radio.track_videoId t))).
Qed.

Lemma fetchPlaylistItems_merges_witness :
  exists enhanced : list Radio.Track,
    fetchPlaylistItems (browser catalog) = (Value enhanced, after 2 (browser catalog)) /\
    map Radio.track_duration_ms enhanced = [60000; 180000].
Proof.
  destruct (fetchPlaylistItems_merges (browser catalog) 200 200
              {| playlist_items := Some two_tracks; video_items := None |}
              {| playlist_items := None;
                 video_items :=
                   Some [{| id := "a1";
                            video_contentDetails :=
                              Some {| Radio.duration := Some (Radio.DurString "PT2M") |} |};
                         {| id := "zz"; video_contentDetails := None |};
                         {| id := "a1";
                            video_contentDetails :=
                              Some {| Radio.duration := Some (Radio.DurString "PT1M") |} |}] |}
              two_tracks _ eq_refl eq_refl eq_refl eq_refl)
    as (enhanced & Hrun & Hall & _).
  - discriminate.
  - repeat constructor; by eexists _, _.
  - exists enhanced. split; [exact Hrun|].
    apply Forall2_cons_inv_l in Hall as (t1 & rest1 & [_ Hc1] & Hall & ->).
    apply Forall2_cons_inv_l in Hall as (t2 & rest2 & [_ Hc2] & Hall & ->).
    apply Forall2_nil_inv_l in Hall as ->.
    cbn [map]. unfold Radio.track_duration_ms. rewrite Hc1, Hc2. reflexivity.
Defined.

(** [fetchPlaylistItems] sends at most two requests, and two when it
    returns tracks. *)
Lemma fetchPlaylistItems_requests (w : World) :
  exists (r : result (list Radio.Track)) (n : nat),
    fetchPlaylistItems w = (r, after n w) /\ (n <= 2)%nat /\
    (forall t l, r = Value (t :: l) -> n = 2%nat).
Proof.
  unfold fetchPlaylistItems, ncatch, nbind, nraise, nret. rewrite axios_get_run.
  destruct (answer (replies w !! 0%nat)) as [[status data]|e].
  - cbn [snd]. destruct (playlist_items data) as [[|item items]|].
    + eexists _, 1%nat. split; [done|]. split; [lia|done].
    + destruct (strict_videoIds (item :: items)).
      * rewrite axios_get_run.
        destruct (answer (replies (after 1 w) !! 0%nat)) as [[status2 data2]|e].
        -- cbn [snd]. destruct (video_items data2).
           ++ eexists _, 2%nat. rewrite after_after. split; [done|]. split; [lia|done].
           ++ eexists _, 2%nat. rewrite after_after. split; [done|]. split; [lia|done].
        -- eexists _, 2%nat. rewrite after_after. split; [done|]. split; [lia|done].
      * eexists _, 1%nat. split; [done|]. split; [lia|done].
    + eexists _, 1%nat. split; [done|]. split; [lia|done].
  - eexists _, 1%nat. split; [done|]. split; [lia|done].
Qed.

Lemma checkInternetConnection_requests (apiKey : option string) (w : World) :
  exists (c : Check) (n : nat),
    checkInternetConnection apiKey w = (Value c, after n w) /\
    (truthy apiKey = true -> n = 1%nat) /\
    (truthy apiKey = false -> n = 0%nat /\ success c = false).
Proof.
  unfold checkInternetConnection, ncatch, nbind, nret.
  destruct (truthy apiKey); cbn [negb].
  - rewrite axios_get_run. destruct (answer (replies w !! 0%nat)) as [[status data]|e].
    + by eexists _, 1%nat.
    + destruct (bool_decide (code e = Some "ERR_NETWORK"%string)); by eexists _, 1%nat.
  - eexists _, 0%nat. by rewrite after_0.
Qed.

Lemma checkYouTubeAccess_requests (apiKey : option string) (w : World) :
  exists (c : Check) (n : nat),
    checkYouTubeAccess apiKey w = (Value c, after n w) /\
    (truthy apiKey = true -> n = 1%nat) /\
    (truthy apiKey = false -> n = 0%nat /\ success c = false).
Proof.
  unfold checkYouTubeAccess, ncatch, nbind, nret.
  destruct (truthy apiKey); cbn [negb].
  - rewrite axios_get_run. destruct (answer (replies w !! 0%nat)) as [[status data]|e].
    + cbn [fst]. destruct (in_2xx status); by eexists _, 1%nat.
    + destruct (is_status e 403); by eexists _, 1%nat.
  - eexists _, 0%nat. by rewrite after_0.
Qed.

Lemma checkAPIKey_requests (apiKey : option string) (w : World) :
  exists (c : Check) (n : nat),
    checkAPIKey apiKey w = (Value c, after n w) /\
    (truthy apiKey = true -> n = 1%nat) /\
    (truthy apiKey = false -> n = 0%nat /\ success c = false) /\
    (success c = true ->
     exists status data, replies w !! 0%nat = Some (Resolved status data) /\
                         200 <= status < 300).
Proof.
  unfold checkAPIKey, ncatch, nbind, nret.
  destruct (truthy apiKey); cbn [negb].
  - rewrite axios_get_run. destruct (replies w !! 0%nat) as [[status data|e]|]; cbn [answer].
    + cbn [fst]. destruct (in_2xx status) eqn:H2xx.
      * eexists _, 1%nat. split; [done|]. split; [done|]. split; [done|].
        intros _. exists status, data. split; [done|]. unfold in_2xx in H2xx. lia.
      * by eexists _, 1%nat.
    + destruct (is_status e 403); by eexists _, 1%nat.
    + cbn. by eexists _, 1%nat.
  - eexists _, 0%nat. by rewrite after_0.
Qed.

Lemma checkPlaylistExists_requests (apiKey playlistId : option string) (w : World) :
  exists (c : Check) (n : nat),
    checkPlaylistExists apiKey playlistId w = (Value c, after n w) /\
    (n <= 2)%nat /\
    (truthy apiKey = false -> n = 0%nat /\ success c = false) /\
    (success c = true -> truthy playlistId = true /\ n = 2%nat).
Proof.
  unfold checkPlaylistExists, ncatch, nbind, nret.
  destruct (truthy apiKey); cbn [negb orb].
  - destruct (truthy playlistId); cbn [negb].
    + destruct (fetchPlaylistItems_requests w) as (r & n & -> & Hn & Hn2).
      destruct r as [[|t l]|e].
      * eexists _, n. by repeat split.
      * eexists _, n. split; [done|]. split; [done|]. split; [done|].
        intros _. split; [done|]. by eapply Hn2.
      * destruct (is_status e 404); eexists _, n; by repeat split.
    + eexists _, 0%nat. rewrite after_0. split; [done|]. split; [lia|]. done.
  - eexists _, 0%nat. rewrite after_0. split; [done|]. split; [lia|]. done.
Qed.

Lemma checkFirebaseAccess_run (w : World) :
  exists c : Check, checkFirebaseAccess w = (Value c, w) /\ success c = fb_online w.
Proof. unfold checkFirebaseAccess. destruct (fb_online w); by eexists. Qed.

Lemma checkSystemCompatibility_run (w : World) :
  exists c : Check,
    checkSystemCompatibility w = (Value c, w) /\
    (success c = true -> is_Some (navigator w)).
Proof.
  unfold checkSystemCompatibility. destruct (navigator w); eexists; split; try done.
Qed.

(** X28.  [runAllDiagnostics] never rejects, whatever the network, the
    database and the browser do: it returns a report after at most five
    requests.  A report in which all checks passed has the critical checks
    passed; and the critical checks pass only if an API key and a playlist
    id were given, the database was reachable, a navigator exists, the
    third request (that of the API-key check) resolved with a status
    between 200 and 299, and all five requests were sent. *)
Theorem runAllDiagnostics_total (apiKey playlistId : option string) (w : World) :
  exists (d : Diagnostics) (n : nat),
    runAllDiagnostics apiKey playlistId w = (Value d, after n w) /\
    (n <= 5)%nat /\
    (allPassed d = true -> criticalPassed d = true) /\
    (criticalPassed d = true ->
     truthy apiKey = true /\ truthy playlistId = true /\
     fb_online w = true /\ is_Some (navigator w) /\ n = 5%nat /\
     exists status data, replies w !! 2%nat = Some (Resolved status data) /\
                         200 <= status < 300).
Proof.
  unfold runAllDiagnostics, nbind, nret.
  destruct (checkInternetConnection_requests apiKey w) as (c1 & n1 & -> & Hy1 & Hn1).
  destruct (checkYouTubeAccess_requests apiKey (after n1 w)) as (c2 & n2 & -> & Hy2 & Hn2).
  rewrite after_after.
  destruct (checkAPIKey_requests apiKey (after (n1 + n2) w))
    as (c3 & n3 & -> & Hy3 & Hn3 & Hs3).
  rewrite after_after.
  destruct (checkPlaylistExists_requests apiKey playlistId (after (n1 + n2 + n3) w))
    as (c4 & n4 & -> & Hle4 & Hn4 & Hs4).
  rewrite after_after.
  destruct (checkFirebaseAccess_run (after (n1 + n2 + n3 + n4) w)) as (c5 & -> & Hs5).
  destruct (checkSystemCompatibility_run (after (n1 + n2 + n3 + n4) w)) as (c6 & -> & Hs6).
  cbn [after fb_online navigator] in Hs5, Hs6.
  eexists _, (n1 + n2 + n3 + n4)%nat. split; [reflexivity|].
  cbn [allPassed criticalPassed].
  split.
  { destruct (truthy apiKey).
    - rewrite (Hy1 eq_refl), (Hy2 eq_refl), (Hy3 eq_refl). lia.
    - destruct (Hn1 eq_refl) as [-> _], (Hn2 eq_refl) as [-> _],
        (Hn3 eq_refl) as [-> _], (Hn4 eq_refl) as [-> _]. lia. }
  split.
  { rewrite !andb_true_iff. tauto. }
  rewrite !andb_true_iff. intros [[[H3 H4] H5] H6].
  destruct (truthy apiKey) eqn:Hkey.
  - destruct (Hs4 H4) as [Hpl ->]. split; [done|]. split; [done|].
    split; [congruence|]. split; [auto|].
    rewrite (Hy1 eq_refl), (Hy2 eq_refl), (Hy3 eq_refl) in *. split; [lia|].
    destruct (Hs3 H3) as (status & data & Hr & Hst). exists status, data.
    split; [|done]. cbn [after replies] in Hr. by rewrite lookup_drop in Hr.
  - destruct (Hn3 eq_refl) as [_ Hf]. congruence.
Qed.

(** X29.  Without an API key (missing or empty) [runAllDiagnostics] sends
    no request at all and leaves the world as it is: the four checks that
    need the key fail with their own messages, whatever the playlist id,
    and the critical checks are reported as failed even when the database
    and the browser are fine. *)
Theorem runAllDiagnostics_without_key (apiKey playlistId : option string) (w : World) :
  truthy apiKey = false ->
  exists d : Diagnostics,
    runAllDiagnostics apiKey playlistId w = (Value d, w) /\
    internet d =
      {| success := false;
         check_message := "Cannot check internet connection without API key" |} /\
    youtube d =
      {| success := false;
         check_message := "Cannot check YouTube access without API key" |} /\
    apiKey_check d = {| success := false; check_message := "No API key provided" |} /\
    playlist_check d =
      {| success := false; check_message := "API key or Playlist ID missing" |} /\
    success (firebase d) = fb_online w /\
    criticalPassed d = false /\ allPassed d = false /\
    summary d = "Some critical diagnostics failed"%string.
Proof.
  intros Hkey.
  unfold runAllDiagnostics, nbind, nret, checkInternetConnection, checkYouTubeAccess,
    checkAPIKey, checkPlaylistExists, ncatch. rewrite Hkey. cbn [negb orb nret].
  destruct (checkFirebaseAccess_run w) as (c5 & -> & Hs5).
  destruct (checkSystemCompatibility_run w) as (c6 & -> & _).
  eexists. split; [reflexivity|]. cbn. by repeat split.
Qed.

Lemma runAllDiagnostics_without_key_witness :
  exists d : Diagnostics,
    runAllDiagnostics (Some ""%string) (Some "PL1"%string) (browser catalog) =
    (Value d, browser catalog) /\
    success (firebase d) = true /\ success (system d) = true /\
    criticalPassed d = false.
Proof.
  destruct (runAllDiagnostics_without_key (Some ""%string) (Some "PL1"%string)
              (browser catalog) eq_refl)
    as (d & Hrun & _ & _ & _ & _ & Hfb & Hcrit & _).
  exists d. split; [exact Hrun|]. split; [exact Hfb|]. split; [|exact Hcrit].
  injection Hrun as <-. reflexivity.
Defined.

(** X30.  When the server answers every request with a refusal of status
    403 (at least four replies are at hand), [runAllDiagnostics] with a
    key and a playlist id sends four requests: the internet check and the
    YouTube check succeed, the API-key check fails as invalid or out of
    quota, and the playlist check fails with the message of the error, so
    the critical checks are reported as failed. *)
Theorem runAllDiagnostics_denied (apiKey playlistId : option string) (w : World) :
  truthy apiKey = true -> truthy playlistId = true ->
  Forall denied (replies w) -> (4 <= length (replies w))%nat ->
  exists (d : Diagnostics) (e : HttpError),
    runAllDiagnostics apiKey playlistId w = (Value d, after 4 w) /\
    replies w !! 3%nat = Some (Rejected e) /\
    internet d =
      {| success := true;
         check_message := "Internet connection available (detected via API response)" |} /\
    youtube d =
      {| success := true;
         check_message := "YouTube API is reachable (but API key may be invalid)" |} /\
    apiKey_check d =
      {| success := false; check_message := "API key is invalid or quota exceeded" |} /\
    playlist_check d =
      {| success := false;
         check_message :=
           "Unable to check playlist: " ++
           (if truthy (message e) then default ""%string (message e)
            else "Unknown error"%string) |} /\
    criticalPassed d = false.
Proof.
  intros Hkey Hpl Hall Hlen.
  assert (Hat : forall k : nat, (k < 4)%nat ->
            exists e, replies (after k w) !! 0%nat = Some (Rejected e) /\
                      replies w !! k = Some (Rejected e) /\
                      response_status e = Some 403 /\
                      code e <> Some "ERR_NETWORK"%string).
  { intros k Hk. destruct (lookup_lt_is_Some_2 (replies w) k) as [r Hr]; [lia|].
    destruct (Forall_lookup_1 _ _ _ _ Hall Hr) as (e & -> & Hs & Hc).
    exists e. cbn [after replies]. rewrite lookup_drop, Nat.add_0_r. done. }
  destruct (Hat 0%nat) as (e1 & H1 & _ & Hs1 & Hc1); [lia|].
  destruct (Hat 1%nat) as (e2 & H2 & _ & Hs2 & Hc2); [lia|].
  destruct (Hat 2%nat) as (e3 & H3 & _ & Hs3 & Hc3); [lia|].
  destruct (Hat 3%nat) as (e4 & H4 & Hw4 & Hs4 & Hc4); [lia|].
  unfold runAllDiagnostics, nbind at 1.
  replace (checkInternetConnection apiKey w) with
    (Value {| success := true;
              check_message :=
                "Internet connection available (detected via API response)" |},
     after 1 w).
  2:{ unfold checkInternetConnection, ncatch, nbind, nret. rewrite Hkey. cbn [negb].
      rewrite axios_get_run. rewrite after_0 in H1. rewrite H1. cbn [answer].
      by rewrite (bool_decide_eq_false_2 _ Hc1). }
  unfold nbind at 1.
  replace (checkYouTubeAccess apiKey (after 1 w)) with
    (Value {| success := true;
              check_message :=
                "YouTube API is reachable (but API key may be invalid)" |},
     after 2 w).
  2:{ unfold checkYouTubeAccess, ncatch, nbind, nret. rewrite Hkey. cbn [negb].
      rewrite axios_get_run, H2. cbn [answer]. unfold is_status. rewrite Hs2.
      rewrite bool_decide_eq_true_2 by done. by rewrite after_after. }
  unfold nbind at 1.
  replace (checkAPIKey apiKey (after 2 w)) with
    (Value {| success := false;
              check_message := "API key is invalid or quota exceeded" |},
     after 3 w).
  2:{ unfold checkAPIKey, ncatch, nbind, nret. rewrite Hkey. cbn [negb].
      rewrite axios_get_run, H3. cbn [answer]. unfold is_status. rewrite Hs3.
      rewrite bool_decide_eq_true_2 by done. by rewrite after_after. }
  unfold nbind at 1.
  replace (checkPlaylistExists apiKey playlistId (after 3 w)) with
    (Value {| success := false;
              check_message :=
                "Unable to check playlist: " ++
                (if truthy (message e4) then default ""%string (message e4)
                 else "Unknown error"%string) |},
     after 4 w).
  2:{ unfold checkPlaylistExists, fetchPlaylistItems, ncatch, nbind, nret, nraise.
      rewrite Hkey, Hpl. cbn [negb orb].
      rewrite axios_get_run, H4. cbn [answer]. unfold is_status. rewrite Hs4.
      rewrite bool_decide_eq_false_2 by discriminate. by rewrite after_after. }
  unfold nbind, nret.
  destruct (checkFirebaseAccess_run (after 4 w)) as (c5 & -> & _).
  destruct (checkSystemCompatibility_run (after 4 w)) as (c6 & -> & _).
  eexists _, e4. split; [reflexivity|]. split; [exact Hw4|]. cbn. by repeat split.
Qed.

Lemma runAllDiagnostics_denied_witness :
  exists d : Diagnostics,
    runAllDiagnostics (Some "key"%string) (Some "PL1"%string)
      (browser [forbidden; forbidden; forbidden; forbidden]) =
    (Value d, after 4 (browser [forbidden; forbidden; forbidden; forbidden])) /\
    success (internet d) = true /\ success (youtube d) = true /\
    check_message (playlist_check d) =
      "Unable to check playlist: Request failed with status code 403"%string /\
    criticalPassed d = false.
Proof.
  destruct (runAllDiagnostics_denied (Some "key"%string) (Some "PL1"%string)
              (browser [forbidden; forbidden; forbidden; forbidden]) eq_refl eq_refl)
    as (d & e & Hrun & He & Hi & Hy & _ & Hp & Hcrit).
  - do 4 (constructor; [eexists; split; [reflexivity|split; [reflexivity|discriminate]]|]).
    constructor.
  - simpl. lia.
  - exists d. split; [exact Hrun|]. rewrite Hi, Hy, Hp, Hcrit.
    injection He as <-. by repeat split.
Defined.

End NetProofs.
